(** * PDFora: a shallow embedding of the file store, the Ghostscript invoker,
      the HTTP handlers and the file selection of the page, with the
      properties of the specification and further properties of the code

    The service is JavaScript on Node.  The embedding keeps the data the way
    the program has it:

    - a JavaScript number is an IEEE-754 binary64 value, embedded with the
      Standard Library's executable specification of binary floating point
      ([SpecFloat], precision 53, [emax] 1024, round to nearest even);
    - strings are [string]s (the code units of the file names and messages
      that occur are ASCII);
    - the storage directories are finite maps from entry names to inodes;
    - operations that log, throw or touch the disk are written in a small
      state-and-exception monad over the world (disk and console);
    - the child processes of the invoker deliver their events to the handlers
      that the code registers, through the queues of the runtime: the
      ['error'] of a child that cannot be spawned is due on the next tick,
      the ['close'] events arrive later, in an order that is the host's;
    - the page is the part of the document that the selection of files reads
      and writes.

    What the runtime computes approximately or from the platform is taken as
    follows: [Math.log] is taken as accurate (only the floor of a quotient
    of logarithms is used), [path.join] is embedded for a name that is one
    path segment, as the entries of a directory are (a name with a separator
    or a dot segment, which [path.join] normalises, is outside of it), and
    the differences of timestamps are exact rationals. *)

From Stdlib Require Import ZArith QArith Qcanon String Ascii List Lia.
From Stdlib Require Import Floats.SpecFloat.
From Stdlib Require Import DecimalString.
From stdpp Require Import gmap strings.
Import ListNotations.

Local Open Scope Z_scope.

(* ===================================================================== *)
(** * The JavaScript runtime the sources rely on *)
(* ===================================================================== *)

Module Number.

(** binary64 *)
Definition prec : Z := 53.
Definition emax : Z := 1024.

Definition NaN : spec_float := S754_nan.
Definition zero : spec_float := S754_zero false.

(** The number denoted by an integer literal or held by an integer-valued
    field (a byte count, an exit code, a timestamp): the integer rounded to
    binary64, which is the integer itself below 2^53. *)
Definition ofZ (z : Z) : spec_float := binary_normalize prec emax z 0 false.

Definition sub : spec_float -> spec_float -> spec_float := SFsub prec emax.
Definition mul : spec_float -> spec_float -> spec_float := SFmul prec emax.
Definition div : spec_float -> spec_float -> spec_float := SFdiv prec emax.
Definition ltb : spec_float -> spec_float -> bool := SFltb.
Definition leb : spec_float -> spec_float -> bool := SFleb.

(** [Number.isNaN] *)
Definition is_nan (x : spec_float) : bool :=
  match x with S754_nan => true | _ => false end.

(** A number (not NaN) with the given sign bit. *)
Definition signed (s : bool) (x : spec_float) : Prop :=
  match x with
  | S754_zero s' | S754_infinity s' | S754_finite s' _ _ => s' = s
  | S754_nan => False
  end.

(** Structural equality; on the canonical values the operations return it
    is the identity of the number (and tells -0 from +0). *)
Definition same (x y : spec_float) : bool :=
  match x, y with
  | S754_zero a, S754_zero b => Bool.eqb a b
  | S754_infinity a, S754_infinity b => Bool.eqb a b
  | S754_nan, S754_nan => true
  | S754_finite a m e, S754_finite b m' e' =>
      Bool.eqb a b && Pos.eqb m m' && Z.eqb e e'
  | _, _ => false
  end.

(** [Math.round]: the nearest integer, a tie going towards +infinity; the
    sign of a zero result is the sign of the argument. *)
Definition Math_round (x : spec_float) : spec_float :=
  match x with
  | S754_finite s m e =>
      if 0 <=? e then x
      else
        let d := 2 ^ (- e) in
        let v := if s then Z.neg m else Z.pos m in
        let z := (2 * v + d) / (2 * d) in
        if z =? 0 then S754_zero s else ofZ z
  | _ => x
  end.

(** [Math.max] of two arguments: NaN is contagious, +0 is above -0. *)
Definition Math_max (a b : spec_float) : spec_float :=
  match SFcompare a b with
  | None => S754_nan
  | Some Lt => b
  | Some Gt => a
  | Some Eq => match a with S754_zero true => b | _ => a end
  end.

(** ** Number::toString, radix 10

    The shortest decimal [s * 10^(n-k)] (with [k] digits) that rounds back
    to the number, the closest one if several of that length do, printed
    in positional notation for [-6 < n <= 21] and in exponent notation
    otherwise. *)

Definition digits (p : positive) : string :=
  NilEmpty.string_of_uint (Pos.to_uint p).

Fixpoint zeros (j : nat) : string :=
  match j with O => EmptyString | S j' => String "0" (zeros j') end.

(** the binary64 value nearest to [s * 10^p] *)
Definition ofDecimal (s : positive) (p : Z) : spec_float :=
  if 0 <=? p then ofZ (Z.pos s * 10 ^ p)
  else div (S754_finite false s 0)
           (S754_finite false (Z.to_pos (10 ^ (- p))) 0).

(** the least [j >= 0] (searched up to the fuel) with [num * 10^(j+1) >= den] *)
Fixpoint leading_zeros (fuel : nat) (num den : Z) (j : Z) : Z :=
  match fuel with
  | O => j
  | S fuel' =>
      if den <=? num * 10 then j
      else leading_zeros fuel' (num * 10) den (j + 1)
  end.

(** [n] with [10^(n-1) <= num/den < 10^n] *)
Definition decimal_exponent (num den : Z) : Z :=
  if den <=? num
  then Z.of_nat (String.length (digits (Z.to_pos (num / den))))
  else - leading_zeros 400 num den 0.

(** the [k]-digit candidate for [num/den], if one rounds back to [x] *)
Definition candidate (x : spec_float) (num den n : Z) (k : Z)
  : option (positive * Z) :=
  let p := n - k in
  let '(a, b) := if 0 <=? p then (num, den * 10 ^ p)
                 else (num * 10 ^ (- p), den) in
  let lo := a / b in
  let hi := lo + 1 in
  let ok s := (0 <? s) && same (ofDecimal (Z.to_pos s) p) x in
  let pick s :=
    if s =? 10 ^ k then Some (Z.to_pos (s / 10), n + 1)
    else Some (Z.to_pos s, n) in
  match ok lo, ok hi with
  | true, false => pick lo
  | false, true => pick hi
  | true, true =>
      match Z.compare (2 * (a mod b)) b with
      | Lt => pick lo
      | Gt => pick hi
      | Eq => if Z.even lo then pick lo else pick hi
      end
  | false, false => None
  end.

Fixpoint shortest (fuel : nat) (x : spec_float) (num den n : Z) (k : Z)
  : option (positive * Z) :=
  match fuel with
  | O => None
  | S fuel' =>
      match candidate x num den n k with
      | Some r => Some r
      | None => shortest fuel' x num den n (k + 1)
      end
  end.

Definition render (s : positive) (n : Z) : string :=
  let ds := digits s in
  let k := Z.of_nat (String.length ds) in
  if (k <=? n) && (n <=? 21) then
    ds +:+ zeros (Z.to_nat (n - k))
  else if (0 <? n) && (n <=? 21) then
    String.substring 0 (Z.to_nat n) ds +:+ "." +:+
    String.substring (Z.to_nat n) (Z.to_nat (k - n)) ds
  else if (-6 <? n) && (n <=? 0) then
    "0." +:+ zeros (Z.to_nat (- n)) +:+ ds
  else
    let e := n - 1 in
    let es := (if e <? 0 then "-" else "+") +:+ digits (Z.to_pos (Z.abs e)) in
    if k =? 1 then ds +:+ "e" +:+ es
    else String.substring 0 1 ds +:+ "." +:+
         String.substring 1 (Z.to_nat (k - 1)) ds +:+ "e" +:+ es.

Definition toString_pos (m : positive) (e : Z) : string :=
  let x := S754_finite false m e in
  let '(num, den) := if 0 <=? e then (Z.pos m * 2 ^ e, 1)
                     else (Z.pos m, 2 ^ (- e)) in
  let n := decimal_exponent num den in
  match shortest 17 x num den n 1 with
  | Some (s, n') => render s n'
  | None => "NaN"
  end.

Definition toString (x : spec_float) : string :=
  match x with
  | S754_nan => "NaN"
  | S754_zero _ => "0"
  | S754_infinity s => if s then "-Infinity" else "Infinity"
  | S754_finite s m e =>
      (if s then "-" else "") +:+ toString_pos m e
  end.

End Number.


(** ** Strings *)

Module JSString.

(** [s.includes(pat)] *)
Fixpoint includes (s pat : string) : bool :=
  if String.prefix pat s then true
  else match s with
       | EmptyString => false
       | String _ s' => includes s' pat
       end.

Fixpoint drop (n : nat) (s : string) : string :=
  match n, s with
  | S n', String _ s' => drop n' s'
  | _, _ => s
  end.

(** [s.replace(pat, repl)] for a string pattern and a replacement without
    [$]: only the first occurrence of [pat] is replaced. *)
Fixpoint replace (s pat repl : string) : string :=
  if String.prefix pat s then repl +:+ drop (String.length pat) s
  else match s with
       | EmptyString => s
       | String c s' => String c (replace s' pat repl)
       end.

(** [s.substring(0, n)] *)
Definition substring0 (n : nat) (s : string) : string :=
  String.substring 0 n s.

(** [parts.join(sep)] *)
Fixpoint join (sep : string) (parts : list string) : string :=
  match parts with
  | [] => ""
  | [p] => p
  | p :: rest => p +:+ sep +:+ join sep rest
  end.

End JSString.

(** ** Errors, the disk, the console *)

(** An [Error] object: its [code] property ([undefined] for a plain
    [new Error(message)]) and its message. *)
Record Error := { code : option string; message : string }.

Definition new_Error (msg : string) : Error :=
  {| code := None; message := msg |}.

Definition has_code (e : Error) (c : string) : bool :=
  match code e with
  | Some c' => String.eqb c' c
  | None => false
  end.

(** A path: the directory it leads into and the name of the entry there. *)
Record Path := { dirname : string; basename : string }.

(** [path.join(directory, name)] for a [name] that is one path segment, as
    the names that [readdir] lists and the file names that the handlers
    build are.  [path.join] also normalises: a name with a separator or a
    dot segment leads to another directory, which this definition does not
    follow; what the properties say of a name that comes from a request is
    said of a [plain] name. *)
Definition path_join (directory name : string) : Path :=
  {| dirname := directory; basename := name |}.


Definition Path_toString (p : Path) : string :=
  dirname p +:+ "/" +:+ basename p.

(** A directory entry: its size and modification time (milliseconds, with
    the sub-millisecond fraction [mtimeMs] carries), and the error, if any,
    that [stat] or [unlink] meets on it (a directory, a dangling link, a
    permission).  Time differences are taken exactly: the binary64
    subtraction of two timestamps is exact whenever the older one is at
    least half of the newer one. *)
Record Inode := {
  size : Z;
  mtimeMs : Qc;
  stat_fault : option Error;
  unlink_fault : option Error
}.

Record Directory := {
  readdir_fault : option Error;
  entries : gmap string Inode
}.

Inductive Line :=
| console_log (text : string)
| console_error (text : string) (e : Error).

(** The disk maps the path of a directory to the directory. *)
Record World := {
  disk : gmap string Directory;
  console : list Line
}.

(** ** Computations: world passing with exceptions

    [Hung] is an [await] on a promise that nobody settles. *)

Inductive Completion (A : Type) :=
| Returned (a : A)
| Thrown (e : Error)
| Hung.
Arguments Returned {A} a.
Arguments Thrown {A} e.
Arguments Hung {A}.

Definition M (A : Type) : Type := World -> World * Completion A.

#[global] Instance M_ret : MRet M := fun A a w => (w, Returned a).

#[global] Instance M_bind : MBind M := fun A B f m w =>
  match m w with
  | (w', Returned a) => f a w'
  | (w', Thrown e) => (w', Thrown e)
  | (w', Hung) => (w', Hung)
  end.

Definition throw {A} (e : Error) : M A := fun w => (w, Thrown e).

(** [try { body } catch (error) { handler error }] *)
Definition try_catch {A} (body : M A) (handler : Error -> M A) : M A :=
  fun w =>
    match body w with
    | (w', Thrown e) => handler e w'
    | r => r
    end.

Definition print (l : Line) : M unit :=
  fun w => ({| disk := disk w; console := console w ++ [l] |}, Returned tt).

Module fs.

Definition ENOENT (syscall : string) (target : string) : Error :=
  {| code := Some "ENOENT";
     message := "ENOENT: no such file or directory, " +:+ syscall +:+
                " '" +:+ target +:+ "'" |}.

Definition lookup (p : Path) (w : World) : option (Directory * Inode) :=
  match disk w !! dirname p with
  | Some d =>
      match entries d !! basename p with
      | Some f => Some (d, f)
      | None => None
      end
  | None => None
  end.

Record Stats := { st_size : Z; st_mtimeMs : Qc }.

(** [fs.promises.readdir(directory)] *)
Definition readdir (directory : string) : M (list string) := fun w =>
  match disk w !! directory with
  | None => (w, Thrown (ENOENT "scandir" directory))
  | Some d =>
      match readdir_fault d with
      | Some e => (w, Thrown e)
      | None => (w, Returned ((map_to_list (entries d)).*1))
      end
  end.

(** [fs.promises.stat(path)] *)
Definition stat (p : Path) : M Stats := fun w =>
  match lookup p w with
  | None => (w, Thrown (ENOENT "stat" (Path_toString p)))
  | Some (_, f) =>
      match stat_fault f with
      | Some e => (w, Thrown e)
      | None => (w, Returned {| st_size := size f; st_mtimeMs := mtimeMs f |})
      end
  end.

(** [fs.promises.unlink(path)] *)
Definition unlink (p : Path) : M unit := fun w =>
  match lookup p w with
  | None => (w, Thrown (ENOENT "unlink" (Path_toString p)))
  | Some (d, f) =>
      match unlink_fault f with
      | Some e => (w, Thrown e)
      | None =>
          let d' := {| readdir_fault := readdir_fault d;
                       entries := delete (basename p) (entries d) |} in
          ({| disk := <[dirname p := d']> (disk w); console := console w |},
           Returned tt)
      end
  end.

(** [fs.promises.access(path)] *)
Definition access (p : Path) : M unit := fun w =>
  match lookup p w with
  | None => (w, Thrown (ENOENT "access" (Path_toString p)))
  | Some _ => (w, Returned tt)
  end.

(** [fs.promises.mkdir(directory, { recursive: true })]: nothing happens
    when the directory is there; otherwise it is created, empty, unless the
    operating system refuses, with the error [refusal directory] (a file in
    the way, a permission). *)
Definition mkdir (refusal : string -> option Error) (directory : string)
  : M unit := fun w =>
  match disk w !! directory with
  | Some _ => (w, Returned tt)
  | None =>
      match refusal directory with
      | Some e => (w, Thrown e)
      | None =>
          ({| disk := <[directory := {| readdir_fault := None;
                                        entries := ∅ |}]> (disk w);
              console := console w |},
           Returned tt)
      end
  end.

End fs.

(* ===================================================================== *)
(** * config/config.js *)
(* ===================================================================== *)

(** The value of an entry of [compression.options]. *)
Inductive OptionValue :=
| Boolean (b : bool)
| Text (s : string).

Record Config := {
  upload_maxFileSize : Z;
  upload_allowedMimeTypes : list string;
  upload_uploadDir : string;
  upload_compressedDir : string;
  cleanup_maxFileAge : Z;
  cleanup_cleanupInterval : Z;
  compression_ghostscriptPath : option string;
  compression_defaultQuality : string;
  (** [Object.entries(options)], in enumeration order *)
  compression_options : list (string * OptionValue)
}.

Definition config : Config := {|
  upload_maxFileSize := 250 * 1024 * 1024;
  upload_allowedMimeTypes := ["application/pdf"];
  upload_uploadDir := "uploads";
  upload_compressedDir := "compressed";
  cleanup_maxFileAge := 60 * 60 * 1000;
  cleanup_cleanupInterval := 15 * 60 * 1000;
  compression_ghostscriptPath :=
    Some "D:\ghostscriptforpdftool\gs10.06.0\bin\gswin64c.exe";
  compression_defaultQuality := "/ebook";
  compression_options :=
    [ ("dCompatibilityLevel", Text "1.4");
      ("dNOPAUSE", Boolean true);
      ("dBATCH", Boolean true);
      ("dSAFER", Boolean true);
      ("dCompressFonts", Boolean true);
      ("dCompressPages", Boolean true);
      ("dOptimize", Boolean true);
      ("dEmbedAllFonts", Boolean true);
      ("dSubsetFonts", Boolean true);
      ("dAutoRotatePages", Text "/None");
      ("dColorImageDownsampleType", Text "/Bicubic");
      ("dGrayImageDownsampleType", Text "/Bicubic") ]
|}.

(* ===================================================================== *)
(** * services/fileManager.js *)
(* ===================================================================== *)

Module fileManager.

(** The multer file object. *)
Record File := {
  path : Path;
  mimetype : string;
  file_size : Z;
  originalname : string
}.

Record Validation := { success : bool; validation_message : string }.

Section WithConfig.

Variable cfg : Config.

(** [validateFile(file)]; [None] is a missing file. *)
Definition validateFile (file : option File) : Validation :=
  match file with
  | None => {| success := false; validation_message := "No file uploaded" |}
  | Some file =>
      if negb (existsb (String.eqb (mimetype file))
                       (upload_allowedMimeTypes cfg))
      then {| success := false;
              validation_message := "Only PDF files are allowed" |}
      else if upload_maxFileSize cfg <? file_size file
      then
        let maxSizeMB :=
          Number.div (Number.ofZ (upload_maxFileSize cfg))
                     (Number.ofZ (1024 * 1024)) in
        {| success := false;
           validation_message :=
             "File size exceeds " +:+ Number.toString maxSizeMB +:+
             " MB limit" |}
      else {| success := true; validation_message := "File is valid" |}
  end.

(** [Math.floor(Math.log(bytes) / Math.log(k))] for [k = 1024]: NaN
    ([None]) below zero, and for a positive count the floor of its
    logarithm in base 1024, the logarithms being taken as accurate. *)
Definition floor_log1024 (bytes : Z) : option Z :=
  if bytes <? 0 then None else Some (Z.log2 bytes / 10).

Definition sizes : list string := ["Bytes"; "KB"; "MB"; "GB"].

(** [sizes[i]] once converted to a string *)
Definition unit_name (i : option Z) : string :=
  match i with
  | Some i =>
      match nth_error sizes (Z.to_nat i) with
      | Some u => u
      | None => "undefined"
      end
  | None => "undefined"
  end.

(** [Math.pow(k, i)] *)
Definition pow1024 (i : option Z) : spec_float :=
  match i with
  | Some i => Number.ofZ (1024 ^ i)
  | None => Number.NaN
  end.

(** [formatBytes(bytes)] *)
Definition formatBytes (bytes : Z) : string :=
  if bytes =? 0 then "0 Bytes"
  else
    let i := floor_log1024 bytes in
    Number.toString
      (Number.div
         (Number.Math_round
            (Number.mul (Number.div (Number.ofZ bytes) (pow1024 i))
                        (Number.ofZ 100)))
         (Number.ofZ 100))
    +:+ " " +:+ unit_name i.

Record FileSize := { bytes : Z; formatted : string }.

(** [getFileSize(filePath)] *)
Definition getFileSize (filePath : Path) : M FileSize :=
  try_catch
    (stats ← fs.stat filePath;
     mret {| bytes := fs.st_size stats;
             formatted := formatBytes (fs.st_size stats) |})
    (fun error =>
       throw (new_Error ("Error getting file size: " +:+ message error))).

(** [fileAge > this.maxFileAge] *)
Definition expired (currentTime : Qc) (stats : fs.Stats) : bool :=
  bool_decide (Qc_of_Z (cleanup_maxFileAge cfg)
               < currentTime - fs.st_mtimeMs stats)%Qc.

(** The [for] loop of [_cleanDirectory], with the counter it has reached
    when it ends or is left by an exception. *)
Fixpoint clean_loop (directory : string) (currentTime : Qc)
    (files : list string) (count : nat) (w : World)
  : World * (nat * Completion unit) :=
  match files with
  | [] => (w, (count, Returned tt))
  | file :: rest =>
      let filePath := path_join directory file in
      match fs.stat filePath w with
      | (w1, Returned stats) =>
          if expired currentTime stats then
            match fs.unlink filePath w1 with
            | (w2, Returned _) =>
                clean_loop directory currentTime rest (S count) w2
            | (w2, Thrown e) => (w2, (count, Thrown e))
            | (w2, Hung) => (w2, (count, Hung))
            end
          else clean_loop directory currentTime rest count w1
      | (w1, Thrown e) => (w1, (count, Thrown e))
      | (w1, Hung) => (w1, (count, Hung))
      end
  end.

(** [_cleanDirectory(directory, currentTime)] *)
Definition _cleanDirectory (directory : string) (currentTime : Qc)
  : M nat := fun w =>
  match fs.readdir directory w with
  | (w1, Returned files) =>
      match clean_loop directory currentTime files 0 w1 with
      | (w2, (count, Returned _)) => (w2, Returned count)
      | (w2, (count, Thrown error)) =>
          if negb (has_code error "ENOENT") then (w2, Thrown error)
          else (w2, Returned count)
      | (w2, (_, Hung)) => (w2, Hung)
      end
  | (w1, Thrown error) =>
      if negb (has_code error "ENOENT") then (w1, Thrown error)
      else (w1, Returned 0%nat)
  | (w1, Hung) => (w1, Hung)
  end.

(** [cleanupOldFiles()], at the time [now = Date.now()] *)
Definition cleanupOldFiles (now : Qc) : M unit :=
  try_catch
    (c1 ← _cleanDirectory (upload_uploadDir cfg) now;
     c2 ← _cleanDirectory (upload_compressedDir cfg) now;
     let cleanedCount := (c1 + c2)%nat in
     if (0 <? cleanedCount)%nat
     then print (console_log
                   ("✓ Cleaned up " +:+
                    Number.toString (Number.ofZ (Z.of_nat cleanedCount))
                    +:+ " old file(s)"))
     else mret tt)
    (fun error => print (console_error "Error during cleanup:" error)).

(** [deleteFile(filePath)] *)
Definition deleteFile (filePath : Path) : M unit :=
  try_catch
    (fs.unlink filePath;;
     print (console_log ("✓ Deleted file: " +:+ basename filePath)))
    (fun error =>
       print (console_error
                ("Error deleting file " +:+ Path_toString filePath +:+ ":")
                error)).

(** [fileExists(filePath)] *)
Definition fileExists (filePath : Path) : M bool :=
  try_catch (fs.access filePath;; mret true) (fun _ => mret false).

(** [initializeDirectories()] *)
Definition initializeDirectories (refusal : string -> option Error)
  : M unit :=
  try_catch
    (fs.mkdir refusal (upload_uploadDir cfg);;
     fs.mkdir refusal (upload_compressedDir cfg);;
     print (console_log "✓ Storage directories initialized"))
    (fun error =>
       print (console_error "Error creating directories:" error);;
       throw error).

End WithConfig.

End fileManager.

(* ===================================================================== *)
(** * services/pdfCompressor.js *)
(* ===================================================================== *)

Module pdfCompressor.

(** ** The host: platform, installation directories, child processes *)

(** What [spawn(command, args)] leads to, by the contract of Node's
    [ChildProcess].  A child that cannot be spawned emits ['error'] on the
    next tick of the runtime, before the runtime polls for any other event,
    and it emits ['close'] as well, later, when its streams are closed, with
    the negative errno as exit code (-2 for ENOENT on Linux, -4058 on
    Windows): code that listens to both has to guard against handling the
    failure twice.  A child that starts emits ['close'] once it has exited
    and its streams are closed, with its exit code ([None] is [null], a
    child killed by a signal), after the ['data'] events that make up
    [stderr] and after whatever it wrote to the disk.  A child may also
    start and never exit, or never let go of its streams: it emits no
    ['close'], and nothing else that the handlers listen to. *)
Inductive SpawnOutcome :=
| SpawnFailed (error : Error) (errno : Z)
| Started (exitCode : option Z) (stderr : string)
          (writes : gmap string Directory -> gmap string Directory)
| NeverExits.

Record Host := {
  platform : string;
  env_ProgramFiles : option string;
  env_ProgramFiles_x86 : option string;
  (** [fs.existsSync] *)
  existsSync : string -> bool;
  (** [fs.readdirSync]; [None] when it throws *)
  readdirSync : string -> option (list string);
  spawn : string -> list string -> SpawnOutcome;
  (** The order in which the ['close'] events arrive is the host's: for the
      commands spawned so far and the number of children whose ['close'] is
      outstanding, the position, in the order of the spawns, of the child
      whose ['close'] arrives next (the oldest one when the position is out
      of range). *)
  closes_next : list string -> nat -> nat
}.

(** The events the handlers of one child receive. *)
Inductive ChildEvent :=
| error_event (error : Error)
| close_event (exitCode : option Z) (stderr : string)
              (writes : gmap string Directory -> gmap string Directory).

Inductive Settlement :=
| Resolved
| Rejected (reason : Error).

(** The state the closures of [_executeGhostscript] share, and the event
    queues of the runtime: [ticks] holds the ['error'] events of the
    children that failed to spawn, which are due before the runtime polls
    for anything else; [polled] holds the ['close'] events that are
    outstanding, in the order of the spawns. *)
Record Walk := {
  currentCommandIndex : nat;
  spawned : list string;
  promise : option Settlement;
  ticks : list ChildEvent;
  polled : list ChildEvent;
  files : gmap string Directory
}.

(** The event at position [i] of the outstanding ones, the oldest one when
    there is none at that position, and the events that stay. *)
Definition arrival (i : nat) (outstanding : list ChildEvent)
  : option (ChildEvent * list ChildEvent) :=
  match outstanding !! i with
  | Some ev => Some (ev, delete i outstanding)
  | None =>
      match outstanding with
      | ev :: rest => Some (ev, rest)
      | [] => None
      end
  end.

Record CompressionResult := {
  result_success : bool;
  originalSize : string;
  compressedSize : string;
  originalBytes : Z;
  compressedBytes : Z;
  compressionRatio : spec_float;
  savedBytes : Z;
  savedFormatted : string
}.

Section WithConfig.

Variable cfg : Config.
Variable host : Host.

(** [_buildGhostscriptCommand(inputPath, outputPath)]; [unshift] puts an
    argument in front. *)
Definition _buildGhostscriptCommand (inputPath outputPath : string)
  : list string :=
  fold_left
    (fun args entry =>
       match entry with
       | (key, Boolean _) => ("-" +:+ key) :: args
       | (key, Text value) => ("-" +:+ key +:+ "=" +:+ value) :: args
       end)
    (compression_options cfg)
    [ "-sDEVICE=pdfwrite";
      "-dPDFSETTINGS=" +:+ compression_defaultQuality cfg;
      "-sOutputFile=" +:+ outputPath;
      inputPath ].

(** [process.env.X + '\\gs'] *)
Definition env_gs (v : option string) : string :=
  match v with Some s => s | None => "undefined" end +:+ "\gs".

Definition commonPaths : list string :=
  [ "C:\Program Files\gs";
    "C:\Program Files (x86)\gs";
    env_gs (env_ProgramFiles host);
    env_gs (env_ProgramFiles_x86 host) ].

(** [path.join] on Windows *)
Definition win32_join (parts : list string) : string :=
  JSString.join (String (ascii_of_nat 92) "") parts.

(** The body of the loop over [commonPaths]; an exception of
    [readdirSync] is caught and ignored. *)
Definition installed (basePath : string) : list string :=
  if existsSync host basePath then
    match readdirSync host basePath with
    | Some versions =>
        flat_map
          (fun version =>
             let binPath := win32_join [basePath; version; "bin"] in
             if existsSync host binPath
             then [ win32_join [binPath; "gswin64c.exe"];
                    win32_join [binPath; "gswin32c.exe"] ]
             else [])
          versions
    | None => []
    end
  else [].

(** The list [gsCommands] when [tryCommand] is first called. *)
Definition gsCommands : list string :=
  match compression_ghostscriptPath cfg with
  | Some p => if String.eqb p "" then [] else [p]
  | None => []
  end
  ++ ["gs"; "gswin64c"; "gswin32c"]
  ++ (if String.eqb (platform host) "win32"
      then flat_map installed commonPaths
      else []).

Definition not_found : Error :=
  new_Error
    ("Ghostscript not found. Please install Ghostscript and ensure it is in your PATH. "
     +:+ "Visit https://www.ghostscript.com/download/gsdnld.html").

(** [resolve()] and [reject(reason)]: a settled promise stays as it is. *)
Definition settle (s : Settlement) (w : Walk) : Walk :=
  match promise w with
  | Some _ => w
  | None =>
      {| currentCommandIndex := currentCommandIndex w;
         spawned := spawned w;
         promise := Some s;
         ticks := ticks w;
         polled := polled w;
         files := files w |}
  end.

Definition next_index (w : Walk) : Walk :=
  {| currentCommandIndex := S (currentCommandIndex w);
     spawned := spawned w;
     promise := promise w;
     ticks := ticks w;
     polled := polled w;
     files := files w |}.

Section Walking.

Variable args : list string.

(** [tryCommand()] *)
Definition tryCommand (w : Walk) : Walk :=
  if (length gsCommands <=? currentCommandIndex w)%nat
  then settle (Rejected not_found) w
  else
    let command := nth (currentCommandIndex w) gsCommands "undefined" in
    match spawn host command args with
    | SpawnFailed error errno =>
        {| currentCommandIndex := currentCommandIndex w;
           spawned := spawned w ++ [command];
           promise := promise w;
           ticks := ticks w ++ [error_event error];
           polled := polled w ++ [close_event (Some errno) "" id];
           files := files w |}
    | Started exitCode stderr writes =>
        {| currentCommandIndex := currentCommandIndex w;
           spawned := spawned w ++ [command];
           promise := promise w;
           ticks := ticks w;
           polled := polled w ++ [close_event exitCode stderr writes];
           files := files w |}
    | NeverExits =>
        {| currentCommandIndex := currentCommandIndex w;
           spawned := spawned w ++ [command];
           promise := promise w;
           ticks := ticks w;
           polled := polled w;
           files := files w |}
    end.

(** the [code] of a template literal *)
Definition code_text (exitCode : option Z) : string :=
  match exitCode with
  | Some c => Number.toString (Number.ofZ c)
  | None => "null"
  end.

(** [gs.on('error', ...)] *)
Definition on_error (error : Error) (w : Walk) : Walk :=
  if has_code error "ENOENT"
  then tryCommand (next_index w)
  else settle (Rejected error) w.

(** [gs.on('close', ...)] *)
Definition on_close (exitCode : option Z) (stderr : string) (w : Walk)
  : Walk :=
  match exitCode with
  | Some 0 => settle Resolved w
  | _ =>
      if (currentCommandIndex w <? length gsCommands - 1)%nat
      then tryCommand (next_index w)
      else settle
             (Rejected
                (new_Error ("Ghostscript exited with code " +:+
                            code_text exitCode +:+ ": " +:+ stderr)))
             w
  end.

Definition wrote (writes : gmap string Directory -> gmap string Directory)
    (w : Walk) : Walk :=
  {| currentCommandIndex := currentCommandIndex w;
     spawned := spawned w;
     promise := promise w;
     ticks := ticks w;
     polled := polled w;
     files := writes (files w) |}.

Definition deliver (ev : ChildEvent) (w : Walk) : Walk :=
  match ev with
  | error_event error => on_error error w
  | close_event exitCode stderr writes =>
      on_close exitCode stderr (wrote writes w)
  end.

Definition take_tick (rest : list ChildEvent) (w : Walk) : Walk :=
  {| currentCommandIndex := currentCommandIndex w;
     spawned := spawned w;
     promise := promise w;
     ticks := rest;
     polled := polled w;
     files := files w |}.

Definition take_polled (rest : list ChildEvent) (w : Walk) : Walk :=
  {| currentCommandIndex := currentCommandIndex w;
     spawned := spawned w;
     promise := promise w;
     ticks := ticks w;
     polled := rest;
     files := files w |}.

(** The event loop: one event per step, the ones of the next tick first,
    then the ['close'] that the host lets arrive next; with [awaiting] it
    stops as soon as the promise is settled. *)
Fixpoint run (fuel : nat) (awaiting : bool) (w : Walk) : Walk :=
  match fuel with
  | O => w
  | S fuel' =>
      if awaiting && bool_decide (is_Some (promise w)) then w
      else
        match ticks w with
        | ev :: rest => run fuel' awaiting (deliver ev (take_tick rest w))
        | [] =>
            match arrival (closes_next host (spawned w) (length (polled w)))
                          (polled w) with
            | Some (ev, rest) =>
                run fuel' awaiting (deliver ev (take_polled rest w))
            | None => w
            end
        end
  end.

Definition start (d : gmap string Directory) : Walk :=
  tryCommand {| currentCommandIndex := 0;
                spawned := [];
                promise := None;
                ticks := [];
                polled := [];
                files := d |}.

(** The walk when every event of every child has been delivered, whether
    the promise was settled on the way or not: each candidate is spawned at
    most once and leaves at most two events. *)
Definition walk (d : gmap string Directory) : Walk :=
  run (2 * length gsCommands) false (start d).

(** [await this._executeGhostscript(args)]: the caller goes on when the
    promise is settled, with the disk as the children have left it by then,
    and it waits for ever ([Hung]) when no event is left and the promise is
    not settled.  The handlers stay registered: the events that are
    outstanding at the settlement are delivered afterwards, while the
    caller goes on, and [walk] is where they lead. *)
Definition _executeGhostscript : M unit := fun world =>
  let w := run (2 * length gsCommands) true (start (disk world)) in
  ({| disk := files w; console := console world |},
   match promise w with
   | Some Resolved => Returned tt
   | Some (Rejected reason) => Thrown reason
   | None => Hung
   end).

End Walking.

(** [_calculateCompressionRatio(originalBytes, compressedBytes)] *)
Definition _calculateCompressionRatio (originalBytes compressedBytes : Z)
  : spec_float :=
  if originalBytes =? 0 then Number.zero
  else
    let ratio :=
      Number.mul
        (Number.div
           (Number.sub (Number.ofZ originalBytes)
                       (Number.ofZ compressedBytes))
           (Number.ofZ originalBytes))
        (Number.ofZ 100) in
    Number.Math_max Number.zero
      (Number.div (Number.Math_round (Number.mul ratio (Number.ofZ 10)))
                  (Number.ofZ 10)).

(** [compress(inputPath, outputPath)] *)
Definition compress (inputPath outputPath : Path) : M CompressionResult :=
  try_catch
    (originalSize ← fileManager.getFileSize inputPath;
     let gsCommand :=
       _buildGhostscriptCommand (Path_toString inputPath)
                                (Path_toString outputPath) in
     _executeGhostscript gsCommand;;
     compressedSize ← fileManager.getFileSize outputPath;
     let compressionRatio :=
       _calculateCompressionRatio (fileManager.bytes originalSize)
                                  (fileManager.bytes compressedSize) in
     mret {| result_success := true;
             originalSize := fileManager.formatted originalSize;
             compressedSize := fileManager.formatted compressedSize;
             originalBytes := fileManager.bytes originalSize;
             compressedBytes := fileManager.bytes compressedSize;
             compressionRatio := compressionRatio;
             savedBytes := fileManager.bytes originalSize
                           - fileManager.bytes compressedSize;
             savedFormatted :=
               fileManager.formatBytes
                 (fileManager.bytes originalSize
                  - fileManager.bytes compressedSize) |})
    (fun error =>
       if JSString.includes (message error) "Ghostscript not found"
       then throw error
       else throw (new_Error ("Compression failed: " +:+ message error))).

(** [validateGhostscript()] *)
Definition validateGhostscript : M bool :=
  try_catch (_executeGhostscript ["--version"];; mret true)
            (fun _ => mret false).

End WithConfig.

End pdfCompressor.

(* ===================================================================== *)
(** * server.js: the handlers of the compression and of the download

    The handlers are the functions that the routes are given; what the
    middleware in front of them and the transfer behind them do is their
    input: [req.file], [req.params.filename], the outcome of the
    transfer. *)
(* ===================================================================== *)

Module server.

Inductive Response :=
| json (status : Z) (body : string)
| download (filePath : Path) (filename : string).

(** The output file name of [POST /api/compress], for the original name of
    the upload and [timestamp = Date.now()]. *)
Definition outputFilename (originalname : string) (timestamp : Z) : string :=
  let originalName := JSString.replace originalname ".pdf" "" in
  let namePrefix := JSString.substring0 8 originalName in
  "comp" +:+ namePrefix +:+ "-" +:+
  Number.toString (Number.ofZ timestamp) +:+ ".pdf".

(** [GET /api/download/:filename]; [transfer] is the [err] that
    [res.download] hands to its callback when the transfer is over
    ([None]: it went through). *)
Definition get_download (cfg : Config) (filename : string)
    (transfer : option Error) : M Response :=
  try_catch
    (let filePath := path_join (upload_compressedDir cfg) filename in
     found ← fileManager.fileExists filePath;
     if negb found then mret (json 404 "File not found")
     else
       match transfer with
       | Some err => print (console_error "Download error:" err)
       | None => fileManager.deleteFile filePath
       end;;
       mret (download filePath filename))
    (fun error =>
       print (console_error "Download error:" error);;
       mret (json 500 "Failed to download file")).

(** What [POST /api/compress] answers: the result with status 200, or an
    error with its status and, for a failed compression, its details. *)
Inductive CompressReply :=
| compressed (filename originalName : string)
             (result : pdfCompressor.CompressionResult)
| failed (status : Z) (error : string) (details : option string).

Definition install_guidance : string :=
  "Ghostscript is not installed. Please install Ghostscript to enable "
  +:+ "PDF compression. "
  +:+ "Visit: https://www.ghostscript.com/download/gsdnld.html".

(** [if (req.file) { await fileManager.deleteFile(req.file.path); }] *)
Definition delete_upload (file : option fileManager.File) : M unit :=
  match file with
  | Some f => fileManager.deleteFile (fileManager.path f)
  | None => mret tt
  end.

(** The handler of [POST /api/compress], for [req.file] as the upload
    middleware leaves it and [timestamp = Date.now()].  The middleware,
    [upload.single('pdf')] with [limits.fileSize], runs before the handler
    and refuses an upload over the limit itself, so that over HTTP a
    [req.file] over the limit does not reach the handler; the handler
    checks the size all the same and is embedded for every [req.file]. *)
Definition post_compress (cfg : Config) (host : pdfCompressor.Host)
    (file : option fileManager.File) (timestamp : Z) : M CompressReply :=
  try_catch
    (let validation := fileManager.validateFile cfg file in
     if negb (fileManager.success validation) then
       delete_upload file;;
       mret (failed 400 (fileManager.validation_message validation) None)
     else
       match file with
       | None =>
           throw (new_Error
                    "Cannot read properties of undefined (reading 'path')")
       | Some f =>
           let inputPath := fileManager.path f in
           let outputFilename :=
             outputFilename (fileManager.originalname f) timestamp in
           let outputPath :=
             path_join (upload_compressedDir cfg) outputFilename in
           result ← pdfCompressor.compress cfg host inputPath outputPath;
           fileManager.deleteFile inputPath;;
           mret (compressed outputFilename (fileManager.originalname f)
                            result)
       end)
    (fun error =>
       print (console_error "Compression error:" error);;
       delete_upload file;;
       let errorMessage :=
         if JSString.includes (message error) "Ghostscript not found"
         then install_guidance
         else "Failed to compress PDF. Please ensure the file is a valid PDF." in
       mret (failed 500 errorMessage (Some (message error)))).

End server.

(* ===================================================================== *)
(** * public/app.js: the selection of the files to upload

    The page is the part of the document these functions read and write:
    the two lists of the script, the [hidden] class of the five sections,
    the [drag-over] class of the upload zone and the text of three
    elements.  [e.preventDefault()] leaves the page as it is. *)
(* ===================================================================== *)

Module app.

(** A [File] of the browser. *)
Record BrowserFile := { name : string; type : string; size : Z }.

Record Page := {
  selectedFiles : list BrowserFile;
  uploadZone_drag_over : bool;
  uploadSection_hidden : bool;
  fileInfoSection_hidden : bool;
  processingSection_hidden : bool;
  resultSection_hidden : bool;
  errorSection_hidden : bool;
  fileName_textContent : string;
  fileSize_textContent : string;
  errorMessage_textContent : string
}.

Definition MAX_FILES : nat := 3.

(** [formatBytes(bytes)]: the text of the function of the file manager *)
Definition formatBytes (bytes : Z) : string :=
  if bytes =? 0 then "0 Bytes"
  else
    let i := fileManager.floor_log1024 bytes in
    Number.toString
      (Number.div
         (Number.Math_round
            (Number.mul
               (Number.div (Number.ofZ bytes) (fileManager.pow1024 i))
               (Number.ofZ 100)))
         (Number.ofZ 100))
    +:+ " " +:+ fileManager.unit_name i.

(** the [hidden] class of the five sections *)
Definition set_hidden (upload fileInfo processing result error : bool)
    (p : Page) : Page :=
  {| selectedFiles := selectedFiles p;
     uploadZone_drag_over := uploadZone_drag_over p;
     uploadSection_hidden := upload;
     fileInfoSection_hidden := fileInfo;
     processingSection_hidden := processing;
     resultSection_hidden := result;
     errorSection_hidden := error;
     fileName_textContent := fileName_textContent p;
     fileSize_textContent := fileSize_textContent p;
     errorMessage_textContent := errorMessage_textContent p |}.

(** [showSection(section)]: every section is hidden, then the one that is
    named, if any, is shown. *)
Definition showSection (section : string) (p : Page) : Page :=
  let p := set_hidden true true true true true p in
  if String.eqb section "upload" then
    set_hidden false (fileInfoSection_hidden p) (processingSection_hidden p)
               (resultSection_hidden p) (errorSection_hidden p) p
  else if String.eqb section "file-info" then
    set_hidden (uploadSection_hidden p) false (processingSection_hidden p)
               (resultSection_hidden p) (errorSection_hidden p) p
  else if String.eqb section "processing" then
    set_hidden (uploadSection_hidden p) (fileInfoSection_hidden p) false
               (resultSection_hidden p) (errorSection_hidden p) p
  else if String.eqb section "result" then
    set_hidden (uploadSection_hidden p) (fileInfoSection_hidden p)
               (processingSection_hidden p) false (errorSection_hidden p) p
  else if String.eqb section "error" then
    set_hidden (uploadSection_hidden p) (fileInfoSection_hidden p)
               (processingSection_hidden p) (resultSection_hidden p) false p
  else p.

(** [showError(message)] *)
Definition showError (message : string) (p : Page) : Page :=
  showSection "error"
    {| selectedFiles := selectedFiles p;
       uploadZone_drag_over := uploadZone_drag_over p;
       uploadSection_hidden := uploadSection_hidden p;
       fileInfoSection_hidden := fileInfoSection_hidden p;
       processingSection_hidden := processingSection_hidden p;
       resultSection_hidden := resultSection_hidden p;
       errorSection_hidden := errorSection_hidden p;
       fileName_textContent := fileName_textContent p;
       fileSize_textContent := fileSize_textContent p;
       errorMessage_textContent := message |}.

Definition maxSize : Z := 250 * 1024 * 1024.

(** the double quote of a template literal *)
Definition quote : string := String (ascii_of_nat 34) "".

(** The validation loop of [processFiles]: the message of the first file
    that is refused, or the files, all valid. *)
Fixpoint validate (files validFiles : list BrowserFile)
  : string + list BrowserFile :=
  match files with
  | [] => inr validFiles
  | file :: rest =>
      if negb (String.eqb (type file) "application/pdf")
      then inl "Only PDF files are allowed"
      else if maxSize <? size file
      then inl ("File " +:+ quote +:+ name file +:+ quote +:+
                " exceeds 250 MB limit")
      else validate rest (validFiles ++ [file])
  end.

(** [validFiles.reduce((sum, f) => sum + f.size, 0)]; the sum of byte
    counts is exact below 2^53 *)
Definition totalSize (validFiles : list BrowserFile) : Z :=
  fold_left (fun sum f => sum + size f) validFiles 0.

(** [processFiles(files)] *)
Definition processFiles (files : list BrowserFile) (p : Page) : Page :=
  match validate files [] with
  | inl message => showError message p
  | inr validFiles =>
      if (length validFiles =? 0)%nat then p
      else
        let '(title, total) :=
          match validFiles with
          | [file] => (name file, formatBytes (size file))
          | _ =>
              (Number.toString (Number.ofZ (Z.of_nat (length validFiles)))
               +:+ " PDF files selected",
               formatBytes (totalSize validFiles))
          end in
        showSection "file-info"
          {| selectedFiles := validFiles;
             uploadZone_drag_over := uploadZone_drag_over p;
             uploadSection_hidden := uploadSection_hidden p;
             fileInfoSection_hidden := fileInfoSection_hidden p;
             processingSection_hidden := processingSection_hidden p;
             resultSection_hidden := resultSection_hidden p;
             errorSection_hidden := errorSection_hidden p;
             fileName_textContent := title;
             fileSize_textContent := total;
             errorMessage_textContent := errorMessage_textContent p |}
  end.

(** [handleFileSelect(e)], for [e.target.files] *)
Definition handleFileSelect (target_files : list BrowserFile) (p : Page)
  : Page :=
  let files := firstn MAX_FILES target_files in
  if (0 <? length files)%nat then processFiles files p else p.

Definition set_drag_over (b : bool) (p : Page) : Page :=
  {| selectedFiles := selectedFiles p;
     uploadZone_drag_over := b;
     uploadSection_hidden := uploadSection_hidden p;
     fileInfoSection_hidden := fileInfoSection_hidden p;
     processingSection_hidden := processingSection_hidden p;
     resultSection_hidden := resultSection_hidden p;
     errorSection_hidden := errorSection_hidden p;
     fileName_textContent := fileName_textContent p;
     fileSize_textContent := fileSize_textContent p;
     errorMessage_textContent := errorMessage_textContent p |}.

(** [handleDragOver(e)] *)
Definition handleDragOver (p : Page) : Page := set_drag_over true p.

(** [handleDragLeave(e)] *)
Definition handleDragLeave (p : Page) : Page := set_drag_over false p.

(** [handleDrop(e)], for [e.dataTransfer.files] *)
Definition handleDrop (dropped : list BrowserFile) (p : Page) : Page :=
  let p := set_drag_over false p in
  let files :=
    firstn MAX_FILES
      (List.filter (fun f => String.eqb (type f) "application/pdf")
                   dropped) in
  if (0 <? length files)%nat then processFiles files p else p.

End app.

(* ===================================================================== *)
(** * The specification's own formulas, from its words

    They are not used by the embedding above; the properties below compare
    the code with them. *)
(* ===================================================================== *)

Module spec.

(** "max(0, round(((original - compressed) / original) * 1000) / 10)",
    evaluated as the JavaScript expression it spells. *)
Definition ratio_formula (original compressed : Z) : spec_float :=
  Number.Math_max Number.zero
    (Number.div
       (Number.Math_round
          (Number.mul
             (Number.div
                (Number.sub (Number.ofZ original) (Number.ofZ compressed))
                (Number.ofZ original))
             (Number.ofZ 1000)))
       (Number.ofZ 10)).

(** The same formula in exact arithmetic, for [0 < original]: the number of
    tenths of a percent, [max(0, round(x))] with
    [x = (original - compressed) * 1000 / original] and
    [round(x) = floor(x + 1/2)]. *)
Definition ratio_tenths (original compressed : Z) : Z :=
  Z.max 0 ((2 * ((original - compressed) * 1000) + original) / (2 * original)).

(** "the original filename with its extension stripped": the name up to its
    last dot, the whole name when it has none. *)
Fixpoint strip_extension (name : string) : string :=
  match name with
  | EmptyString => EmptyString
  | String c rest =>
      if Ascii.eqb c "." && negb (JSString.includes rest ".")
      then EmptyString
      else String c (strip_extension rest)
  end.

(** "comp + first 8 characters of the original name (extension stripped) +
    - + millisecond timestamp + .pdf" *)
Definition outputFilename (originalname : string) (timestamp : Z) : string :=
  "comp" +:+ JSString.substring0 8 (strip_extension originalname) +:+ "-" +:+
  Number.toString (Number.ofZ timestamp) +:+ ".pdf".

(** "Attempt candidates strictly in order": one candidate at a time, each
    with one outcome; the candidates attempted, and the result ("no
    cancellation or timeout is implemented for a hung external process":
    there is none, [None], when a candidate starts and never exits). *)
Fixpoint sequential_walk (spawn : string -> pdfCompressor.SpawnOutcome)
    (candidates : list string)
  : list string * option pdfCompressor.Settlement :=
  match candidates with
  | [] => ([], Some (pdfCompressor.Rejected pdfCompressor.not_found))
  | command :: rest =>
      match spawn command with
      | pdfCompressor.SpawnFailed error _ =>
          if has_code error "ENOENT"
          then let '(tried, r) := sequential_walk spawn rest in
               (command :: tried, r)
          else ([command], Some (pdfCompressor.Rejected error))
      | pdfCompressor.Started (Some 0) _ _ =>
          ([command], Some pdfCompressor.Resolved)
      | pdfCompressor.Started exitCode stderr _ =>
          match rest with
          | [] =>
              ([command],
               Some (pdfCompressor.Rejected
                       (new_Error ("Ghostscript exited with code " +:+
                                   pdfCompressor.code_text exitCode +:+ ": " +:+
                                   stderr))))
          | _ => let '(tried, r) := sequential_walk spawn rest in
                 (command :: tried, r)
          end
      | pdfCompressor.NeverExits => ([command], None)
      end
  end.

End spec.

(** ** Conditions the properties are stated under *)

(** No entry of the directory makes [stat] or [unlink] fail. *)
Definition fault_free (d : Directory) : Prop :=
  map_Forall (fun _ f => stat_fault f = None ∧ unlink_fault f = None)
             (entries d).

(** A directory a sweep meets no error in. *)
Definition healthy (d : Directory) : Prop :=
  readdir_fault d = None ∧ fault_free d.

(** A directory with no fault in it, or no directory at that path. *)
Definition sound (w : World) (directory : string) : Prop :=
  match disk w !! directory with
  | Some d => healthy d
  | None => True
  end.

(** The age of the entry strictly exceeds the configured maximum. *)
Definition expired_inode (cfg : Config) (now : Qc) (f : Inode) : Prop :=
  (Qc_of_Z (cleanup_maxFileAge cfg) < now - mtimeMs f)%Qc.

(** No operation of a pass over the directory at the time [now] fails:
    [readdir] lists it, [stat] succeeds on every entry and [unlink] on
    every expired one, the only ones it is called on. *)
Definition unhindered (cfg : Config) (now : Qc) (d : Directory) : Prop :=
  readdir_fault d = None
  ∧ map_Forall (fun _ f => stat_fault f = None
                           ∧ (expired_inode cfg now f -> unlink_fault f = None))
               (entries d).

(** A sweep at the time [now] meets no error in the directory: no operation
    of the pass fails, or there is no directory at that path. *)
Definition passable (cfg : Config) (now : Qc) (w : World)
    (directory : string) : Prop :=
  match disk w !! directory with
  | Some d => unhindered cfg now d
  | None => True
  end.

#[global] Instance healthy_dec (d : Directory) : Decision (healthy d).
Proof. unfold healthy, fault_free. apply _. Defined.

#[global] Instance sound_dec (w : World) (directory : string) :
  Decision (sound w directory).
Proof. unfold sound. destruct (disk w !! directory); apply _. Defined.

#[global] Instance unhindered_dec (cfg : Config) (now : Qc) (d : Directory) :
  Decision (unhindered cfg now d).
Proof. unfold unhindered, expired_inode. apply _. Defined.

#[global] Instance passable_dec (cfg : Config) (now : Qc) (w : World)
    (directory : string) : Decision (passable cfg now w directory).
Proof. unfold passable. destruct (disk w !! directory); apply _. Defined.

(** The inode a path leads to. *)
Definition inode (p : Path) (w : World) : option Inode :=
  snd <$> fs.lookup p w.

(** What a sweep may do to the disk: directories stay, an entry that is
    still there is unchanged, an entry that is gone was [old]. *)
Definition sweeps (old : Inode -> Prop) (w w' : World) : Prop :=
  forall directory,
    match disk w !! directory, disk w' !! directory with
    | Some d, Some d' =>
        readdir_fault d' = readdir_fault d
        ∧ forall name,
            match entries d' !! name with
            | Some f' => entries d !! name = Some f'
            | None => forall f, entries d !! name = Some f -> old f
            end
    | None, None => True
    | _, _ => False
    end.

(** The number of entries of a directory of the disk, as [readdir] lists
    them (0 when the directory is absent). *)
Definition entry_count (w : World) (directory : string) : nat :=
  match disk w !! directory with
  | Some d => length (map_to_list (entries d))
  | None => 0%nat
  end.

(** No entry of the directory is expired. *)
Definition fresh (cfg : Config) (now : Qc) (w : World) (directory : string)
  : Prop :=
  forall d name f,
    disk w !! directory = Some d -> entries d !! name = Some f ->
    ~ expired_inode cfg now f.

(** [formatBytes] prints [q] units of rank [i] as the numeral of [q] and
    the name of the unit. *)
Definition prints_whole_units (q i : Z) : bool :=
  String.eqb (fileManager.formatBytes (q * 1024 ^ i))
             (Number.digits (Z.to_pos q) +:+ " " +:+
              fileManager.unit_name (Some i)).

(** A file the page accepts: a PDF within the limit. *)
Definition acceptable (f : app.BrowserFile) : bool :=
  String.eqb (app.type f) "application/pdf" && (app.size f <=? app.maxSize).

(** The sections of the page that are not hidden. *)
Definition shown (p : app.Page) : list string :=
  (if app.uploadSection_hidden p then [] else ["upload"])
  ++ (if app.fileInfoSection_hidden p then [] else ["file-info"])
  ++ (if app.processingSection_hidden p then [] else ["processing"])
  ++ (if app.resultSection_hidden p then [] else ["result"])
  ++ (if app.errorSection_hidden p then [] else ["error"]).

(** What the upload middleware makes of a file of the browser, stored
    under [upload]. *)
Definition uploaded (f : app.BrowserFile) (upload : Path) : fileManager.File :=
  {| fileManager.path := upload;
     fileManager.mimetype := app.type f;
     fileManager.file_size := app.size f;
     fileManager.originalname := app.name f |}.

(** ** Sample inputs *)

Definition plain_file (bytes : Z) (mtime : Z) : Inode :=
  {| size := bytes; mtimeMs := Qc_of_Z mtime;
     stat_fault := None; unlink_fault := None |}.

(** An entry that is a directory: [unlink] refuses it. *)
Definition subdirectory (mtime : Z) : Inode :=
  {| size := 4096; mtimeMs := Qc_of_Z mtime;
     stat_fault := None;
     unlink_fault :=
       Some {| code := Some "EISDIR";
               message := "EISDIR: illegal operation on a directory, unlink" |} |}.

Definition folder (files : gmap string Inode) : Directory :=
  {| readdir_fault := None; entries := files |}.

(** [Date.now()] of the samples; with the configured hour, an entry is
    expired when it was modified before 1699996400000. *)
Definition sample_now : Z := 1700000000000.

Definition sample_world : World :=
  {| disk :=
       {[ "uploads" :=
            folder {[ "upload-1.pdf" := plain_file 1000 1699996399000;
                      "upload-2.pdf" := plain_file 1000 1699996400001 ]};
          "compressed" :=
            folder {[ "compa-1.pdf" := plain_file 400 1699990000000 ]} ]};
     console := [] |}.

(** The same with an old subdirectory in the upload directory. *)
Definition world_with_subdirectory : World :=
  {| disk :=
       {[ "uploads" :=
            folder {[ "old" := subdirectory 1699990000000;
                      "upload-1.pdf" := plain_file 1000 1699996399000 ]};
          "compressed" :=
            folder {[ "compa-1.pdf" := plain_file 400 1699990000000 ]} ]};
     console := [] |}.


(** An entry that [readdir] lists and that [stat] does not find: a link
    whose target is gone (a file that another request deletes between the
    listing and the [stat] fails the same way). *)
Definition dangling_link (target : string) (mtime : Z) : Inode :=
  {| size := 0; mtimeMs := Qc_of_Z mtime;
     stat_fault := Some (fs.ENOENT "stat" target);
     unlink_fault := None |}.

(** An upload directory, which is there, with a dangling link as its only
    entry, and the output directory of the sample world. *)
Definition world_with_dangling_link : World :=
  {| disk :=
       {[ "uploads" :=
            folder {[ "latest.pdf" :=
                        dangling_link "uploads/latest.pdf" 1699990000000 ]};
          "compressed" :=
            folder {[ "compa-1.pdf" := plain_file 400 1699990000000 ]} ]};
     console := [] |}.


Definition big_pdf : fileManager.File :=
  {| fileManager.path := path_join "uploads" "upload-1.pdf";
     fileManager.mimetype := "application/pdf";
     fileManager.file_size := 300 * 1024 * 1024;
     fileManager.originalname := "big.pdf" |}.

Definition big_png : fileManager.File :=
  {| fileManager.path := path_join "uploads" "upload-2.pdf";
     fileManager.mimetype := "image/png";
     fileManager.file_size := 300 * 1024 * 1024;
     fileManager.originalname := "big.png" |}.

Definition spawn_ENOENT (command : string) : Error :=
  {| code := Some "ENOENT"; message := "spawn " +:+ command +:+ " ENOENT" |}.

(** A Linux host with Ghostscript installed as [gs], and none of the other
    candidates. *)
Definition linux_with_gs : pdfCompressor.Host :=
  {| pdfCompressor.platform := "linux";
     pdfCompressor.env_ProgramFiles := None;
     pdfCompressor.env_ProgramFiles_x86 := None;
     pdfCompressor.existsSync := fun _ => false;
     pdfCompressor.readdirSync := fun _ => None;
     pdfCompressor.closes_next := fun _ _ => 0%nat;
     pdfCompressor.spawn := fun command _ =>
       if String.eqb command "gs"
       then pdfCompressor.Started (Some 0) "" id
       else pdfCompressor.SpawnFailed (spawn_ENOENT command) (-2) |}.

(** A Linux host without Ghostscript. *)
Definition linux_without_gs : pdfCompressor.Host :=
  {| pdfCompressor.platform := "linux";
     pdfCompressor.env_ProgramFiles := None;
     pdfCompressor.env_ProgramFiles_x86 := None;
     pdfCompressor.existsSync := fun _ => false;
     pdfCompressor.readdirSync := fun _ => None;
     pdfCompressor.closes_next := fun _ _ => 0%nat;
     pdfCompressor.spawn := fun command _ =>
       pdfCompressor.SpawnFailed (spawn_ENOENT command) (-2) |}.

(** What a run of Ghostscript leaves: the output file, of the given size. *)
Definition write_output (name : string) (bytes : Z)
    (d : gmap string Directory) : gmap string Directory :=
  match d !! "compressed" with
  | Some dir =>
      <["compressed" :=
          {| readdir_fault := readdir_fault dir;
             entries := <[name := plain_file bytes sample_now]> (entries dir) |}]> d
  | None => d
  end.

(** A host where the configured executable runs, and writes an output of
    1500 bytes. *)
Definition host_with_configured_gs : pdfCompressor.Host :=
  {| pdfCompressor.platform := "win32";
     pdfCompressor.env_ProgramFiles := Some "C:\Program Files";
     pdfCompressor.env_ProgramFiles_x86 := Some "C:\Program Files (x86)";
     pdfCompressor.existsSync := fun _ => false;
     pdfCompressor.readdirSync := fun _ => None;
     pdfCompressor.closes_next := fun _ _ => 0%nat;
     pdfCompressor.spawn := fun command _ =>
       if String.eqb command
            "D:\ghostscriptforpdftool\gs10.06.0\bin\gswin64c.exe"
       then pdfCompressor.Started (Some 0) ""
              (write_output "compupload-1-1700000000000.pdf" 1500)
       else pdfCompressor.SpawnFailed (spawn_ENOENT command) (-4058) |}.

(** A host where every candidate can be spawned: the configured executable
    is stale and exits with 1, [gs] works. *)
Definition host_all_start : pdfCompressor.Host :=
  {| pdfCompressor.platform := "linux";
     pdfCompressor.env_ProgramFiles := None;
     pdfCompressor.env_ProgramFiles_x86 := None;
     pdfCompressor.existsSync := fun _ => false;
     pdfCompressor.readdirSync := fun _ => None;
     pdfCompressor.closes_next := fun _ _ => 0%nat;
     pdfCompressor.spawn := fun command _ =>
       if String.eqb command "gs"
       then pdfCompressor.Started (Some 0) "" id
       else pdfCompressor.Started (Some 1) "stale" id |}.

(** A host where the configured executable starts and never exits. *)
Definition host_with_hanging_gs : pdfCompressor.Host :=
  {| pdfCompressor.platform := "win32";
     pdfCompressor.env_ProgramFiles := Some "C:\Program Files";
     pdfCompressor.env_ProgramFiles_x86 := Some "C:\Program Files (x86)";
     pdfCompressor.existsSync := fun _ => false;
     pdfCompressor.readdirSync := fun _ => None;
     pdfCompressor.closes_next := fun _ _ => 0%nat;
     pdfCompressor.spawn := fun command _ =>
       if String.eqb command
            "D:\ghostscriptforpdftool\gs10.06.0\bin\gswin64c.exe"
       then pdfCompressor.NeverExits
       else pdfCompressor.SpawnFailed (spawn_ENOENT command) (-4058) |}.

(** A host where the configured executable is there and may not be
    executed. *)
Definition host_permission_denied : pdfCompressor.Host :=
  {| pdfCompressor.platform := "linux";
     pdfCompressor.env_ProgramFiles := None;
     pdfCompressor.env_ProgramFiles_x86 := None;
     pdfCompressor.existsSync := fun _ => false;
     pdfCompressor.readdirSync := fun _ => None;
     pdfCompressor.closes_next := fun _ _ => 0%nat;
     pdfCompressor.spawn := fun command _ =>
       if String.eqb command
            "D:\ghostscriptforpdftool\gs10.06.0\bin\gswin64c.exe"
       then pdfCompressor.SpawnFailed
              {| code := Some "EACCES";
                 message := "spawn " +:+ command +:+ " EACCES" |} (-13)
       else pdfCompressor.SpawnFailed (spawn_ENOENT command) (-2) |}.

(** The upload of the sample world, as the middleware hands it over. *)
Definition small_pdf : fileManager.File :=
  {| fileManager.path := path_join "uploads" "upload-1.pdf";
     fileManager.mimetype := "application/pdf";
     fileManager.file_size := 1000;
     fileManager.originalname := "upload-1.pdf" |}.

(** The configuration with the path of the executable left to be detected
    ([ghostscriptPath: null]). *)
Definition config_auto_detect : Config :=
  {| upload_maxFileSize := upload_maxFileSize config;
     upload_allowedMimeTypes := upload_allowedMimeTypes config;
     upload_uploadDir := upload_uploadDir config;
     upload_compressedDir := upload_compressedDir config;
     cleanup_maxFileAge := cleanup_maxFileAge config;
     cleanup_cleanupInterval := cleanup_cleanupInterval config;
     compression_ghostscriptPath := None;
     compression_defaultQuality := compression_defaultQuality config;
     compression_options := compression_options config |}.

(** An upload of 5,000,000 bytes, and the world it is stored in. *)
Definition report_upload : fileManager.File :=
  {| fileManager.path := path_join "uploads" "upload-7.pdf";
     fileManager.mimetype := "application/pdf";
     fileManager.file_size := 5000000;
     fileManager.originalname := "report.pdf" |}.

Definition world_with_report : World :=
  {| disk :=
       {[ "uploads" :=
            folder {[ "upload-7.pdf" := plain_file 5000000 1699999999000 ]};
          "compressed" := folder ∅ ]};
     console := [] |}.

(** A host where the configured executable runs and writes an output of
    1,800,000 bytes. *)
Definition host_compressing_report : pdfCompressor.Host :=
  {| pdfCompressor.platform := "win32";
     pdfCompressor.env_ProgramFiles := Some "C:\Program Files";
     pdfCompressor.env_ProgramFiles_x86 := Some "C:\Program Files (x86)";
     pdfCompressor.existsSync := fun _ => false;
     pdfCompressor.readdirSync := fun _ => None;
     pdfCompressor.closes_next := fun _ _ => 0%nat;
     pdfCompressor.spawn := fun command _ =>
       if String.eqb command
            "D:\ghostscriptforpdftool\gs10.06.0\bin\gswin64c.exe"
       then pdfCompressor.Started (Some 0) ""
              (write_output "compreport-1700000000000.pdf" 1800000)
       else pdfCompressor.SpawnFailed (spawn_ENOENT command) (-4058) |}.

(** The page before anything is selected. *)
Definition initial_page : app.Page :=
  {| app.selectedFiles := [];
     app.uploadZone_drag_over := false;
     app.uploadSection_hidden := false;
     app.fileInfoSection_hidden := true;
     app.processingSection_hidden := true;
     app.resultSection_hidden := true;
     app.errorSection_hidden := true;
     app.fileName_textContent := "";
     app.fileSize_textContent := "";
     app.errorMessage_textContent := "" |}.

Definition report_pdf : app.BrowserFile :=
  {| app.name := "report.pdf"; app.type := "application/pdf";
     app.size := 5000000 |}.

Definition photo_png : app.BrowserFile :=
  {| app.name := "photo.png"; app.type := "image/png"; app.size := 1536 |}.

(** ** Measures of the event loop *)

(** Twice the number of candidates not yet reached, plus the events that
    wait: it bounds the events still to be delivered. *)
Definition walk_measure (cfg : Config) (host : pdfCompressor.Host)
    (w : pdfCompressor.Walk) : nat :=
  (2 * (length (pdfCompressor.gsCommands cfg host)
        - S (pdfCompressor.currentCommandIndex w))
   + length (pdfCompressor.ticks w) + length (pdfCompressor.polled w))%nat.

(** An unsettled promise has an event to wait for. *)
Definition walk_live (w : pdfCompressor.Walk) : Prop :=
  pdfCompressor.promise w = None ->
  pdfCompressor.ticks w <> [] \/ pdfCompressor.polled w <> [].

(** The event comes with nothing written: it is not the ['close'] of a
    child that ran. *)
Definition writes_nothing (ev : pdfCompressor.ChildEvent) : Prop :=
  match ev with
  | pdfCompressor.close_event _ _ writes => writes = id
  | pdfCompressor.error_event _ => True
  end.

(** Every child that starts exits, and emits its ['close']. *)
Definition all_exit (cfg : Config) (host : pdfCompressor.Host)
    (args : list string) : Prop :=
  forall command,
    In command (pdfCompressor.gsCommands cfg host) ->
    pdfCompressor.spawn host command args <> pdfCompressor.NeverExits.

(* ===================================================================== *)
(** * Properties *)
(* ===================================================================== *)

(** ** The argument list *)

Lemma fold_unshift {A B} (f : list A -> B -> list A) (g : B -> A) :
  (forall args entry, f args entry = g entry :: args) ->
  forall (l : list B) (acc : list A),
    fold_left f l acc = rev (map g l) ++ acc.
Proof.
  intros Hf l. induction l as [|x l IH]; intros acc; simpl.
  - reflexivity.
  - rewrite IH, Hf, <- app_assoc. reflexivity.
Qed.

(** C9. In the argument list every boolean option is the bare switch [-key]
    whatever its value, every other option is [-key=value], none is left
    out, and the option flags (the last configured one first) come before
    the fixed tail [-sDEVICE=pdfwrite], [-dPDFSETTINGS=<quality>],
    [-sOutputFile=<outputPath>], [inputPath]. *)
Theorem buildGhostscriptCommand_layout (cfg : Config) (inputPath outputPath : string) :
  pdfCompressor._buildGhostscriptCommand cfg inputPath outputPath =
    rev (map (fun entry : string * OptionValue =>
                match entry with
                | (key, Boolean _) => "-" +:+ key
                | (key, Text value) => "-" +:+ key +:+ "=" +:+ value
                end)
             (compression_options cfg))
    ++ [ "-sDEVICE=pdfwrite";
         "-dPDFSETTINGS=" +:+ compression_defaultQuality cfg;
         "-sOutputFile=" +:+ outputPath;
         inputPath ]
  ∧ length (pdfCompressor._buildGhostscriptCommand cfg inputPath outputPath)
    = (length (compression_options cfg) + 4)%nat.
Proof.
  unfold pdfCompressor._buildGhostscriptCommand.
  rewrite fold_unshift with
    (g := fun entry : string * OptionValue =>
            match entry with
            | (key, Boolean _) => "-" +:+ key
            | (key, Text value) => "-" +:+ key +:+ "=" +:+ value
            end).
  - split; [reflexivity|].
    rewrite length_app, length_rev, length_map. reflexivity.
  - intros args [key [b|value]]; reflexivity.
Qed.

(** ** The compression ratio *)

Lemma Math_max_zero_not_negative (y : spec_float) :
  Number.ltb (Number.Math_max Number.zero y) Number.zero = false.
Proof. destruct y as [[|]|[|]| |[|] m e]; reflexivity. Qed.

Lemma calculateCompressionRatio_not_negative (o c : Z) :
  Number.ltb (pdfCompressor._calculateCompressionRatio o c) Number.zero = false.
Proof.
  unfold pdfCompressor._calculateCompressionRatio.
  destruct (o =? 0); [reflexivity | apply Math_max_zero_not_negative].
Qed.

(** *** binary64 facts behind it *)

Section Binary64.

Import Number.

Lemma iter_pos_invariant {A} (P : A -> Prop) (f : A -> A) :
  (forall x, P x -> P (f x)) ->
  forall (p : positive) (x : A), P x -> P (SpecFloat.iter_pos f p x).
Proof.
  intros Hf. induction p as [p IH|p IH|]; intros x Hx; cbn [SpecFloat.iter_pos].
  - apply IH, IH, Hf, Hx.
  - apply IH, IH, Hx.
  - apply Hf, Hx.
Qed.

Lemma shr_1_nonneg (mrs : shr_record) :
  0 <= shr_m mrs -> 0 <= shr_m (shr_1 mrs).
Proof.
  destruct mrs as [m r s]. cbn [shr_m].
  destruct m as [|[p|p|]|[p|p|]]; cbn; lia.
Qed.

Lemma shr_fexp_nonneg (m e : Z) (l : location) :
  0 <= m -> 0 <= shr_m (fst (shr_fexp prec emax m e l)).
Proof.
  intros Hm. unfold shr_fexp, shr.
  assert (H0 : 0 <= shr_m (shr_record_of_loc m l))
    by (destruct l as [|[| |]]; exact Hm).
  destruct (fexp prec emax (Zdigits2 m + e) - e) as [|p|p]; cbn [fst];
    try exact H0.
  apply (iter_pos_invariant (fun mrs => 0 <= shr_m mrs)); [|exact H0].
  exact shr_1_nonneg.
Qed.

Lemma round_nearest_even_nonneg (mx : Z) (lx : location) :
  0 <= mx -> 0 <= round_nearest_even mx lx.
Proof.
  intros H. destruct lx as [|[| |]]; cbn; try destruct (Z.even mx); lia.
Qed.

(** Rounding a non-negative mantissa never gives NaN. *)
Lemma binary_round_aux_not_nan (sx : bool) (mx ex : Z) (lx : location) :
  0 <= mx -> binary_round_aux prec emax sx mx ex lx <> S754_nan.
Proof.
  intros Hm. unfold binary_round_aux.
  pose proof (shr_fexp_nonneg mx ex lx Hm) as H1.
  destruct (shr_fexp prec emax mx ex lx) as [mrs' e']. cbn [fst] in H1.
  pose proof (shr_fexp_nonneg _ e' loc_Exact
                (round_nearest_even_nonneg _ (loc_of_shr_record mrs') H1)) as H2.
  destruct (shr_fexp prec emax (round_nearest_even _ _) e' loc_Exact)
    as [mrs'' e'']. cbn [fst] in H2.
  destruct (shr_m mrs'') as [|p|p]; [discriminate| |lia].
  destruct (e'' <=? emax - prec); discriminate.
Qed.

Lemma ofZ_not_nan (z : Z) : ofZ z <> S754_nan.
Proof.
  unfold ofZ, binary_normalize, binary_round.
  destruct z as [|p|p]; [discriminate| |];
    destruct (shl_align _ _ _) as [mz ez];
    apply binary_round_aux_not_nan; lia.
Qed.

Lemma digits2_pos_size (p : positive) : digits2_pos p = Pos.size p.
Proof. induction p as [p IH|p IH|]; cbn; rewrite ?IH; reflexivity. Qed.

Lemma digits2_pos_shift (m k : positive) :
  digits2_pos (Pos.iter xO m k) = (digits2_pos m + k)%positive.
Proof.
  induction k as [|k IH] using Pos.peano_ind.
  - cbn. lia.
  - rewrite Pos.iter_succ. cbn [digits2_pos]. rewrite IH. lia.
Qed.

Lemma digits2_pos_bound (m : positive) :
  Z.pos m < 2 ^ 53 -> Z.pos (digits2_pos m) <= 53.
Proof.
  intros H. rewrite digits2_pos_size.
  pose proof (Pos.size_le m) as Hs.
  apply Pos2Z.pos_le_pos in Hs.
  rewrite Pos2Z.inj_pow in Hs.
  change (Z.pos m~0) with (2 * Z.pos m) in Hs.
  destruct (Z_le_gt_dec (Z.pos (Pos.size m)) 53) as [|Hgt]; [assumption|exfalso].
  assert (H54 : 2 ^ 54 <= 2 ^ Z.pos (Pos.size m))
    by (apply Z.pow_le_mono_r; lia).
  change (2 ^ 54) with (2 * 2 ^ 53) in H54. lia.
Qed.

Lemma sub_not_nan (m : positive) (e : Z) (y : spec_float) :
  is_nan y = false -> is_nan (sub (S754_finite false m e) y) = false.
Proof.
  destruct y as [s|s| |s m' e']; try reflexivity; try discriminate.
  intros _. unfold sub, SFsub.
  destruct (binary_normalize _ _ _ _ _) eqn:E; try reflexivity.
  exfalso. revert E. unfold binary_normalize, binary_round.
  destruct (_ - _) as [|q|q]; [discriminate| |];
    destruct (shl_align _ _ _) as [mz ez];
    apply binary_round_aux_not_nan; lia.
Qed.

Lemma div_not_nan (x : spec_float) (m : positive) (e : Z) :
  is_nan x = false -> is_nan (div x (S754_finite false m e)) = false.
Proof.
  destruct x as [s|s| |s m' e']; try reflexivity; try discriminate.
  intros _. unfold div, SFdiv.
  destruct (SFdiv_core_binary prec emax (Z.pos m') e' (Z.pos m) e)
    as [[mz ez] lz] eqn:E.
  assert (Hq : 0 <= mz).
  { revert E. unfold SFdiv_core_binary.
    set (s' := e' - e - _).
    set (m1 := match s' with Z.pos _ => Z.shiftl (Z.pos m') s' | 0 => Z.pos m' | Z.neg _ => 0 end).
    assert (H1 : 0 <= m1).
    { subst m1. destruct s'; try lia. apply Z.shiftl_nonneg. lia. }
    pose proof (Z.div_eucl_eq m1 (Z.pos m) ltac:(lia)) as Hdiv.
    pose proof (Z.mod_pos_bound m1 (Z.pos m) ltac:(lia)) as Hmod.
    unfold Z.modulo in Hmod.
    destruct (Z.div_eucl m1 (Z.pos m)) as [q r].
    intros [= <- _ _]. nia. }
  destruct (binary_round_aux _ _ _ _ _ _) eqn:E'; try reflexivity.
  exfalso. exact (binary_round_aux_not_nan _ _ _ _ Hq E').
Qed.

Lemma mul_not_nan (x : spec_float) (m : positive) (e : Z) :
  is_nan x = false -> is_nan (mul x (S754_finite false m e)) = false.
Proof.
  destruct x as [s|s| |s m' e']; try reflexivity; try discriminate.
  intros _. unfold mul, SFmul.
  destruct (binary_round_aux _ _ _ _ _ _) eqn:E'; try reflexivity.
  exfalso. exact (binary_round_aux_not_nan _ (Z.pos (m' * m)) _ _ ltac:(lia) E').
Qed.

Lemma Math_round_not_nan (x : spec_float) :
  is_nan x = false -> is_nan (Math_round x) = false.
Proof.
  destruct x as [s|s| |s m e]; try reflexivity; try discriminate.
  intros _. unfold Math_round.
  destruct (0 <=? e); [reflexivity|].
  destruct (_ =? 0); [reflexivity|].
  destruct (ofZ _) eqn:E; try reflexivity.
  exfalso. exact (ofZ_not_nan _ E).
Qed.

Lemma Math_max_zero_nonneg (y : spec_float) :
  is_nan y = false -> leb zero (Math_max zero y) = true.
Proof. destruct y as [[|]|[|]| |[|] m e]; try reflexivity; discriminate. Qed.

Lemma binary_round_aux_signed (sx : bool) (mx ex : Z) (lx : location) :
  0 <= mx -> signed sx (binary_round_aux prec emax sx mx ex lx).
Proof.
  intros Hm. pose proof (binary_round_aux_not_nan sx mx ex lx Hm) as Hn.
  revert Hn. unfold binary_round_aux.
  destruct (shr_fexp prec emax mx ex lx) as [mrs' e'].
  destruct (shr_fexp prec emax (round_nearest_even _ _) e' loc_Exact)
    as [mrs'' e''].
  destruct (shr_m mrs'') as [|p|p]; [reflexivity| |intros H; congruence].
  destruct (e'' <=? emax - prec); reflexivity.
Qed.

Lemma binary_round_signed (sx : bool) (m : positive) (e : Z) :
  signed sx (binary_round prec emax sx m e).
Proof.
  unfold binary_round. destruct (shl_align _ _ _) as [mz ez].
  apply binary_round_aux_signed. lia.
Qed.

Lemma iter_xO_value (m k : positive) :
  Z.pos (Pos.iter xO m k) = Z.pos m * 2 ^ Z.pos k.
Proof.
  induction k as [|k IH] using Pos.peano_ind.
  - cbn. lia.
  - rewrite Pos.iter_succ, Pos2Z.inj_xO, IH, Pos2Z.inj_succ, Z.pow_succ_r by lia.
    lia.
Qed.

Lemma shl_align_value (m : positive) (e ez : Z) :
  ez <= e -> Z.pos (fst (shl_align m e ez)) = Z.pos m * 2 ^ (e - ez).
Proof.
  intros H. unfold shl_align. destruct (ez - e) as [|k|k] eqn:Hk.
  - replace (e - ez) with 0 by lia. cbn [fst]. lia.
  - lia.
  - cbn [fst]. rewrite iter_xO_value. f_equal. f_equal. lia.
Qed.

(** A positive integer below 2^53 is the finite number of that value. *)
Lemma ofZ_pos_value (p : positive) :
  Z.pos p < 2 ^ 53 ->
  exists m e, ofZ (Z.pos p) = S754_finite false m e
              ∧ e <= 0 ∧ Z.pos m = Z.pos p * 2 ^ (- e).
Proof.
  intros Hp. pose proof (digits2_pos_bound p Hp) as Hd.
  unfold ofZ, binary_normalize, binary_round.
  set (d := Z.pos (digits2_pos p)) in *.
  assert (Hf : fexp prec emax (d + 0) = d - 53).
  { unfold fexp, emin, prec, emax. lia. }
  rewrite Hf.
  assert (Hal : exists mz, shl_align p 0 (d - 53) = (mz, d - 53)
                           ∧ Z.pos (digits2_pos mz) = 53
                           ∧ Z.pos mz = Z.pos p * 2 ^ (- (d - 53))).
  { pose proof (shl_align_value p 0 (d - 53) ltac:(lia)) as Hv.
    unfold shl_align in *. destruct (d - 53 - 0) as [|k|k] eqn:Hk.
    - exists p. split; [f_equal; lia|]. split; [fold d; lia|].
      cbn [fst] in Hv. rewrite Hv. f_equal; try (f_equal; lia).
    - lia.
    - exists (Pos.iter xO p k). split; [reflexivity|].
      split; [rewrite digits2_pos_shift; fold d; lia|].
      cbn [fst] in Hv. rewrite Hv. f_equal; try (f_equal; lia). }
  destruct Hal as (mz & -> & Hmz & Hval).
  unfold binary_round_aux, shr_fexp.
  cbn [Zdigits2 shr_record_of_loc]. rewrite Hmz.
  assert (Hs : fexp prec emax (53 + (d - 53)) - (d - 53) = 0).
  { unfold fexp, emin, prec, emax. lia. }
  rewrite Hs. cbn [shr shr_m loc_of_shr_record round_nearest_even Zdigits2].
  rewrite Hmz, Hs. cbn [shr shr_m].
  replace (d - 53 <=? emax - prec) with true
    by (symmetry; apply Z.leb_le; unfold emax, prec; lia).
  exists mz, (d - 53). split; [reflexivity|]. split; [lia | exact Hval].
Qed.

(** The difference of two such integers has the sign of the exact
    difference. *)
Lemma sub_smaller_minus_larger (o c : positive) :
  Z.pos o < 2 ^ 53 -> Z.pos c < 2 ^ 53 -> Z.pos o < Z.pos c ->
  signed true (sub (ofZ (Z.pos o)) (ofZ (Z.pos c))).
Proof.
  intros Ho Hc Hlt.
  destruct (ofZ_pos_value o Ho) as (mo & eo & -> & Heo & Hmo).
  destruct (ofZ_pos_value c Hc) as (mc & ec & -> & Hec & Hmc).
  unfold sub, SFsub, cond_Zopp.
  set (ez := Z.min eo ec).
  rewrite (shl_align_value mo eo ez) by (subst ez; lia).
  rewrite (shl_align_value mc ec ez) by (subst ez; lia).
  rewrite Hmo, Hmc, <- !Z.mul_assoc, <- !Z.pow_add_r by (subst ez; lia).
  replace (- eo + (eo - ez)) with (- ez) by lia.
  replace (- ec + (ec - ez)) with (- ez) by lia.
  assert (Hpow : 0 < 2 ^ (- ez)) by (apply Z.pow_pos_nonneg; subst ez; lia).
  destruct (Z.pos o * 2 ^ (- ez) - Z.pos c * 2 ^ (- ez)) as [|q|q] eqn:E;
    [nia | nia |].
  unfold binary_normalize. apply binary_round_signed.
Qed.

Lemma div_signed (s : bool) (x : spec_float) (m : positive) (e : Z) :
  signed s x -> signed s (div x (S754_finite false m e)).
Proof.
  destruct x as [s'|s'| |s' m' e']; cbn [signed]; try contradiction;
    intros ->; unfold div, SFdiv; try (cbn [signed]; destruct s; reflexivity).
  destruct (SFdiv_core_binary prec emax (Z.pos m') e' (Z.pos m) e)
    as [[mz ez] lz] eqn:E.
  assert (Hq : 0 <= mz).
  { revert E. unfold SFdiv_core_binary.
    set (s' := e' - e - _).
    set (m1 := match s' with Z.pos _ => Z.shiftl (Z.pos m') s' | 0 => Z.pos m' | Z.neg _ => 0 end).
    assert (H1 : 0 <= m1).
    { subst m1. destruct s'; try lia. apply Z.shiftl_nonneg. lia. }
    pose proof (Z.div_eucl_eq m1 (Z.pos m) ltac:(lia)) as Hdiv.
    pose proof (Z.mod_pos_bound m1 (Z.pos m) ltac:(lia)) as Hmod.
    unfold Z.modulo in Hmod.
    destruct (Z.div_eucl m1 (Z.pos m)) as [q r].
    intros [= <- _ _]. nia. }
  replace s with (xorb s false) at 1 by (destruct s; reflexivity).
  apply binary_round_aux_signed. exact Hq.
Qed.

Lemma mul_signed (s : bool) (x : spec_float) (m : positive) (e : Z) :
  signed s x -> signed s (mul x (S754_finite false m e)).
Proof.
  destruct x as [s'|s'| |s' m' e']; cbn [signed]; try contradiction;
    intros ->; unfold mul, SFmul; try (cbn [signed]; destruct s; reflexivity).
  replace s with (xorb s false) at 1 by (destruct s; reflexivity).
  apply binary_round_aux_signed. lia.
Qed.

Lemma Math_round_negative (x : spec_float) :
  signed true x -> signed true (Math_round x).
Proof.
  destruct x as [s|s| |s m e]; cbn [signed]; try contradiction; intros ->;
    try reflexivity.
  unfold Math_round. destruct (0 <=? e) eqn:He; [reflexivity|].
  apply Z.leb_gt in He.
  set (d := 2 ^ (- e)).
  assert (Hd : 0 < d) by (apply Z.pow_pos_nonneg; lia).
  assert (Hz : (2 * Z.neg m + d) / (2 * d) <= 0).
  { apply Z.lt_succ_r. apply Z.div_lt_upper_bound; lia. }
  destruct (_ =? 0) eqn:E0; [reflexivity|].
  apply Z.eqb_neq in E0.
  destruct ((2 * Z.neg m + d) / (2 * d)) as [|q|q]; [lia|lia|].
  unfold ofZ, binary_normalize. apply binary_round_signed.
Qed.

Lemma Math_max_zero_negative (y : spec_float) :
  signed true y -> Math_max zero y = zero.
Proof.
  destruct y as [s|s| |s m e]; cbn [signed]; try contradiction; intros ->;
    reflexivity.
Qed.

End Binary64.

(** The ratio of an original of a size below 2^53 is a number, and it is at
    least 0. *)
Lemma calculateCompressionRatio_nonneg (o c : Z) :
  0 <= o < 2 ^ 53 ->
  Number.leb Number.zero (pdfCompressor._calculateCompressionRatio o c) = true.
Proof.
  intros [Hlo Hhi]. unfold pdfCompressor._calculateCompressionRatio.
  destruct (o =? 0) eqn:E; [reflexivity|].
  apply Z.eqb_neq in E.
  destruct o as [|p|p]; [lia| |lia].
  destruct (ofZ_pos_value p Hhi) as (m & e & Ho & _ & _). rewrite Ho.
  assert (H10 : Number.ofZ 10 = S754_finite false 5629499534213120 (-49))
    by (vm_compute; reflexivity).
  assert (H100 : Number.ofZ 100 = S754_finite false 7036874417766400 (-46))
    by (vm_compute; reflexivity).
  rewrite H10, H100.
  apply Math_max_zero_nonneg, div_not_nan, Math_round_not_nan, mul_not_nan,
        mul_not_nan, div_not_nan, sub_not_nan.
  destruct (Number.ofZ c) eqn:Ec; try reflexivity.
  exfalso. exact (ofZ_not_nan _ Ec).
Qed.

(** When the output is not smaller than a non-empty input the ratio is 0. *)
Lemma calculateCompressionRatio_floor (o c : Z) :
  0 < o < 2 ^ 53 -> o <= c < 2 ^ 53 ->
  pdfCompressor._calculateCompressionRatio o c = Number.zero.
Proof.
  intros [Ho1 Ho2] [Hc1 Hc2].
  unfold pdfCompressor._calculateCompressionRatio.
  replace (o =? 0) with false by (symmetry; apply Z.eqb_neq; lia).
  assert (H10 : Number.ofZ 10 = S754_finite false 5629499534213120 (-49))
    by (vm_compute; reflexivity).
  assert (H100 : Number.ofZ 100 = S754_finite false 7036874417766400 (-46))
    by (vm_compute; reflexivity).
  destruct o as [|o|o]; try lia. destruct c as [|c|c]; try lia.
  destruct (Z.eq_dec (Z.pos o) (Z.pos c)) as [E|N].
  - injection E as <-.
    destruct (ofZ_pos_value o Ho2) as (m & e & Hv & _ & _).
    rewrite Hv, H10, H100.
    assert (Hsub : Number.sub (S754_finite false m e) (S754_finite false m e)
                   = S754_zero false).
    { unfold Number.sub, SFsub, cond_Zopp. rewrite Z.sub_diag. reflexivity. }
    rewrite Hsub. reflexivity.
  - pose proof (sub_smaller_minus_larger o c Ho2 Hc2 ltac:(lia)) as Hs.
    destruct (ofZ_pos_value o Ho2) as (m & e & Hv & _ & _).
    rewrite Hv at 2. rewrite H10, H100.
    apply Math_max_zero_negative, div_signed, Math_round_negative,
          mul_signed, mul_signed, div_signed.
    exact Hs.
Qed.

(** C2, as the code has it.  For all integers [original] and [compressed]
    the ratio is 0 when [original = 0] and otherwise
    [max(0, round((((original - compressed) / original) * 100) * 10) / 10)],
    each operation rounded to binary64 in the order the code performs it; it
    is never negative; for sizes below 2^53 it is a number that is at least
    0, and it is 0 whenever the output is not smaller than a non-empty
    input; [ratio(0, c) = 0] and [ratio(1000, 400) = 60]. *)
Theorem calculateCompressionRatio_binary64 (original compressed : Z) :
  pdfCompressor._calculateCompressionRatio original compressed
  = (if original =? 0 then Number.zero
     else Number.Math_max Number.zero
            (Number.div
               (Number.Math_round
                  (Number.mul
                     (Number.mul
                        (Number.div
                           (Number.sub (Number.ofZ original)
                                       (Number.ofZ compressed))
                           (Number.ofZ original))
                        (Number.ofZ 100))
                     (Number.ofZ 10)))
               (Number.ofZ 10)))
  ∧ Number.ltb (pdfCompressor._calculateCompressionRatio original compressed)
               Number.zero = false
  ∧ (0 <= original < 2 ^ 53 ->
     Number.leb Number.zero
       (pdfCompressor._calculateCompressionRatio original compressed) = true)
  ∧ (0 < original < 2 ^ 53 -> original <= compressed < 2 ^ 53 ->
     pdfCompressor._calculateCompressionRatio original compressed
     = Number.zero)
  ∧ pdfCompressor._calculateCompressionRatio 0 compressed = Number.zero
  ∧ pdfCompressor._calculateCompressionRatio 1000 400 = Number.ofZ 60
  ∧ Number.toString (pdfCompressor._calculateCompressionRatio 1000 400) = "60".
Proof.
  split; [reflexivity|].
  split; [apply calculateCompressionRatio_not_negative|].
  split; [apply calculateCompressionRatio_nonneg|].
  split; [apply calculateCompressionRatio_floor|].
  split; [reflexivity|].
  split; vm_compute; reflexivity.
Qed.

Lemma calculateCompressionRatio_binary64_witness :
  Number.leb Number.zero
    (pdfCompressor._calculateCompressionRatio 5000000 1800000) = true
  ∧ pdfCompressor._calculateCompressionRatio 1000 1500 = Number.zero.
Proof.
  split.
  - apply (proj1 (proj2 (proj2
             (calculateCompressionRatio_binary64 5000000 1800000)))).
    split; [lia | reflexivity].
  - apply (proj1 (proj2 (proj2 (proj2
             (calculateCompressionRatio_binary64 1000 1500))))).
    + split; [lia | reflexivity].
    + split; [lia | reflexivity].
Defined.

(** C2 as stated fails at [original = 80], [compressed = 29].  The exact
    value of [((80 - 29) / 80) * 1000] is 637.5, so the stated formula gives
    63.8 (638 tenths), in exact arithmetic and evaluated in binary64 alike.
    The code multiplies by 100 and then by 10: in binary64 the quotient
    51/80 lies just below 0.6375, the first product is 63.74999999999999,
    the second is 637.4999999999999, [Math.round] gives 637, and the result
    is 63.7. *)
Lemma calculateCompressionRatio_80_29 :
  Number.toString
    (Number.mul (Number.div (Number.sub (Number.ofZ 80) (Number.ofZ 29))
                            (Number.ofZ 80))
                (Number.ofZ 100)) = "63.74999999999999"
  ∧ Number.toString
      (Number.mul
         (Number.mul (Number.div (Number.sub (Number.ofZ 80) (Number.ofZ 29))
                                 (Number.ofZ 80))
                     (Number.ofZ 100))
         (Number.ofZ 10)) = "637.4999999999999"
  ∧ pdfCompressor._calculateCompressionRatio 80 29 = Number.ofDecimal 637 (-1)
  ∧ Number.toString (pdfCompressor._calculateCompressionRatio 80 29) = "63.7"
  ∧ Number.toString (spec.ratio_formula 80 29) = "63.8"
  ∧ spec.ratio_tenths 80 29 = 638
  ∧ pdfCompressor._calculateCompressionRatio 80 29 <> spec.ratio_formula 80 29.
Proof.
  repeat split; try (vm_compute; reflexivity).
  vm_compute. discriminate.
Qed.

(** ** Validation of an upload *)

Lemma prefix_append (a b : string) : String.prefix a (a +:+ b) = true.
Proof.
  induction a as [|c a IH]; simpl.
  - destruct b; reflexivity.
  - destruct (ascii_dec c c) as [_|N]; [exact IH | contradiction].
Qed.

Lemma includes_prefix (s pat : string) :
  String.prefix pat s = true -> JSString.includes s pat = true.
Proof. intros H. destruct s; simpl in *; rewrite H; reflexivity. Qed.

Lemma includes_middle (a b c : string) :
  JSString.includes (a +:+ b +:+ c) b = true.
Proof.
  induction a as [|x a IH].
  - apply includes_prefix. apply (prefix_append b c).
  - change (String x a +:+ b +:+ c) with (String x (a +:+ b +:+ c)).
    cbn [JSString.includes]. rewrite IH.
    destruct (String.prefix b _); reflexivity.
Qed.

Lemma allowed_type_In (t : string) (allowed : list string) :
  existsb (String.eqb t) allowed = true <-> In t allowed.
Proof.
  rewrite existsb_exists. split.
  - intros (x & Hx & E). apply String.eqb_eq in E. subst. exact Hx.
  - intros H. exists t. split; [exact H | apply String.eqb_refl].
Qed.

(** C5, as the code has it.  An upload whose media type is not allowed is
    rejected, with the media-type message whatever its size; an upload with
    an allowed type whose size strictly exceeds the maximum is rejected with
    a message that contains the limit in MB; an upload with an allowed type
    and a size within the limit is accepted.  The verdict is a function of
    the configuration and the upload alone. *)
Theorem validateFile_verdict (cfg : Config) (file : fileManager.File) :
  let verdict := fileManager.validateFile cfg (Some file) in
  let limitMB :=
    Number.toString (Number.div (Number.ofZ (upload_maxFileSize cfg))
                                (Number.ofZ (1024 * 1024))) in
  (~ In (fileManager.mimetype file) (upload_allowedMimeTypes cfg) ->
     verdict = {| fileManager.success := false;
                  fileManager.validation_message := "Only PDF files are allowed" |})
  ∧ (In (fileManager.mimetype file) (upload_allowedMimeTypes cfg) ->
     upload_maxFileSize cfg < fileManager.file_size file ->
     verdict = {| fileManager.success := false;
                  fileManager.validation_message :=
                    "File size exceeds " +:+ limitMB +:+ " MB limit" |}
     ∧ JSString.includes (fileManager.validation_message verdict) limitMB = true)
  ∧ (In (fileManager.mimetype file) (upload_allowedMimeTypes cfg) ->
     fileManager.file_size file <= upload_maxFileSize cfg ->
     verdict = {| fileManager.success := true;
                  fileManager.validation_message := "File is valid" |}).
Proof.
  cbv zeta. unfold fileManager.validateFile.
  destruct (existsb _ _) eqn:E; cbn [negb].
  - apply allowed_type_In in E. split; [intros N; contradiction|].
    split; intros _ H.
    + apply Z.ltb_lt in H. rewrite H. split; [reflexivity|].
      exact (includes_middle "File size exceeds " _ " MB limit").
    + apply Z.ltb_ge in H. rewrite H. reflexivity.
  - assert (N : ~ In (fileManager.mimetype file) (upload_allowedMimeTypes cfg)).
    { intros H. apply allowed_type_In in H. congruence. }
    split; [reflexivity|]. split; intros H; contradiction.
Qed.

Lemma validateFile_verdict_witness :
  fileManager.validateFile config (Some big_pdf)
  = {| fileManager.success := false;
       fileManager.validation_message := "File size exceeds 250 MB limit" |}.
Proof.
  apply (proj1 (proj2 (validateFile_verdict config big_pdf))).
  - left. reflexivity.
  - reflexivity.
Defined.

(** C5 as stated fails for an upload that is too large and of a type that is
    not allowed: the type is checked first, and the rejection does not
    mention the limit. *)
Lemma validateFile_oversize_png :
  upload_maxFileSize config < fileManager.file_size big_png
  ∧ fileManager.validateFile config (Some big_png)
    = {| fileManager.success := false;
         fileManager.validation_message := "Only PDF files are allowed" |}
  ∧ JSString.includes
      (fileManager.validation_message
         (fileManager.validateFile config (Some big_png)))
      (Number.toString (Number.div (Number.ofZ (upload_maxFileSize config))
                                   (Number.ofZ (1024 * 1024)))) = false.
Proof. repeat split; vm_compute; reflexivity. Qed.

(** ** Human-readable sizes *)

Lemma floor_log1024_bounds (bytes : Z) :
  0 < bytes ->
  let i := Z.log2 bytes / 10 in
  0 <= i ∧ 1024 ^ i <= bytes < 1024 ^ (i + 1).
Proof.
  intros Hpos i.
  pose proof (Z.log2_nonneg bytes) as Hl.
  pose proof (Z.log2_spec bytes Hpos) as [Hlo Hhi].
  assert (Hi : 0 <= i) by (apply Z.div_pos; lia).
  pose proof (Z.mul_div_le (Z.log2 bytes) 10 ltac:(lia)) as Hd.
  pose proof (Z.mul_succ_div_gt (Z.log2 bytes) 10 ltac:(lia)) as Hu.
  fold i in Hd, Hu.
  change 1024 with (2 ^ 10).
  rewrite <- !Z.pow_mul_r by lia.
  split; [exact Hi|]. split.
  - apply Z.le_trans with (2 ^ Z.log2 bytes); [|exact Hlo].
    apply Z.pow_le_mono_r; lia.
  - apply Z.lt_le_trans with (2 ^ Z.succ (Z.log2 bytes)); [exact Hhi|].
    apply Z.pow_le_mono_r; lia.
Qed.

(** C6, as the code has it.  [formatBytes(0)] is ["0 Bytes"] and
    [formatBytes(1536)] is ["1.5 KB"]; for a byte count from 1 up to, and
    not including, 1024^4 the unit is the one of index [i], the floor of
    the logarithm in base 1024 of the count, among Bytes, KB, MB and GB, and
    the text is the count divided by [1024^i], rounded to two decimals,
    followed by a space and the unit. *)
Theorem formatBytes_units :
  fileManager.formatBytes 0 = "0 Bytes"
  ∧ fileManager.formatBytes 1536 = "1.5 KB"
  ∧ forall bytes, 0 < bytes < 1024 ^ 4 ->
      exists (i : Z) (unit : string),
        0 <= i < 4
        ∧ 1024 ^ i <= bytes < 1024 ^ (i + 1)
        ∧ nth_error ["Bytes"; "KB"; "MB"; "GB"] (Z.to_nat i) = Some unit
        ∧ fileManager.formatBytes bytes =
            Number.toString
              (Number.div
                 (Number.Math_round
                    (Number.mul
                       (Number.div (Number.ofZ bytes) (Number.ofZ (1024 ^ i)))
                       (Number.ofZ 100)))
                 (Number.ofZ 100))
            +:+ " " +:+ unit.
Proof.
  split; [reflexivity|]. split; [vm_compute; reflexivity|].
  intros bytes [Hpos Hlt].
  destruct (floor_log1024_bounds bytes Hpos) as (Hi & Hlo & Hhi).
  set (i := Z.log2 bytes / 10) in *.
  assert (Hi4 : i < 4).
  { destruct (Z_lt_ge_dec i 4) as [|Hge]; [assumption|exfalso].
    assert (1024 ^ 4 <= 1024 ^ i) by (apply Z.pow_le_mono_r; lia). lia. }
  assert (Hunit : exists unit,
             nth_error ["Bytes"; "KB"; "MB"; "GB"] (Z.to_nat i) = Some unit
             ∧ fileManager.unit_name (Some i) = unit).
  { unfold fileManager.unit_name, fileManager.sizes.
    assert (Hc : i = 0 \/ i = 1 \/ i = 2 \/ i = 3) by lia.
    destruct Hc as [-> | [-> | [-> | ->]]]; eexists; split; reflexivity. }
  destruct Hunit as (unit & Hnth & Hname).
  exists i, unit. repeat split; try assumption.
  unfold fileManager.formatBytes, fileManager.floor_log1024.
  replace (bytes =? 0) with false by (symmetry; apply Z.eqb_neq; lia).
  replace (bytes <? 0) with false by (symmetry; apply Z.ltb_ge; lia).
  fold i. rewrite Hname. reflexivity.
Qed.

Lemma formatBytes_units_witness :
  exists (i : Z) (unit : string),
    0 <= i < 4
    ∧ 1024 ^ i <= 5000000 < 1024 ^ (i + 1)
    ∧ nth_error ["Bytes"; "KB"; "MB"; "GB"] (Z.to_nat i) = Some unit
    ∧ fileManager.formatBytes 5000000 =
        Number.toString
          (Number.div
             (Number.Math_round
                (Number.mul
                   (Number.div (Number.ofZ 5000000) (Number.ofZ (1024 ^ i)))
                   (Number.ofZ 100)))
             (Number.ofZ 100))
        +:+ " " +:+ unit.
Proof.
  apply (proj2 (proj2 formatBytes_units) 5000000). split; reflexivity.
Defined.

(** C6 as stated fails from 1024^4 bytes on: the index is 4 or more, the
    table of units has four entries, and the text ends in [undefined]. *)
Lemma formatBytes_one_tebibyte :
  fileManager.formatBytes (1024 ^ 4) = "1 undefined"
  ∧ fileManager.floor_log1024 (1024 ^ 4) = Some 4
  ∧ nth_error fileManager.sizes 4 = None.
Proof. repeat split; vm_compute; reflexivity. Qed.
(** ** The output file name *)

Lemma includes_false_inv (c : ascii) (s pat : string) :
  JSString.includes (String c s) pat = false ->
  String.prefix pat (String c s) = false ∧ JSString.includes s pat = false.
Proof.
  cbn [JSString.includes]. destruct (String.prefix pat (String c s)).
  - discriminate.
  - intros H. split; [reflexivity | exact H].
Qed.

Lemma prefix_pdf_suffix (c : ascii) (b : string) :
  String.prefix ".pdf" (String c b +:+ ".pdf") = true ->
  String.prefix ".pdf" (String c b) = true.
Proof.
  destruct b as [|c1 [|c2 [|c3 b3]]];
    cbv [String.append]; cbn [String.prefix];
    repeat (destruct (ascii_dec _ _)); try discriminate; try congruence; auto.
  destruct b3; reflexivity.
Qed.

Lemma replace_pdf_suffix (base : string) :
  JSString.includes base ".pdf" = false ->
  JSString.replace (base +:+ ".pdf") ".pdf" "" = base.
Proof.
  induction base as [|c b IH]; intros H.
  - reflexivity.
  - apply includes_false_inv in H as [Hp Hb].
    change (String c b +:+ ".pdf") with (String c (b +:+ ".pdf")).
    cbn [JSString.replace].
    destruct (String.prefix ".pdf" (String c (b +:+ ".pdf"))) eqn:E.
    + apply (prefix_pdf_suffix c b) in E. congruence.
    + rewrite IH by exact Hb. reflexivity.
Qed.

Lemma strip_extension_suffix (base : string) :
  spec.strip_extension (base +:+ ".pdf") = base.
Proof.
  induction base as [|c b IH].
  - reflexivity.
  - change (String c b +:+ ".pdf") with (String c (b +:+ ".pdf")).
    cbn [spec.strip_extension].
    change (b +:+ ".pdf") with (b +:+ "." +:+ "pdf") at 1.
    rewrite (includes_middle b "." "pdf").
    change (b +:+ "." +:+ "pdf") with (b +:+ ".pdf").
    rewrite IH, andb_false_r. reflexivity.
Qed.

(** The output name is the one the specification describes when the
    original name ends in [.pdf] and has no other occurrence of it. *)
Lemma outputFilename_plain_name (base : string) (timestamp : Z) :
  JSString.includes base ".pdf" = false ->
  server.outputFilename (base +:+ ".pdf") timestamp
  = spec.outputFilename (base +:+ ".pdf") timestamp
  ∧ server.outputFilename (base +:+ ".pdf") timestamp
    = "comp" +:+ JSString.substring0 8 base +:+ "-" +:+
      Number.toString (Number.ofZ timestamp) +:+ ".pdf".
Proof.
  intros H. unfold server.outputFilename, spec.outputFilename.
  rewrite replace_pdf_suffix by exact H.
  rewrite strip_extension_suffix. split; reflexivity.
Qed.

Lemma outputFilename_plain_name_witness :
  server.outputFilename "report-2024.pdf" 1700000000000
  = "compreport-2-1700000000000.pdf".
Proof.
  exact (proj2 (outputFilename_plain_name "report-2024" 1700000000000
                  eq_refl)).
Defined.

(** C4 at [x.pdf.y.pdf] and at [SCAN.PDF].  With the extension stripped the
    names are [x.pdf.y] and [SCAN]; the code removes the first [.pdf] of the
    name, wherever it stands and in lower case only, so the prefixes it
    takes are [x.y.pdf] and [SCAN.PDF]. *)
Theorem outputFilename_first_occurrence :
  server.outputFilename "x.pdf.y.pdf" 1700000000000
    = "compx.y.pdf-1700000000000.pdf"
  ∧ spec.outputFilename "x.pdf.y.pdf" 1700000000000
    = "compx.pdf.y-1700000000000.pdf"
  ∧ server.outputFilename "SCAN.PDF" 1700000000000
    = "compSCAN.PDF-1700000000000.pdf"
  ∧ spec.outputFilename "SCAN.PDF" 1700000000000
    = "compSCAN-1700000000000.pdf".
Proof. repeat split; vm_compute; reflexivity. Qed.

(** ** The download handler *)


Ltac run_monad :=
  unfold mbind, mret, M_bind, M_ret, try_catch, throw, print.




(** ** The sweep *)

Section Sweep.

Variable cfg : Config.
Variable now : Qc.

Let old := expired_inode cfg now.

Lemma sweeps_refl (w : World) : sweeps old w w.
Proof.
  intros directory. destruct (disk w !! directory) as [d|]; [|exact I].
  split; [reflexivity|]. intros name.
  destruct (entries d !! name); [reflexivity | discriminate].
Qed.

Lemma sweeps_trans (w1 w2 w3 : World) :
  sweeps old w1 w2 -> sweeps old w2 w3 -> sweeps old w1 w3.
Proof.
  intros H12 H23 directory.
  specialize (H12 directory). specialize (H23 directory).
  destruct (disk w1 !! directory) as [d1|], (disk w2 !! directory) as [d2|],
           (disk w3 !! directory) as [d3|]; try contradiction; try exact I.
  destruct H12 as [R12 E12], H23 as [R23 E23].
  split; [congruence|]. intros name.
  specialize (E12 name). specialize (E23 name).
  destruct (entries d3 !! name) as [f3|].
  - rewrite E23 in E12. exact E12.
  - intros f Hf. destruct (entries d2 !! name) as [f2|].
    + apply E23. congruence.
    + apply E12. exact Hf.
Qed.

Lemma expired_spec (stats : fs.Stats) (f : Inode) :
  fs.st_mtimeMs stats = mtimeMs f ->
  fileManager.expired cfg now stats = true <-> old f.
Proof.
  intros E. unfold fileManager.expired, old, expired_inode.
  rewrite E. apply bool_decide_eq_true.
Qed.

(** [stat] reads, and [unlink] removes one entry or fails. *)
Lemma stat_world (p : Path) (w w' : World) (r : Completion fs.Stats) :
  fs.stat p w = (w', r) -> w' = w.
Proof.
  unfold fs.stat. destruct (fs.lookup p w) as [[d f]|].
  - destruct (stat_fault f); intros [= <- _]; reflexivity.
  - intros [= <- _]. reflexivity.
Qed.

Lemma stat_returned (p : Path) (w w' : World) (stats : fs.Stats) :
  fs.stat p w = (w', Returned stats) ->
  exists d f, fs.lookup p w = Some (d, f)
              ∧ stat_fault f = None
              ∧ fs.st_mtimeMs stats = mtimeMs f.
Proof.
  unfold fs.stat. destruct (fs.lookup p w) as [[d f]|]; [|discriminate].
  destruct (stat_fault f) eqn:E; [discriminate|].
  intros [= _ <-]. exists d, f. repeat split. exact E.
Qed.

Lemma lookup_inv (p : Path) (w : World) (d : Directory) (f : Inode) :
  fs.lookup p w = Some (d, f) ->
  disk w !! dirname p = Some d ∧ entries d !! basename p = Some f.
Proof.
  unfold fs.lookup. destruct (disk w !! dirname p) as [d0|]; [|discriminate].
  destruct (entries d0 !! basename p) as [f0|] eqn:E; [|discriminate].
  intros [= <- <-]. split; [reflexivity | exact E].
Qed.

Lemma unlink_thrown (p : Path) (w w' : World) (e : Error) :
  fs.unlink p w = (w', Thrown e) -> w' = w.
Proof.
  unfold fs.unlink. destruct (fs.lookup p w) as [[d f]|].
  - destruct (unlink_fault f); [intros [= <- _]; reflexivity | discriminate].
  - intros [= <- _]. reflexivity.
Qed.

Lemma unlink_not_hung (p : Path) (w w' : World) :
  fs.unlink p w <> (w', Hung).
Proof.
  unfold fs.unlink. destruct (fs.lookup p w) as [[d f]|]; [|discriminate].
  destruct (unlink_fault f); discriminate.
Qed.

Lemma stat_not_hung (p : Path) (w w' : World) :
  fs.stat p w <> (w', Hung).
Proof.
  unfold fs.stat. destruct (fs.lookup p w) as [[d f]|]; [|discriminate].
  destruct (stat_fault f); discriminate.
Qed.

Lemma unlink_returned (p : Path) (w w' : World) :
  fs.unlink p w = (w', Returned tt) ->
  exists d f,
    fs.lookup p w = Some (d, f)
    ∧ unlink_fault f = None
    ∧ w' = {| disk := <[dirname p :=
                          {| readdir_fault := readdir_fault d;
                             entries := delete (basename p) (entries d) |}]>
                        (disk w);
              console := console w |}.
Proof.
  unfold fs.unlink. destruct (fs.lookup p w) as [[d f]|]; [|discriminate].
  destruct (unlink_fault f) eqn:E; [discriminate|].
  intros [= <-]. exists d, f. repeat split. exact E.
Qed.

Lemma unlink_sweeps (p : Path) (w w' : World) (f : Inode) (d : Directory) :
  fs.lookup p w = Some (d, f) -> old f ->
  fs.unlink p w = (w', Returned tt) ->
  sweeps old w w'.
Proof.
  intros Hl Hold Hu. apply unlink_returned in Hu as (d0 & f0 & Hl0 & _ & ->).
  rewrite Hl in Hl0. injection Hl0 as <- <-.
  apply lookup_inv in Hl as [Hd Hf].
  intros directory. cbn [disk].
  destruct (decide (dirname p = directory)) as [<-|Hne].
  - rewrite Hd, lookup_insert_eq. cbn [readdir_fault entries].
    split; [reflexivity|]. intros name.
    destruct (decide (basename p = name)) as [<-|Hn].
    + rewrite lookup_delete_eq. intros f' Hf'. congruence.
    + rewrite lookup_delete_ne by exact Hn.
      destruct (entries d !! name); [reflexivity | discriminate].
  - rewrite lookup_insert_ne by exact Hne.
    exact (sweeps_refl w directory).
Qed.

(** Whatever happens in it, the loop removes nothing but expired entries. *)
Lemma clean_loop_sweeps (directory : string) (files : list string) :
  forall (count : nat) (w w' : World) (r : nat * Completion unit),
    fileManager.clean_loop cfg directory now files count w = (w', r) ->
    sweeps old w w'.
Proof.
  induction files as [|file rest IH]; intros count w w' r; cbn [fileManager.clean_loop].
  - intros [= <- _]. apply sweeps_refl.
  - destruct (fs.stat (path_join directory file) w) as [w1 [stats|e|]] eqn:Hs.
    + pose proof (stat_world _ _ _ _ Hs) as ->.
      destruct (stat_returned _ _ _ _ Hs) as (d & f & Hl & _ & Hm).
      destruct (fileManager.expired cfg now stats) eqn:Hx.
      * apply (expired_spec stats f Hm) in Hx.
        destruct (fs.unlink (path_join directory file) w) as [w2 [[]|e|]] eqn:Hu.
        -- intros H. apply IH in H.
           eapply sweeps_trans; [|exact H].
           eapply unlink_sweeps; eauto.
        -- intros [= <- _]. apply unlink_thrown in Hu as ->. apply sweeps_refl.
        -- exfalso. exact (unlink_not_hung _ _ _ Hu).
      * apply IH.
    + intros [= <- _]. apply stat_world in Hs as ->. apply sweeps_refl.
    + exfalso. exact (stat_not_hung _ _ _ Hs).
Qed.

Lemma clean_loop_console (directory : string) (files : list string) :
  forall (count : nat) (w w' : World) (r : nat * Completion unit),
    fileManager.clean_loop cfg directory now files count w = (w', r) ->
    console w' = console w.
Proof.
  induction files as [|file rest IH]; intros count w w' r; cbn [fileManager.clean_loop].
  - intros [= <- _]. reflexivity.
  - destruct (fs.stat (path_join directory file) w) as [w1 [stats|e|]] eqn:Hs;
      pose proof (stat_world _ _ _ _ Hs) as ->.
    + destruct (fileManager.expired cfg now stats).
      * destruct (fs.unlink (path_join directory file) w) as [w2 [[]|e|]] eqn:Hu.
        -- intros H. apply IH in H. rewrite H.
           apply unlink_returned in Hu as (d & f & _ & _ & ->). reflexivity.
        -- intros [= <- _]. apply unlink_thrown in Hu as ->. reflexivity.
        -- exfalso. exact (unlink_not_hung _ _ _ Hu).
      * apply IH.
    + intros [= <- _]. reflexivity.
    + intros [= <- _]. reflexivity.
Qed.

Lemma clean_loop_not_hung (directory : string) (files : list string) :
  forall (count count' : nat) (w w' : World),
    fileManager.clean_loop cfg directory now files count w <> (w', (count', Hung)).
Proof.
  induction files as [|file rest IH]; intros count count' w w'; cbn [fileManager.clean_loop].
  - discriminate.
  - destruct (fs.stat (path_join directory file) w) as [w1 [stats|e|]] eqn:Hs.
    + destruct (fileManager.expired cfg now stats).
      * destruct (fs.unlink (path_join directory file) w1) as [w2 [[]|e|]] eqn:Hu.
        -- apply IH.
        -- discriminate.
        -- exfalso. exact (unlink_not_hung _ _ _ Hu).
      * apply IH.
    + discriminate.
    + exfalso. exact (stat_not_hung _ _ _ Hs).
Qed.

(** A loop over entries that are all there, none of which makes an
    operation of the loop fail, removes every expired one of them and ends
    normally. *)
Lemma clean_loop_clean (directory : string) (files : list string) :
  forall (count : nat) (w : World) (d : Directory),
    disk w !! directory = Some d ->
    map_Forall (fun _ f => stat_fault f = None
                           ∧ (old f -> unlink_fault f = None)) (entries d) ->
    NoDup files ->
    (forall name, name ∈ files -> is_Some (entries d !! name)) ->
    exists (w' : World) (count' : nat) (d' : Directory),
      fileManager.clean_loop cfg directory now files count w
        = (w', (count', Returned tt))
      ∧ disk w' !! directory = Some d'
      ∧ forall name f, name ∈ files -> entries d !! name = Some f -> old f ->
                       entries d' !! name = None.
Proof.
  induction files as [|file rest IH]; intros count w d Hd Hff Hnd Hin;
    cbn [fileManager.clean_loop].
  - exists w, count, d. repeat split; [exact Hd|].
    intros name f Hn. apply elem_of_nil in Hn. contradiction.
  - apply NoDup_cons in Hnd as [Hfresh Hnd].
    destruct (Hin file ltac:(left)) as [f Hf].
    destruct (Hff file f Hf) as [Hsf Huf].
    assert (Hl : fs.lookup (path_join directory file) w = Some (d, f)).
    { unfold fs.lookup. cbn [path_join dirname basename]. rewrite Hd, Hf. reflexivity. }
    unfold fs.stat at 1. rewrite Hl, Hsf.
    destruct (fileManager.expired cfg now _) eqn:Hx.
    + assert (Hx' : old f)
        by (apply (expired_spec
                     {| fs.st_size := size f; fs.st_mtimeMs := mtimeMs f |}
                     f eq_refl); exact Hx).
      specialize (Huf Hx').
      unfold fs.unlink at 1. rewrite Hl, Huf.
      set (d1 := {| readdir_fault := readdir_fault d;
                    entries := delete (basename (path_join directory file)) (entries d) |}).
      set (w1 := {| disk := _; console := _ |}).
      assert (Hd1 : disk w1 !! directory = Some d1)
        by (subst w1; cbn [disk dirname path_join]; apply lookup_insert_eq).
      assert (Hff1 : map_Forall
                       (fun _ f => stat_fault f = None
                                   ∧ (old f -> unlink_fault f = None))
                       (entries d1)).
      { intros name g Hg. subst d1. cbn [entries] in Hg.
        apply lookup_delete_Some in Hg as [_ Hg]. exact (Hff name g Hg). }
      assert (Hin1 : forall name, name ∈ rest -> is_Some (entries d1 !! name)).
      { intros name Hn. subst d1. cbn [entries basename path_join].
        rewrite lookup_delete_ne by (intros ->; contradiction).
        apply Hin. right. exact Hn. }
      destruct (IH (S count) w1 d1 Hd1 Hff1 Hnd Hin1) as (w' & count' & d' & Hrun & Hd' & Hgone).
      exists w', count', d'. split; [exact Hrun|]. split; [exact Hd'|].
      intros name g Hn Hg Hold.
      apply elem_of_cons in Hn as [->|Hn].
      * pose proof (clean_loop_sweeps _ _ _ _ _ _ Hrun directory) as Hsw.
        rewrite Hd1, Hd' in Hsw. destruct Hsw as [_ Hsw]. specialize (Hsw file).
        destruct (entries d' !! file) as [f'|]; [|reflexivity].
        subst d1. cbn [entries basename path_join] in Hsw.
        rewrite lookup_delete_eq in Hsw. discriminate.
      * apply (Hgone name g Hn); [|exact Hold].
        subst d1. cbn [entries basename path_join].
        rewrite lookup_delete_ne by (intros ->; contradiction). exact Hg.
    + destruct (IH count w d Hd Hff Hnd
                  (fun name Hn => Hin name ltac:(right; exact Hn)))
        as (w' & count' & d' & Hrun & Hd' & Hgone).
      exists w', count', d'. split; [exact Hrun|]. split; [exact Hd'|].
      intros name g Hn Hg Hold.
      apply elem_of_cons in Hn as [->|Hn].
      * exfalso. rewrite Hf in Hg. injection Hg as <-.
        assert (fileManager.expired cfg now
                  {| fs.st_size := size f; fs.st_mtimeMs := mtimeMs f |} = true)
          by (apply (expired_spec _ f); [reflexivity | exact Hold]).
        congruence.
      * exact (Hgone name g Hn Hg Hold).
Qed.

Lemma sound_passable (w : World) (directory : string) :
  sound w directory -> passable cfg now w directory.
Proof.
  unfold sound, passable. destruct (disk w !! directory) as [d|]; [|auto].
  intros [Hr Hff]. split; [exact Hr|].
  intros name f Hf. destruct (Hff name f Hf) as [Hs Hu]. auto.
Qed.

Lemma sweeps_passable (w w' : World) (directory : string) :
  sweeps old w w' -> passable cfg now w directory ->
  passable cfg now w' directory.
Proof.
  intros Hsw Hs. specialize (Hsw directory). unfold passable in *.
  destruct (disk w !! directory) as [d|], (disk w' !! directory) as [d'|];
    try contradiction; try exact I.
  destruct Hsw as [Hr He], Hs as [Hrd Hff]. split; [congruence|].
  intros name f Hf. specialize (He name). rewrite Hf in He. exact (Hff name f He).
Qed.

Lemma sweeps_sound (w w' : World) (directory : string) :
  sweeps old w w' -> sound w directory -> sound w' directory.
Proof.
  intros Hsw Hs. specialize (Hsw directory). unfold sound in *.
  destruct (disk w !! directory) as [d|], (disk w' !! directory) as [d'|];
    try contradiction; try exact I.
  destruct Hsw as [Hr He], Hs as [Hrd Hff]. split; [congruence|].
  intros name f Hf. specialize (He name). rewrite Hf in He. exact (Hff name f He).
Qed.

Lemma cleanDirectory_sweeps (directory : string) (w w' : World) (r : Completion nat) :
  fileManager._cleanDirectory cfg directory now w = (w', r) ->
  sweeps old w w' ∧ console w' = console w.
Proof.
  unfold fileManager._cleanDirectory, fs.readdir.
  destruct (disk w !! directory) as [d|].
  - destruct (readdir_fault d) as [e|].
    + destruct (negb (has_code e "ENOENT")); intros [= <- _];
        (split; [apply sweeps_refl | reflexivity]).
    + destruct (fileManager.clean_loop _ _ _ _ _ _) as [w2 [count [[]|e|]]] eqn:Hl.
      * intros [= <- _]. split; [eapply clean_loop_sweeps | eapply clean_loop_console]; eauto.
      * destruct (negb (has_code e "ENOENT")); intros [= <- _];
          (split; [eapply clean_loop_sweeps | eapply clean_loop_console]; eauto).
      * intros [= <- _]. split; [eapply clean_loop_sweeps | eapply clean_loop_console]; eauto.
  - cbn. intros [= <- _]. split; [apply sweeps_refl | reflexivity].
Qed.

Lemma cleanDirectory_not_hung (directory : string) (w w' : World) :
  fileManager._cleanDirectory cfg directory now w <> (w', Hung).
Proof.
  unfold fileManager._cleanDirectory, fs.readdir.
  destruct (disk w !! directory) as [d|].
  - destruct (readdir_fault d) as [e|].
    + destruct (negb (has_code e "ENOENT")); discriminate.
    + destruct (fileManager.clean_loop _ _ _ _ _ _) as [w2 [count [[]|e|]]] eqn:Hl.
      * discriminate.
      * destruct (negb (has_code e "ENOENT")); discriminate.
      * exfalso. exact (clean_loop_not_hung _ _ _ _ _ _ Hl).
  - cbn. discriminate.
Qed.

Lemma cleanDirectory_clean (directory : string) (w : World) :
  passable cfg now w directory ->
  exists (w' : World) (n : nat),
    fileManager._cleanDirectory cfg directory now w = (w', Returned n)
    ∧ forall d name f,
        disk w !! directory = Some d -> entries d !! name = Some f -> old f ->
        exists d', disk w' !! directory = Some d' ∧ entries d' !! name = None.
Proof.
  unfold passable, fileManager._cleanDirectory, fs.readdir.
  destruct (disk w !! directory) as [d|] eqn:Hd.
  - intros [Hrd Hff]. rewrite Hrd.
    destruct (clean_loop_clean directory ((map_to_list (entries d)).*1) 0%nat w d Hd Hff)
      as (w' & count' & d' & Hrun & Hd' & Hgone).
    + apply NoDup_fst_map_to_list.
    + intros name Hn. apply list_elem_of_fmap in Hn as ([k f] & -> & Hkf).
      apply elem_of_map_to_list in Hkf. exists f. exact Hkf.
    + rewrite Hrun. exists w', count'. split; [reflexivity|].
      intros d0 name f [= <-] Hf Hold. exists d'. split; [exact Hd'|].
      apply (Hgone name f); [|exact Hf|exact Hold].
      apply list_elem_of_fmap. exists (name, f). split; [reflexivity|].
      apply elem_of_map_to_list. exact Hf.
  - intros _. cbn. exists w, 0%nat. split; [reflexivity|]. discriminate.
Qed.

(** The two passes of [cleanupOldFiles], and what it leaves. *)
Lemma cleanupOldFiles_passes (w : World) :
  exists (w1 : World) (r1 : Completion nat),
    fileManager._cleanDirectory cfg (upload_uploadDir cfg) now w = (w1, r1)
    ∧ match r1 with
      | Returned c1 =>
          exists (w2 : World) (r2 : Completion nat),
            fileManager._cleanDirectory cfg (upload_compressedDir cfg) now w1
              = (w2, r2)
            ∧ match r2 with
              | Returned c2 =>
                  disk (fst (fileManager.cleanupOldFiles cfg now w)) = disk w2
                  ∧ snd (fileManager.cleanupOldFiles cfg now w) = Returned tt
              | Thrown e =>
                  fileManager.cleanupOldFiles cfg now w
                  = ({| disk := disk w2;
                        console := console w2 ++
                                   [console_error "Error during cleanup:" e] |},
                     Returned tt)
              | Hung => False
              end
      | Thrown e =>
          fileManager.cleanupOldFiles cfg now w
          = ({| disk := disk w1;
                console := console w1 ++
                           [console_error "Error during cleanup:" e] |},
             Returned tt)
      | Hung => False
      end.
Proof.
  unfold fileManager.cleanupOldFiles, try_catch, mbind, M_bind, mret, M_ret, print.
  destruct (fileManager._cleanDirectory cfg (upload_uploadDir cfg) now w)
    as [w1 [c1|e|]] eqn:H1; exists w1; eexists; (split; [reflexivity|]).
  - destruct (fileManager._cleanDirectory cfg (upload_compressedDir cfg) now w1)
      as [w2 [c2|e|]] eqn:H2; exists w2; eexists; (split; [reflexivity|]).
    + destruct (0 <? c1 + c2)%nat; split; reflexivity.
    + reflexivity.
    + exact (cleanDirectory_not_hung _ _ _ H2).
  - reflexivity.
  - exact (cleanDirectory_not_hung _ _ _ H1).
Qed.

Lemma cleanupOldFiles_returns (w : World) :
  snd (fileManager.cleanupOldFiles cfg now w) = Returned tt.
Proof.
  destruct (cleanupOldFiles_passes w) as (w1 & [c1|e|] & H1 & H); try contradiction.
  - destruct H as (w2 & [c2|e|] & H2 & H); try contradiction.
    + apply H.
    + rewrite H. reflexivity.
  - rewrite H. reflexivity.
Qed.

Lemma cleanupOldFiles_sweeps (w : World) :
  sweeps old w (fst (fileManager.cleanupOldFiles cfg now w)).
Proof.
  destruct (cleanupOldFiles_passes w) as (w1 & [c1|e|] & H1 & H); try contradiction.
  - destruct H as (w2 & [c2|e|] & H2 & H); try contradiction.
    + destruct H as [Hd _].
      apply cleanDirectory_sweeps in H1 as [S1 _], H2 as [S2 _].
      pose proof (sweeps_trans _ _ _ S1 S2) as S.
      intros directory. rewrite Hd. exact (S directory).
    + rewrite H. apply cleanDirectory_sweeps in H1 as [S1 _], H2 as [S2 _].
      exact (sweeps_trans _ _ _ S1 S2).
  - rewrite H. apply cleanDirectory_sweeps in H1 as [S1 _]. exact S1.
Qed.

Lemma cleanupOldFiles_clean (w : World) :
  passable cfg now w (upload_uploadDir cfg) ->
  passable cfg now w (upload_compressedDir cfg) ->
  forall directory d name f,
    directory = upload_uploadDir cfg \/ directory = upload_compressedDir cfg ->
    disk w !! directory = Some d -> entries d !! name = Some f -> old f ->
    exists d', disk (fst (fileManager.cleanupOldFiles cfg now w)) !! directory = Some d'
               ∧ entries d' !! name = None.
Proof.
  intros Su Sc directory d name f Hdir Hd Hf Hold.
  destruct (cleanDirectory_clean _ w Su) as (w1 & c1 & H1 & G1).
  pose proof (cleanDirectory_sweeps _ _ _ _ H1) as [S1 _].
  pose proof (sweeps_passable _ _ _ S1 Sc) as Sc1.
  destruct (cleanDirectory_clean _ w1 Sc1) as (w2 & c2 & H2 & G2).
  pose proof (cleanDirectory_sweeps _ _ _ _ H2) as [S2 _].
  destruct (cleanupOldFiles_passes w) as (w1' & r1 & H1' & H).
  rewrite H1 in H1'. injection H1' as <- <-.
  destruct H as (w2' & r2 & H2' & H).
  rewrite H2 in H2'. injection H2' as <- <-.
  destruct H as [-> _].
  (* the entry in the world between the two passes *)
  pose proof (S1 directory) as T1. rewrite Hd in T1.
  destruct (disk w1 !! directory) as [d1|] eqn:Hd1; [|contradiction].
  destruct T1 as [_ T1]. specialize (T1 name).
  pose proof (S2 directory) as T2. rewrite Hd1 in T2.
  destruct (disk w2 !! directory) as [d2|] eqn:Hd2; [|contradiction].
  destruct T2 as [_ T2]. specialize (T2 name).
  exists d2. split; [reflexivity|].
  destruct (entries d2 !! name) as [f2|] eqn:Hf2; [exfalso|reflexivity].
  rewrite T2 in T1. rewrite Hf in T1. injection T1 as <-.
  destruct Hdir as [->| ->].
  - destruct (G1 d name f Hd Hf Hold) as (d1' & Hd1' & Hn).
    rewrite Hd1 in Hd1'. injection Hd1' as <-. congruence.
  - destruct (G2 d1 name f Hd1 T2 Hold) as (d2' & Hd2' & Hn).
    rewrite Hd2 in Hd2'. injection Hd2' as <-. congruence.
Qed.

End Sweep.




(** ** Errors during a sweep *)

Lemma cleanDirectory_thrown (cfg : Config) (now : Qc) (directory : string)
    (w w' : World) (e : Error) :
  fileManager._cleanDirectory cfg directory now w = (w', Thrown e) ->
  has_code e "ENOENT" = false.
Proof.
  unfold fileManager._cleanDirectory.
  destruct (fs.readdir directory w) as [w1 [files|e1|]].
  - destruct (fileManager.clean_loop _ _ _ _ _ _) as [w2 [count [[]|e2|]]].
    + discriminate.
    + destruct (has_code e2 "ENOENT") eqn:E; cbn [negb].
      * discriminate.
      * intros [= _ <-]. exact E.
    + discriminate.
  - destruct (has_code e1 "ENOENT") eqn:E; cbn [negb].
    + discriminate.
    + intros [= _ <-]. exact E.
  - discriminate.
Qed.

(** C8, as the code has it.  Inside a pass over one directory an error
    with code ENOENT is swallowed, whether it comes from the listing of a
    directory that is absent or from [stat] or [unlink] on an entry that
    was listed: the pass ends there and returns the number of files it has
    deleted so far.  Every error with another code, of [readdir], [stat] or
    [unlink], leaves the pass as an exception.  The sweep catches it, logs
    it and returns normally: it never throws. *)
Theorem sweep_error_handling (cfg : Config) (now : Qc) (w : World) :
  (forall directory w' e,
      fileManager._cleanDirectory cfg directory now w = (w', Thrown e) ->
      has_code e "ENOENT" = false)
  ∧ (forall directory,
        disk w !! directory = None ->
        fileManager._cleanDirectory cfg directory now w = (w, Returned 0%nat))
  ∧ (forall directory w1 e,
        fs.readdir directory w = (w1, Thrown e) ->
        fileManager._cleanDirectory cfg directory now w
        = (w1, if has_code e "ENOENT" then Returned 0%nat else Thrown e))
  ∧ (forall directory files w1 w2 count e,
        fs.readdir directory w = (w1, Returned files) ->
        fileManager.clean_loop cfg directory now files 0 w1
        = (w2, (count, Thrown e)) ->
        fileManager._cleanDirectory cfg directory now w
        = (w2, if has_code e "ENOENT" then Returned count else Thrown e))
  ∧ snd (fileManager.cleanupOldFiles cfg now w) = Returned tt
  ∧ (forall w1 e,
        fileManager._cleanDirectory cfg (upload_uploadDir cfg) now w
        = (w1, Thrown e) ->
        fileManager.cleanupOldFiles cfg now w
        = ({| disk := disk w1;
              console := console w1 ++
                         [console_error "Error during cleanup:" e] |},
           Returned tt))
  ∧ (forall w1 c1 w2 e,
        fileManager._cleanDirectory cfg (upload_uploadDir cfg) now w
        = (w1, Returned c1) ->
        fileManager._cleanDirectory cfg (upload_compressedDir cfg) now w1
        = (w2, Thrown e) ->
        fileManager.cleanupOldFiles cfg now w
        = ({| disk := disk w2;
              console := console w2 ++
                         [console_error "Error during cleanup:" e] |},
           Returned tt)).
Proof.
  split; [intros directory w' e; apply cleanDirectory_thrown|].
  split.
  { intros directory Hd. unfold fileManager._cleanDirectory, fs.readdir.
    rewrite Hd. reflexivity. }
  split.
  { intros directory w1 e Hr. unfold fileManager._cleanDirectory.
    rewrite Hr. destruct (has_code e "ENOENT"); reflexivity. }
  split.
  { intros directory files w1 w2 count e Hr Hl.
    unfold fileManager._cleanDirectory. rewrite Hr, Hl.
    destruct (has_code e "ENOENT"); reflexivity. }
  split; [apply cleanupOldFiles_returns|].
  split.
  - intros w1 e H1.
    destruct (cleanupOldFiles_passes cfg now w) as (w1' & r1 & H1' & H).
    rewrite H1 in H1'. injection H1' as <- <-. exact H.
  - intros w1 c1 w2 e H1 H2.
    destruct (cleanupOldFiles_passes cfg now w) as (w1' & r1 & H1' & H).
    rewrite H1 in H1'. injection H1' as <- <-.
    destruct H as (w2' & r2 & H2' & H).
    rewrite H2 in H2'. injection H2' as <- <-. exact H.
Qed.

Lemma sweep_error_handling_witness :
  exists w1,
    fileManager.cleanupOldFiles config (Qc_of_Z sample_now)
      world_with_subdirectory
    = ({| disk := disk w1;
          console :=
            console w1 ++
            [console_error "Error during cleanup:"
               {| code := Some "EISDIR";
                  message := "EISDIR: illegal operation on a directory, unlink" |}] |},
       Returned tt).
Proof.
  exists (fst (fileManager._cleanDirectory config (upload_uploadDir config)
                 (Qc_of_Z sample_now) world_with_subdirectory)).
  apply (proj1 (proj2 (proj2 (proj2 (proj2 (proj2
           (sweep_error_handling config (Qc_of_Z sample_now)
              world_with_subdirectory))))))).
  vm_compute. reflexivity.
Defined.

(** C8 as stated fails for an error that is not the absence of the
    directory.  The upload directory is there, and it lists a link whose
    target is gone: [stat] fails on it with ENOENT.  The pass swallows that
    error like the one of a missing directory and ends there, with the
    count it has reached; the error does not reach the sweep, which logs
    nothing about it and goes on with the output directory. *)
Lemma sweep_swallows_the_error_of_an_entry :
  is_Some (disk world_with_dangling_link !! "uploads")
  ∧ snd (fs.stat (path_join "uploads" "latest.pdf") world_with_dangling_link)
    = Thrown (fs.ENOENT "stat" "uploads/latest.pdf")
  ∧ fileManager._cleanDirectory config "uploads" (Qc_of_Z sample_now)
      world_with_dangling_link
    = (world_with_dangling_link, Returned 0%nat)
  ∧ console (fst (fileManager.cleanupOldFiles config (Qc_of_Z sample_now)
                    world_with_dangling_link))
    = [console_log "✓ Cleaned up 1 old file(s)"].
Proof.
  split; [eexists; vm_compute; reflexivity|].
  repeat split; vm_compute; reflexivity.
Qed.

(** ** The result of a compression *)

(** C10.  Whenever [compress] returns a result, its [savedBytes] is
    [originalBytes - compressedBytes], which is negative when the output is
    larger than the input, while its [compressionRatio], computed from the
    same two counts, is not negative: for a non-empty input and sizes below
    2^53 it is 0 whenever the output is not smaller than the input. *)
Theorem compress_savedBytes (cfg : Config) (host : pdfCompressor.Host)
    (inputPath outputPath : Path) (w w' : World)
    (r : pdfCompressor.CompressionResult) :
  pdfCompressor.compress cfg host inputPath outputPath w = (w', Returned r) ->
  pdfCompressor.savedBytes r
    = pdfCompressor.originalBytes r - pdfCompressor.compressedBytes r
  ∧ pdfCompressor.compressionRatio r
    = pdfCompressor._calculateCompressionRatio
        (pdfCompressor.originalBytes r) (pdfCompressor.compressedBytes r)
  ∧ Number.ltb (pdfCompressor.compressionRatio r) Number.zero = false
  ∧ (pdfCompressor.originalBytes r < pdfCompressor.compressedBytes r ->
     pdfCompressor.savedBytes r < 0)
  ∧ (0 < pdfCompressor.originalBytes r < 2 ^ 53 ->
     pdfCompressor.originalBytes r <= pdfCompressor.compressedBytes r < 2 ^ 53 ->
     pdfCompressor.compressionRatio r = Number.zero).
Proof.
  unfold pdfCompressor.compress, try_catch, mbind, M_bind, mret, M_ret, throw.
  destruct (fileManager.getFileSize inputPath w) as [w1 [o|e|]].
  2: { destruct (JSString.includes _ _); discriminate. }
  2: { discriminate. }
  destruct (pdfCompressor._executeGhostscript cfg host _ w1) as [w2 [[]|e|]].
  2: { destruct (JSString.includes _ _); discriminate. }
  2: { discriminate. }
  destruct (fileManager.getFileSize outputPath w2) as [w3 [c|e|]].
  2: { destruct (JSString.includes _ _); discriminate. }
  2: { discriminate. }
  intros [= _ <-]. cbn.
  split; [reflexivity|]. split; [reflexivity|].
  split; [apply calculateCompressionRatio_not_negative|].
  split; [lia | apply calculateCompressionRatio_floor].
Qed.

Lemma compress_savedBytes_witness :
  exists r,
    snd (pdfCompressor.compress config host_with_configured_gs
           (path_join "uploads" "upload-1.pdf")
           (path_join "compressed" "compupload-1-1700000000000.pdf")
           sample_world) = Returned r
    ∧ pdfCompressor.originalBytes r = 1000
    ∧ pdfCompressor.compressedBytes r = 1500
    ∧ pdfCompressor.savedBytes r < 0
    ∧ pdfCompressor.compressionRatio r = Number.zero.
Proof.
  set (run := pdfCompressor.compress config host_with_configured_gs
                (path_join "uploads" "upload-1.pdf")
                (path_join "compressed" "compupload-1-1700000000000.pdf")
                sample_world).
  set (r := {| pdfCompressor.result_success := true;
               pdfCompressor.originalSize := "1000 Bytes";
               pdfCompressor.compressedSize := "1.46 KB";
               pdfCompressor.originalBytes := 1000;
               pdfCompressor.compressedBytes := 1500;
               pdfCompressor.compressionRatio := Number.zero;
               pdfCompressor.savedBytes := -500;
               pdfCompressor.savedFormatted := "NaN undefined" |}).
  assert (E : run = (fst run, Returned r)) by (vm_compute; reflexivity).
  exists r. split; [rewrite E; reflexivity|].
  split; [reflexivity|]. split; [reflexivity|]. split; [|reflexivity].
  apply (compress_savedBytes _ _ _ _ _ _ _ E). reflexivity.
Defined.

(** ** The walk over the candidates *)

(** C1 on a Linux host where the configured Windows path does not exist and
    [gs] is installed.  By the specification the walk goes past the missing
    first candidate, runs [gs], and succeeds without trying another one.  In
    the code the first child, which cannot be spawned, emits ['error'] and,
    later, ['close']: the first handler spawns [gs]; the second, finding a
    non-zero code while [gs] still runs, advances again and spawns
    [gswin64c]; the two spawn failures that follow exhaust the list, and
    the promise is rejected with the error that says that Ghostscript was
    not found, before [gs] has finished.  All four candidates are
    spawned. *)
Theorem executeGhostscript_skips_a_working_candidate :
  let candidates := pdfCompressor.gsCommands config linux_with_gs in
  let w := pdfCompressor.walk config linux_with_gs ["--version"] ∅ in
  candidates
  = [ "D:\ghostscriptforpdftool\gs10.06.0\bin\gswin64c.exe";
      "gs"; "gswin64c"; "gswin32c" ]
  ∧ spec.sequential_walk
      (fun command => pdfCompressor.spawn linux_with_gs command ["--version"])
      candidates
    = ([ "D:\ghostscriptforpdftool\gs10.06.0\bin\gswin64c.exe"; "gs" ],
       Some pdfCompressor.Resolved)
  ∧ pdfCompressor.promise w
    = Some (pdfCompressor.Rejected pdfCompressor.not_found)
  ∧ pdfCompressor.spawned w = candidates
  ∧ pdfCompressor.ticks w = [] ∧ pdfCompressor.polled w = []
  ∧ snd (pdfCompressor._executeGhostscript config linux_with_gs ["--version"]
           sample_world)
    = Thrown pdfCompressor.not_found.
Proof. repeat split; vm_compute; reflexivity. Qed.

(** *** The events that arrive *)

Lemma arrival_split (i : nat) (l rest : list pdfCompressor.ChildEvent)
    (ev : pdfCompressor.ChildEvent) :
  pdfCompressor.arrival i l = Some (ev, rest) ->
  exists l1 l2, l = l1 ++ ev :: l2 ∧ rest = l1 ++ l2.
Proof.
  unfold pdfCompressor.arrival. destruct (l !! i) as [x|] eqn:E.
  - intros [= <- <-]. exists (take i l), (drop (S i) l). split.
    + symmetry. apply take_drop_middle. exact E.
    + apply delete_take_drop.
  - destruct l as [|x l]; [discriminate|].
    intros [= <- <-]. exists [], l. split; reflexivity.
Qed.

Lemma arrival_nil (i : nat) (l : list pdfCompressor.ChildEvent) :
  pdfCompressor.arrival i l = None -> l = [].
Proof.
  unfold pdfCompressor.arrival. destruct (l !! i); [discriminate|].
  destruct l; [reflexivity | discriminate].
Qed.

Lemma arrival_single (i : nat) (ev : pdfCompressor.ChildEvent) :
  pdfCompressor.arrival i [ev] = Some (ev, []).
Proof. destruct i as [|i]; reflexivity. Qed.

Lemma run_idle (cfg : Config) (host : pdfCompressor.Host)
    (args : list string) (fuel : nat) (awaiting : bool)
    (w : pdfCompressor.Walk) :
  pdfCompressor.ticks w = [] -> pdfCompressor.polled w = [] ->
  pdfCompressor.run cfg host args fuel awaiting w = w.
Proof.
  intros Ht Hp. destruct fuel; cbn [pdfCompressor.run]; [reflexivity|].
  rewrite Ht, Hp. destruct (awaiting && _); reflexivity.
Qed.

Lemma run_settled (cfg : Config) (host : pdfCompressor.Host)
    (args : list string) (fuel : nat) (w : pdfCompressor.Walk) :
  is_Some (pdfCompressor.promise w) ->
  pdfCompressor.run cfg host args fuel true w = w.
Proof.
  intros Hs. destruct fuel; cbn [pdfCompressor.run]; [reflexivity|].
  rewrite bool_decide_eq_true_2 by exact Hs. reflexivity.
Qed.

(** One step of the loop, on the event of the next tick. *)
Lemma run_tick (cfg : Config) (host : pdfCompressor.Host)
    (args : list string) (fuel : nat) (awaiting : bool)
    (w : pdfCompressor.Walk) (ev : pdfCompressor.ChildEvent)
    (rest : list pdfCompressor.ChildEvent) :
  pdfCompressor.promise w = None ->
  pdfCompressor.ticks w = ev :: rest ->
  pdfCompressor.run cfg host args (S fuel) awaiting w
  = pdfCompressor.run cfg host args fuel awaiting
      (pdfCompressor.deliver cfg host args ev (pdfCompressor.take_tick rest w)).
Proof.
  intros Hp Ht. cbn [pdfCompressor.run]. rewrite Hp, Ht.
  rewrite bool_decide_eq_false_2 by (intros [? [=]]).
  rewrite andb_false_r. reflexivity.
Qed.

(** One step of the loop, when a single ['close'] is outstanding. *)
Lemma run_single (cfg : Config) (host : pdfCompressor.Host)
    (args : list string) (fuel : nat) (awaiting : bool)
    (w : pdfCompressor.Walk) (ev : pdfCompressor.ChildEvent) :
  awaiting && bool_decide (is_Some (pdfCompressor.promise w)) = false ->
  pdfCompressor.ticks w = [] ->
  pdfCompressor.polled w = [ev] ->
  pdfCompressor.run cfg host args (S fuel) awaiting w
  = pdfCompressor.run cfg host args fuel awaiting
      (pdfCompressor.deliver cfg host args ev (pdfCompressor.take_polled [] w)).
Proof.
  intros Ha Ht Hp. cbn [pdfCompressor.run]. rewrite Ha, Ht, Hp.
  rewrite arrival_single. reflexivity.
Qed.

Section Termination.

Import pdfCompressor.

Variable cfg : Config.
Variable host : Host.
Variable args : list string.

Let len := length (gsCommands cfg host).
Let mu := walk_measure cfg host.

Lemma settle_promise (s : Settlement) (w : Walk) : promise (settle s w) <> None.
Proof.
  unfold settle. destruct (promise w) eqn:E; [rewrite E|]; discriminate.
Qed.

Lemma settle_measure (s : Settlement) (w : Walk) : mu (settle s w) = mu w.
Proof. unfold settle. destruct (promise w); reflexivity. Qed.

Lemma tryCommand_next_measure (w : Walk) :
  (mu (tryCommand cfg host args (next_index w)) <= mu w)%nat.
Proof.
  unfold tryCommand.
  destruct (length _ <=? currentCommandIndex (next_index w))%nat eqn:E.
  - rewrite settle_measure. unfold mu, walk_measure. cbn. lia.
  - apply Nat.leb_gt in E. cbn in E.
    destruct (spawn host _ args); unfold mu, walk_measure; cbn;
      rewrite ?length_app; cbn; lia.
Qed.

Lemma deliver_measure (ev : ChildEvent) (w : Walk) :
  (mu (deliver cfg host args ev w) <= mu w)%nat.
Proof.
  assert (Hs : forall s w', (mu (settle s w') <= mu w')%nat)
    by (intros s w'; rewrite settle_measure; reflexivity).
  destruct ev as [e|exitCode stderr writes]; cbn [deliver].
  - unfold on_error. destruct (has_code e "ENOENT");
      [apply tryCommand_next_measure | apply Hs].
  - change (mu w) with (mu (wrote writes w)).
    unfold on_close.
    destruct exitCode as [[|p|p]|]; try apply Hs;
      (destruct (_ <? _)%nat; [apply tryCommand_next_measure | apply Hs]).
Qed.

Lemma start_measure (d : gmap string Directory) :
  (mu (start cfg host args d) <= 2 * len)%nat.
Proof.
  unfold start, tryCommand. cbn [currentCommandIndex].
  destruct (length _ <=? 0)%nat eqn:E.
  - rewrite settle_measure. unfold mu, walk_measure, len. cbn. lia.
  - apply Nat.leb_gt in E.
    destruct (spawn host _ args); unfold mu, walk_measure, len; cbn;
      fold (gsCommands cfg host); lia.
Qed.

(** Within the fuel of [walk] every event has been delivered. *)
Lemma run_drains (fuel : nat) :
  forall w : Walk,
    (mu w <= fuel)%nat ->
    ticks (run cfg host args fuel false w) = []
    ∧ polled (run cfg host args fuel false w) = [].
Proof.
  induction fuel as [|fuel IH]; intros w Hm.
  - cbn [run]. unfold mu, walk_measure in Hm.
    split; [destruct (ticks w) | destruct (polled w)];
      try reflexivity; cbn [length] in Hm; lia.
  - cbn [run andb].
    destruct (ticks w) as [|ev rest] eqn:Ht.
    + destruct (arrival _ (polled w)) as [[ev rest]|] eqn:Ha.
      * apply arrival_split in Ha as (l1 & l2 & Hp & ->).
        apply IH.
        pose proof (deliver_measure ev (take_polled (l1 ++ l2) w)) as Hd.
        assert (mu (take_polled (l1 ++ l2) w) < mu w)%nat.
        { unfold mu, walk_measure. cbn. rewrite Hp, !length_app. cbn. lia. }
        lia.
      * apply arrival_nil in Ha. split; assumption.
    + apply IH.
      pose proof (deliver_measure ev (take_tick rest w)) as Hd.
      assert (mu (take_tick rest w) < mu w)%nat
        by (unfold mu, walk_measure; cbn; rewrite Ht; cbn; lia).
      lia.
Qed.

(** *** When every child exits *)

Hypothesis every_child_exits : all_exit cfg host args.

Lemma tryCommand_live (w : Walk) : walk_live (tryCommand cfg host args w).
Proof.
  unfold tryCommand, walk_live.
  destruct (length _ <=? currentCommandIndex w)%nat eqn:E.
  - intros H. exfalso. exact (settle_promise _ _ H).
  - apply Nat.leb_gt in E.
    pose proof (every_child_exits _ (nth_In (gsCommands cfg host) "undefined" E))
      as Hx.
    destruct (spawn host _ args); cbn; intros _;
      [left | right | contradiction];
      apply not_eq_sym, app_cons_not_nil.
Qed.

Lemma deliver_live (ev : ChildEvent) (w : Walk) :
  walk_live (deliver cfg host args ev w).
Proof.
  assert (Hs : forall s w', walk_live (settle s w'))
    by (intros s w' H; exfalso; exact (settle_promise _ _ H)).
  destruct ev as [e|exitCode stderr writes]; cbn [deliver].
  - unfold on_error. destruct (has_code e "ENOENT");
      [apply tryCommand_live | apply Hs].
  - unfold on_close.
    destruct exitCode as [[|p|p]|]; try apply Hs;
      (destruct (_ <? _)%nat; [apply tryCommand_live | apply Hs]).
Qed.

Lemma run_ends (awaiting : bool) (fuel : nat) :
  forall w : Walk,
    walk_live w -> (mu w <= fuel)%nat ->
    promise (run cfg host args fuel awaiting w) <> None.
Proof.
  induction fuel as [|fuel IH]; intros w L Hm.
  - cbn [run].
    unfold mu, walk_measure in Hm.
    assert (Ht : ticks w = [])
      by (destruct (ticks w); [reflexivity | cbn [length] in Hm; lia]).
    assert (Hp : polled w = [])
      by (destruct (polled w); [reflexivity | cbn [length] in Hm; lia]).
    intros N. destruct (L N); contradiction.
  - cbn [run].
    destruct (awaiting && bool_decide (is_Some (promise w))) eqn:Hstop.
    + apply andb_prop in Hstop as [_ Hsome].
      apply bool_decide_eq_true in Hsome as [s Hs].
      rewrite Hs. discriminate.
    + destruct (ticks w) as [|ev rest] eqn:Ht.
      * destruct (arrival _ (polled w)) as [[ev rest]|] eqn:Ha.
        -- apply arrival_split in Ha as (l1 & l2 & Hp & ->).
           apply IH; [apply deliver_live|].
           pose proof (deliver_measure ev (take_polled (l1 ++ l2) w)) as Hd.
           assert (mu (take_polled (l1 ++ l2) w) < mu w)%nat.
           { unfold mu, walk_measure. cbn. rewrite Hp, !length_app. cbn. lia. }
           lia.
        -- apply arrival_nil in Ha.
           intros N. destruct (L N); contradiction.
      * apply IH; [apply deliver_live|].
        pose proof (deliver_measure ev (take_tick rest w)) as Hd.
        assert (mu (take_tick rest w) < mu w)%nat
          by (unfold mu, walk_measure; cbn; rewrite Ht; cbn; lia).
        lia.
Qed.

Lemma executeGhostscript_not_hung (world : World) :
  snd (_executeGhostscript cfg host args world) <> Hung.
Proof.
  pose proof (run_ends true _ _ (tryCommand_live _)
                (start_measure (disk world))) as Hs.
  unfold _executeGhostscript. cbn [snd]. revert Hs. fold len.
  unfold start.
  destruct (promise _) as [[|reason]|]; intros Hs;
    [discriminate | discriminate | contradiction].
Qed.

End Termination.

Lemma gsCommands_not_nil (cfg : Config) (host : pdfCompressor.Host) :
  pdfCompressor.gsCommands cfg host <> [].
Proof.
  unfold pdfCompressor.gsCommands. intros H. apply app_eq_nil in H as [_ H].
  discriminate H.
Qed.

Lemma start_first (cfg : Config) (host : pdfCompressor.Host)
    (args : list string) (d : gmap string Directory) (c : string)
    (rest : list string) :
  pdfCompressor.gsCommands cfg host = c :: rest ->
  pdfCompressor.start cfg host args d
  = match pdfCompressor.spawn host c args with
    | pdfCompressor.SpawnFailed error errno =>
        {| pdfCompressor.currentCommandIndex := 0;
           pdfCompressor.spawned := [c];
           pdfCompressor.promise := None;
           pdfCompressor.ticks := [pdfCompressor.error_event error];
           pdfCompressor.polled :=
             [pdfCompressor.close_event (Some errno) "" id];
           pdfCompressor.files := d |}
    | pdfCompressor.Started exitCode stderr writes =>
        {| pdfCompressor.currentCommandIndex := 0;
           pdfCompressor.spawned := [c];
           pdfCompressor.promise := None;
           pdfCompressor.ticks := [];
           pdfCompressor.polled :=
             [pdfCompressor.close_event exitCode stderr writes];
           pdfCompressor.files := d |}
    | pdfCompressor.NeverExits =>
        {| pdfCompressor.currentCommandIndex := 0;
           pdfCompressor.spawned := [c];
           pdfCompressor.promise := None;
           pdfCompressor.ticks := [];
           pdfCompressor.polled := [];
           pdfCompressor.files := d |}
    end.
Proof.
  intros Hc. unfold pdfCompressor.start, pdfCompressor.tryCommand.
  rewrite Hc. cbn. destruct (pdfCompressor.spawn host c args); reflexivity.
Qed.

Section Sequential.

Import pdfCompressor.

Variable cfg : Config.
Variable host : Host.
Variable args : list string.

Let cmds := gsCommands cfg host.
Let outcome := fun command => spawn host command args.

Hypothesis all_start :
  forall command, In command cmds ->
    exists exitCode stderr writes,
      spawn host command args = Started exitCode stderr writes.

Lemma sequential_walk_started (f : string -> SpawnOutcome) (c : string)
    (rest : list string) exitCode stderr writes :
  f c = Started exitCode stderr writes ->
  spec.sequential_walk f (c :: rest)
  = match exitCode with
    | Some 0 => ([c], Some Resolved)
    | _ =>
        match rest with
        | [] =>
            ([c],
             Some (Rejected
                     (new_Error ("Ghostscript exited with code " +:+
                                 code_text exitCode +:+ ": " +:+ stderr))))
        | _ => (c :: fst (spec.sequential_walk f rest),
                snd (spec.sequential_walk f rest))
        end
    end.
Proof.
  intros H. cbn [spec.sequential_walk]. rewrite H.
  destruct exitCode as [[|p|p]|]; try reflexivity;
    destruct rest; try reflexivity;
    destruct (spec.sequential_walk f _); reflexivity.
Qed.

Lemma walk_from (rest : list string) :
  forall (done : list string) (c : string) (fuel : nat) (pre : list string)
         (F : gmap string Directory) exitCode stderr writes,
    cmds = done ++ c :: rest ->
    spawn host c args = Started exitCode stderr writes ->
    (length rest < fuel)%nat ->
    let w := run cfg host args fuel false
               {| currentCommandIndex := length done;
                  spawned := pre ++ [c];
                  promise := None;
                  ticks := [];
                  polled := [close_event exitCode stderr writes];
                  files := F |} in
    promise w = snd (spec.sequential_walk outcome (c :: rest))
    ∧ spawned w = pre ++ fst (spec.sequential_walk outcome (c :: rest)).
Proof.
  induction rest as [|c' rest' IH];
    intros done c fuel pre F exitCode stderr writes Hc Hs Hf w; subst w;
    (destruct fuel as [|fuel]; [lia|]);
    rewrite (run_single cfg host args fuel false _
               (close_event exitCode stderr writes))
      by reflexivity;
    cbn [deliver take_polled wrote currentCommandIndex
         spawned promise files ticks polled];
    (assert (Ho : outcome c = Started exitCode stderr writes) by exact Hs);
    rewrite (sequential_walk_started outcome c _ _ _ _ Ho).
  - (* the last candidate *)
    assert (Hlast : (length done <? length (gsCommands cfg host) - 1)%nat = false).
    { fold cmds. rewrite Hc, length_app. cbn [length].
      apply Nat.ltb_ge. lia. }
    unfold on_close, wrote, take_polled.
    cbn [currentCommandIndex spawned promise ticks polled files].
    rewrite Hlast.
    destruct exitCode as [[|p|p]|]; unfold settle; cbn [promise];
      rewrite run_idle by reflexivity; cbn; split; reflexivity.
  - assert (Hmore : (length done <? length (gsCommands cfg host) - 1)%nat = true).
    { fold cmds. rewrite Hc, length_app. cbn [length].
      apply Nat.ltb_lt. lia. }
    assert (Hin : (length (gsCommands cfg host) <=? S (length done))%nat = false).
    { fold cmds. rewrite Hc, length_app. cbn [length].
      apply Nat.leb_gt. lia. }
    assert (Hnth : nth (S (length done)) (gsCommands cfg host) "undefined" = c').
    { fold cmds. rewrite Hc.
      change (done ++ c :: c' :: rest') with (done ++ [c] ++ c' :: rest').
      rewrite app_assoc.
      replace (S (length done)) with (length (done ++ [c]))
        by (rewrite length_app; cbn [length]; lia).
      apply nth_middle. }
    destruct (all_start c') as (code' & stderr' & writes' & Hs').
    { rewrite Hc. apply in_or_app. right. right. left. reflexivity. }
    assert (Hc' : cmds = (done ++ [c]) ++ c' :: rest')
      by (rewrite Hc, <- app_assoc; reflexivity).
    assert (Hlen : S (length done) = length (done ++ [c]))
      by (rewrite length_app; cbn [length]; lia).
    assert (Hf' : (length rest' < fuel)%nat) by (cbn [length] in Hf; lia).
    pose proof (fun F' => IH (done ++ [c]) c' fuel (pre ++ [c]) F'
                            code' stderr' writes' Hc' Hs' Hf') as Hrec.
    cbv zeta in Hrec.
    set (tail := spec.sequential_walk outcome (c' :: rest')) in *.
    assert (Hstep :
      run cfg host args fuel false
        (tryCommand cfg host args
           (next_index
              {| currentCommandIndex := length done;
                 spawned := pre ++ [c];
                 promise := None;
                 ticks := [];
                 polled := [];
                 files := writes F |}))
      = run cfg host args fuel false
          {| currentCommandIndex := length (done ++ [c]);
             spawned := (pre ++ [c]) ++ [c'];
             promise := None;
             ticks := [];
             polled := [close_event code' stderr' writes'];
             files := writes F |}).
    { unfold tryCommand, next_index.
      cbn [currentCommandIndex spawned promise ticks polled files].
      rewrite Hin, Hnth, Hs', Hlen. reflexivity. }
    unfold on_close, wrote, take_polled.
    cbn [currentCommandIndex spawned promise ticks polled files].
    rewrite Hmore.
    destruct exitCode as [[|p|p]|].
    + unfold settle; cbn [promise].
      rewrite run_idle by reflexivity. cbn. split; reflexivity.
    + rewrite Hstep. destruct (Hrec (writes F)) as [Hp Hsp].
      rewrite Hp, Hsp. cbn [fst snd].
      rewrite <- app_assoc. split; reflexivity.
    + rewrite Hstep. destruct (Hrec (writes F)) as [Hp Hsp].
      rewrite Hp, Hsp. cbn [fst snd].
      rewrite <- app_assoc. split; reflexivity.
    + rewrite Hstep. destruct (Hrec (writes F)) as [Hp Hsp].
      rewrite Hp, Hsp. cbn [fst snd].
      rewrite <- app_assoc. split; reflexivity.
Qed.

Lemma gsCommands_cons : exists c rest, cmds = c :: rest.
Proof.
  unfold cmds, gsCommands.
  destruct (match compression_ghostscriptPath cfg with
            | Some p => if String.eqb p "" then [] else [p]
            | None => []
            end) as [|p l]; eexists; eexists; reflexivity.
Qed.

Lemma walk_sequential_section (d : gmap string Directory) :
  promise (walk cfg host args d)
  = snd (spec.sequential_walk outcome cmds)
  ∧ spawned (walk cfg host args d) = fst (spec.sequential_walk outcome cmds).
Proof.
  destruct gsCommands_cons as (c & rest & Hc).
  destruct (all_start c) as (code & stderr & writes & Hs);
    [rewrite Hc; left; reflexivity|].
  unfold walk, start, tryCommand. cbn [currentCommandIndex].
  change (gsCommands cfg host) with cmds. rewrite Hc.
  cbn [length Nat.leb nth].
  rewrite Hs.
  apply (walk_from rest [] c _ [] d code stderr writes).
  - exact Hc.
  - exact Hs.
  - cbn [length]. lia.
Qed.

End Sequential.

(** When every candidate can be spawned, the code does what the
    specification describes: the candidates are run one at a time in the
    order of the list, a non-zero exit of a candidate that is not the last
    one leads to the next, the first zero exit resolves the promise and
    nothing more is tried, and a non-zero exit of the last candidate
    rejects with the exit-code message. *)
Theorem walk_is_sequential_when_all_start (cfg : Config)
    (host : pdfCompressor.Host) (args : list string)
    (d : gmap string Directory) :
  (forall command, In command (pdfCompressor.gsCommands cfg host) ->
     exists exitCode stderr writes,
       pdfCompressor.spawn host command args
       = pdfCompressor.Started exitCode stderr writes) ->
  pdfCompressor.promise (pdfCompressor.walk cfg host args d)
  = snd (spec.sequential_walk
           (fun command => pdfCompressor.spawn host command args)
           (pdfCompressor.gsCommands cfg host))
  ∧ pdfCompressor.spawned (pdfCompressor.walk cfg host args d)
    = fst (spec.sequential_walk
             (fun command => pdfCompressor.spawn host command args)
             (pdfCompressor.gsCommands cfg host)).
Proof. intros H. exact (walk_sequential_section cfg host args H d). Qed.

Lemma walk_is_sequential_when_all_start_witness :
  pdfCompressor.promise
    (pdfCompressor.walk config host_all_start ["--version"] ∅)
  = Some pdfCompressor.Resolved
  ∧ pdfCompressor.spawned
      (pdfCompressor.walk config host_all_start ["--version"] ∅)
    = [ "D:\ghostscriptforpdftool\gs10.06.0\bin\gswin64c.exe"; "gs" ].
Proof.
  apply (walk_is_sequential_when_all_start config host_all_start
           ["--version"] ∅).
  intros command _. cbn [pdfCompressor.spawn host_all_start].
  destruct (String.eqb command "gs"); eauto.
Defined.

(* ===================================================================== *)
(** * Further properties of the code *)
(* ===================================================================== *)

(** ** Deleting and probing a file *)

Lemma inode_disk (p : Path) (w w' : World) :
  disk w' = disk w -> inode p w' = inode p w.
Proof. unfold inode, fs.lookup. intros ->. reflexivity. Qed.

Lemma inode_unlinked (p q : Path) (w w' : World) (d : Directory) :
  disk w !! dirname p = Some d ->
  disk w' = <[dirname p :=
                {| readdir_fault := readdir_fault d;
                   entries := delete (basename p) (entries d) |}]> (disk w) ->
  inode p w' = None ∧ (q <> p -> inode q w' = inode q w).
Proof.
  intros Hd Hw'. unfold inode, fs.lookup. rewrite Hw'.
  destruct p as [pd pb], q as [qd qb]. cbn [dirname basename] in *.
  split.
  - rewrite lookup_insert_eq. cbn [entries]. rewrite lookup_delete_eq.
    reflexivity.
  - intros Hq. destruct (decide (qd = pd)) as [->|Hdir].
    + rewrite lookup_insert_eq, Hd. cbn [entries].
      rewrite lookup_delete_ne by congruence.
      destruct (entries d !! qb); reflexivity.
    + rewrite lookup_insert_ne by congruence. reflexivity.
Qed.

Lemma inode_lookup (p : Path) (w : World) :
  match fs.lookup p w with
  | Some (d, f) => inode p w = Some f ∧ disk w !! dirname p = Some d
  | None => inode p w = None
  end.
Proof.
  unfold inode. destruct (fs.lookup p w) as [[d f]|] eqn:E; cbn.
  - split; [reflexivity|]. apply (lookup_inv _ _ _ _ E).
  - reflexivity.
Qed.

Lemma deleteFile_outcome (p : Path) (w : World) :
  fileManager.deleteFile p w
  = match fs.lookup p w with
    | Some (d, f) =>
        match unlink_fault f with
        | None =>
            ({| disk := <[dirname p :=
                            {| readdir_fault := readdir_fault d;
                               entries := delete (basename p) (entries d) |}]>
                          (disk w);
                console := console w ++
                           [console_log ("✓ Deleted file: " +:+ basename p)] |},
             Returned tt)
        | Some e =>
            ({| disk := disk w;
                console := console w ++
                           [console_error
                              ("Error deleting file " +:+ Path_toString p +:+ ":")
                              e] |},
             Returned tt)
        end
    | None =>
        ({| disk := disk w;
            console := console w ++
                       [console_error
                          ("Error deleting file " +:+ Path_toString p +:+ ":")
                          (fs.ENOENT "unlink" (Path_toString p))] |},
         Returned tt)
    end.
Proof.
  unfold fileManager.deleteFile. run_monad. unfold fs.unlink.
  destruct (fs.lookup p w) as [[d f]|]; [|reflexivity].
  destruct (unlink_fault f); reflexivity.
Qed.

Lemma fileExists_outcome (p : Path) (w : World) :
  fileManager.fileExists p w
  = (w, Returned (bool_decide (is_Some (inode p w)))).
Proof.
  unfold fileManager.fileExists. run_monad. unfold fs.access, inode.
  destruct (fs.lookup p w) as [x|].
  - rewrite bool_decide_eq_true_2 by (cbn; eauto). reflexivity.
  - rewrite bool_decide_eq_false_2 by (cbn; intros [? [=]]). reflexivity.
Qed.

(** X4.  [deleteFile] is a best-effort delete: it always returns, and
    logs one line.  An entry that can be unlinked is gone afterwards, and
    every other path leads to what it led to before; when the entry is
    missing or cannot be unlinked the disk is unchanged and the error is
    logged with the path. *)
Theorem deleteFile_best_effort (p : Path) (w : World) :
  let r := fileManager.deleteFile p w in
  snd r = Returned tt
  ∧ match inode p w with
    | Some f =>
        match unlink_fault f with
        | None =>
            inode p (fst r) = None
            ∧ (forall q, q <> p -> inode q (fst r) = inode q w)
            ∧ console (fst r)
              = console w ++ [console_log ("✓ Deleted file: " +:+ basename p)]
        | Some e =>
            disk (fst r) = disk w
            ∧ console (fst r)
              = console w ++
                [console_error
                   ("Error deleting file " +:+ Path_toString p +:+ ":") e]
        end
    | None =>
        disk (fst r) = disk w
        ∧ console (fst r)
          = console w ++
            [console_error
               ("Error deleting file " +:+ Path_toString p +:+ ":")
               (fs.ENOENT "unlink" (Path_toString p))]
    end.
Proof.
  pose proof (inode_lookup p w) as Hl.
  cbv zeta. rewrite deleteFile_outcome.
  destruct (fs.lookup p w) as [[d f]|].
  - destruct Hl as [-> Hd].
    destruct (unlink_fault f) as [e|]; cbn [fst snd disk console].
    + auto.
    + split; [reflexivity|].
      split; [|split; [|reflexivity]].
      * eapply (inode_unlinked p p); [exact Hd | reflexivity].
      * intros q Hq. eapply (inode_unlinked p q); [exact Hd|reflexivity|exact Hq].
  - rewrite Hl. cbn. auto.
Qed.


(** ** What a sweep counts and reports *)


Lemma unlink_count (directory file : string) (w w' : World) :
  fs.unlink (path_join directory file) w = (w', Returned tt) ->
  entry_count w directory = S (entry_count w' directory)
  ∧ forall other, other <> directory -> disk w' !! other = disk w !! other.
Proof.
  intros H. apply unlink_returned in H as (d & f & Hl & _ & ->).
  apply lookup_inv in Hl as [Hd Hf]. cbn [dirname basename path_join] in *.
  split.
  - unfold entry_count. cbn [disk]. rewrite lookup_insert_eq, Hd.
    cbn [entries].
    rewrite <- (Permutation_length (map_to_list_delete _ _ _ Hf)).
    reflexivity.
  - intros other Ho. cbn [disk]. rewrite lookup_insert_ne by congruence.
    reflexivity.
Qed.

Lemma clean_loop_count (cfg : Config) (now : Qc) (directory : string)
    (files : list string) :
  forall (count count' : nat) (w w' : World) (r : Completion unit),
    fileManager.clean_loop cfg directory now files count w = (w', (count', r)) ->
    (entry_count w directory + count = entry_count w' directory + count')%nat
    ∧ forall other, other <> directory -> disk w' !! other = disk w !! other.
Proof.
  induction files as [|file rest IH]; intros count count' w w' r H;
    cbn [fileManager.clean_loop] in H.
  - injection H as <- <- _. auto.
  - destruct (fs.stat (path_join directory file) w) as [w1 [stats|e|]] eqn:Es;
      pose proof (stat_world _ _ _ _ Es) as ->.
    + destruct (fileManager.expired cfg now stats).
      * destruct (fs.unlink (path_join directory file) w) as [w2 [[]|e|]] eqn:Eu.
        -- apply unlink_count in Eu as [Hc Ho].
           apply IH in H as [Hc' Ho']. split; [lia|].
           intros other Hne. rewrite Ho', Ho by exact Hne. reflexivity.
        -- apply unlink_thrown in Eu as ->. injection H as <- <- _. auto.
        -- exfalso. exact (unlink_not_hung _ _ _ Eu).
      * apply IH in H. exact H.
    + injection H as <- <- _. auto.
    + injection H as <- <- _. auto.
Qed.

Lemma readdir_world (directory : string) (w w' : World)
    (r : Completion (list string)) :
  fs.readdir directory w = (w', r) -> w' = w.
Proof.
  unfold fs.readdir. destruct (disk w !! directory) as [d|].
  - destruct (readdir_fault d); intros [= <- _]; reflexivity.
  - intros [= <- _]. reflexivity.
Qed.

Lemma cleanDirectory_count (cfg : Config) (now : Qc) (directory : string)
    (w w' : World) (r : Completion nat) :
  fileManager._cleanDirectory cfg directory now w = (w', r) ->
  (entry_count w' directory <= entry_count w directory)%nat
  ∧ (forall other, other <> directory -> disk w' !! other = disk w !! other)
  ∧ forall n, r = Returned n ->
      (entry_count w directory = entry_count w' directory + n)%nat.
Proof.
  unfold fileManager._cleanDirectory.
  destruct (fs.readdir directory w) as [w1 [files|e|]] eqn:Er;
    pose proof (readdir_world _ _ _ _ Er) as ->.
  - destruct (fileManager.clean_loop cfg directory now files 0 w)
      as [w2 [count [[]|e|]]] eqn:El;
      apply clean_loop_count in El as [Hc Ho].
    + intros [= <- <-]. split; [lia|]. split; [exact Ho|].
      intros n [= <-]. lia.
    + destruct (negb (has_code e "ENOENT")); intros [= <- <-];
        (split; [lia|]); (split; [exact Ho|]); intros n [= <-]. lia.
    + intros [= <- <-]. split; [lia|]. split; [exact Ho|]. discriminate.
  - destruct (negb (has_code e "ENOENT")); intros [= <- <-];
      (split; [lia|]); (split; [auto|]); intros n [= <-]. lia.
  - intros [= <- <-]. split; [lia|]. split; [auto|]. discriminate.
Qed.

(** X6.  The number [_cleanDirectory] returns is the number of entries it
    removed from the directory; it touches no other directory, and for a
    directory that is absent it returns 0 and changes nothing. *)
Theorem cleanDirectory_counts_deletions (cfg : Config) (now : Qc)
    (directory : string) (w w' : World) (n : nat) :
  fileManager._cleanDirectory cfg directory now w = (w', Returned n) ->
  (entry_count w directory = entry_count w' directory + n)%nat
  ∧ (forall other, other <> directory -> disk w' !! other = disk w !! other)
  ∧ console w' = console w
  ∧ (disk w !! directory = None -> n = 0%nat ∧ w' = w).
Proof.
  intros H. pose proof (cleanDirectory_count _ _ _ _ _ _ H) as (_ & Ho & Hc).
  split; [exact (Hc n eq_refl)|]. split; [exact Ho|].
  split; [apply (cleanDirectory_sweeps _ _ _ _ _ _ H)|].
  intros Hnone. revert H. unfold fileManager._cleanDirectory, fs.readdir.
  rewrite Hnone. cbn. intros [= <- <-]. auto.
Qed.

Lemma cleanDirectory_counts_deletions_witness :
  (entry_count sample_world "uploads"
   = entry_count
       (fst (fileManager._cleanDirectory config "uploads"
               (Qc_of_Z sample_now) sample_world)) "uploads" + 1)%nat.
Proof.
  apply (proj1 (cleanDirectory_counts_deletions config (Qc_of_Z sample_now)
                  "uploads" sample_world _ 1%nat ltac:(vm_compute; reflexivity))).
Defined.



(** ** Sweeping twice *)

Lemma clean_loop_fresh (cfg : Config) (now : Qc) (directory : string)
    (w : World) (d : Directory) (files : list string) :
  disk w !! directory = Some d ->
  fault_free d ->
  (forall name, In name files ->
     exists f, entries d !! name = Some f ∧ ~ expired_inode cfg now f) ->
  forall count,
    fileManager.clean_loop cfg directory now files count w
    = (w, (count, Returned tt)).
Proof.
  intros Hd Hff. induction files as [|file rest IH]; intros Hin count;
    cbn [fileManager.clean_loop]; [reflexivity|].
  destruct (Hin file (or_introl eq_refl)) as (f & Hf & Hnew).
  destruct (Hff file f Hf) as [Hsf _].
  unfold fs.stat, fs.lookup. cbn [path_join dirname basename].
  rewrite Hd, Hf, Hsf.
  destruct (fileManager.expired cfg now _) eqn:Hx.
  - exfalso. apply Hnew.
    apply (expired_spec cfg now
             {| fs.st_size := size f; fs.st_mtimeMs := mtimeMs f |} f eq_refl).
    exact Hx.
  - apply IH. intros name Hn. apply Hin. right. exact Hn.
Qed.

Lemma cleanDirectory_fresh (cfg : Config) (now : Qc) (directory : string)
    (w : World) :
  sound w directory -> fresh cfg now w directory ->
  fileManager._cleanDirectory cfg directory now w = (w, Returned 0%nat).
Proof.
  unfold sound, fresh, fileManager._cleanDirectory, fs.readdir.
  destruct (disk w !! directory) as [d|] eqn:Hd; [|reflexivity].
  intros [Hrd Hff] Hfresh. rewrite Hrd.
  rewrite (clean_loop_fresh cfg now directory w d _ Hd Hff); [reflexivity|].
  intros name Hn. apply in_map_iff in Hn as ([k f] & <- & Hkf).
  apply list_elem_of_In, elem_of_map_to_list in Hkf.
  exists f. split; [exact Hkf|]. exact (Hfresh d k f eq_refl Hkf).
Qed.

Lemma cleanupOldFiles_fresh (cfg : Config) (now : Qc) (w : World) :
  sound w (upload_uploadDir cfg) -> sound w (upload_compressedDir cfg) ->
  fresh cfg now w (upload_uploadDir cfg) ->
  fresh cfg now w (upload_compressedDir cfg) ->
  fileManager.cleanupOldFiles cfg now w = (w, Returned tt).
Proof.
  intros Su Sc Fu Fc. unfold fileManager.cleanupOldFiles. run_monad.
  rewrite (cleanDirectory_fresh cfg now _ w Su Fu).
  rewrite (cleanDirectory_fresh cfg now _ w Sc Fc). reflexivity.
Qed.

(** X25.  A sweep that finds nothing expired changes nothing and logs
    nothing, and a sweep leaves nothing for a second sweep at the same
    time: in directories without faults, sweeping again right after a sweep
    returns at once, with the disk and the log as they are. *)
Theorem sweep_is_idempotent (cfg : Config) (now : Qc) (w : World) :
  sound w (upload_uploadDir cfg) -> sound w (upload_compressedDir cfg) ->
  (fresh cfg now w (upload_uploadDir cfg) ->
   fresh cfg now w (upload_compressedDir cfg) ->
   fileManager.cleanupOldFiles cfg now w = (w, Returned tt))
  ∧ let w1 := fst (fileManager.cleanupOldFiles cfg now w) in
    fileManager.cleanupOldFiles cfg now w1 = (w1, Returned tt).
Proof.
  intros Su Sc. split; [apply cleanupOldFiles_fresh; assumption|].
  cbv zeta.
  pose proof (cleanupOldFiles_sweeps cfg now w) as Hsw.
  assert (Hfresh : forall directory,
             directory = upload_uploadDir cfg
             \/ directory = upload_compressedDir cfg ->
             fresh cfg now (fst (fileManager.cleanupOldFiles cfg now w))
                   directory).
  { intros directory Hdir d1 name f Hd1 Hf Hold.
    pose proof (Hsw directory) as T. rewrite Hd1 in T.
    destruct (disk w !! directory) as [d|] eqn:Hd; [|contradiction].
    destruct T as [_ T]. specialize (T name). rewrite Hf in T.
    destruct (cleanupOldFiles_clean cfg now w
                (sound_passable cfg now _ _ Su) (sound_passable cfg now _ _ Sc)
                directory d name f Hdir Hd T Hold) as (d1' & Hd1' & Hnone).
    congruence. }
  apply cleanupOldFiles_fresh.
  - apply (sweeps_sound cfg now _ _ _ Hsw Su).
  - apply (sweeps_sound cfg now _ _ _ Hsw Sc).
  - apply Hfresh. left. reflexivity.
  - apply Hfresh. right. reflexivity.
Qed.

Lemma sweep_is_idempotent_witness :
  let w1 := fst (fileManager.cleanupOldFiles config (Qc_of_Z sample_now)
                   sample_world) in
  fileManager.cleanupOldFiles config (Qc_of_Z sample_now) w1
  = (w1, Returned tt).
Proof.
  apply (proj2 (sweep_is_idempotent config (Qc_of_Z sample_now) sample_world
                  ltac:(apply (bool_decide_unpack _); vm_compute; reflexivity)
                  ltac:(apply (bool_decide_unpack _); vm_compute; reflexivity))).
Defined.

(** ** Where a pass ends *)

Section PassEnds.

Variable cfg : Config.
Variable now : Qc.
Variable directory : string.

Let old := expired_inode cfg now.




End PassEnds.



(** ** Creating the storage directories *)

Lemma mkdir_outcome (refusal : string -> option Error) (directory : string)
    (w : World) :
  exists w' r,
    fs.mkdir refusal directory w = (w', r)
    ∧ console w' = console w
    ∧ (forall other d, disk w !! other = Some d -> disk w' !! other = Some d)
    ∧ (forall other, is_Some (disk w' !! other) ->
         is_Some (disk w !! other) \/ other = directory)
    ∧ match r with
      | Returned _ => is_Some (disk w' !! directory)
      | Thrown e => refusal directory = Some e ∧ w' = w
                    ∧ disk w !! directory = None
      | Hung => False
      end.
Proof.
  unfold fs.mkdir. destruct (disk w !! directory) as [d|] eqn:Ed.
  - exists w, (Returned tt). rewrite Ed. repeat split; eauto.
  - destruct (refusal directory) as [e|] eqn:Ef.
    + exists w, (Thrown e). repeat split; eauto.
    + eexists _, (Returned tt). split; [reflexivity|]. cbn [disk console].
      split; [reflexivity|]. split; [|split].
      * intros other d Ho. rewrite lookup_insert_ne by congruence. exact Ho.
      * intros other Ho. destruct (decide (other = directory)) as [->|Hne];
          [right; reflexivity | left].
        rewrite lookup_insert_ne in Ho by congruence. exact Ho.
      * rewrite lookup_insert_eq. eauto.
Qed.

Lemma mkdir_present (refusal : string -> option Error) (directory : string)
    (w : World) :
  is_Some (disk w !! directory) ->
  fs.mkdir refusal directory w = (w, Returned tt).
Proof. unfold fs.mkdir. intros [d ->]. reflexivity. Qed.

(** X8.  [initializeDirectories] creates what is missing and touches
    nothing that exists: every directory of the disk is there afterwards
    with the entries it had, and only the two storage directories can be
    new.  When it returns both exist and one line is logged, and a second
    initialisation, whatever the operating system would refuse, returns and
    leaves the disk as it is.  When a directory cannot be created the
    error of [mkdir] is logged and thrown again, unchanged. *)
Theorem initializeDirectories_creates_what_is_missing (cfg : Config)
    (refusal : string -> option Error) (w : World) :
  let r := fileManager.initializeDirectories cfg refusal w in
  let up := upload_uploadDir cfg in
  let comp := upload_compressedDir cfg in
  (forall directory d,
      disk w !! directory = Some d -> disk (fst r) !! directory = Some d)
  ∧ (forall directory,
        is_Some (disk (fst r) !! directory) ->
        is_Some (disk w !! directory) \/ directory = up \/ directory = comp)
  ∧ match snd r with
    | Returned _ =>
        is_Some (disk (fst r) !! up) ∧ is_Some (disk (fst r) !! comp)
        ∧ console (fst r)
          = console w ++ [console_log "✓ Storage directories initialized"]
        ∧ forall refusal',
            let r' := fileManager.initializeDirectories cfg refusal' (fst r) in
            snd r' = Returned tt ∧ disk (fst r') = disk (fst r)
    | Thrown e =>
        (refusal up = Some e \/ refusal comp = Some e)
        ∧ console (fst r)
          = console w ++ [console_error "Error creating directories:" e]
    | Hung => False
    end.
Proof.
  cbv zeta. unfold fileManager.initializeDirectories. run_monad.
  destruct (mkdir_outcome refusal (upload_uploadDir cfg) w)
    as (w1 & r1 & -> & Hk1 & Hkeep1 & Hnew1 & H1).
  destruct r1 as [[]|e|]; [| |contradiction].
  - destruct (mkdir_outcome refusal (upload_compressedDir cfg) w1)
      as (w2 & r2 & -> & Hk2 & Hkeep2 & Hnew2 & H2).
    destruct r2 as [[]|e|]; [| |contradiction]; cbn [fst snd disk console].
    + split; [intros; eauto|]. split.
      { intros directory Hd. apply Hnew2 in Hd as [Hd| ->]; [|auto].
        apply Hnew1 in Hd as [Hd| ->]; auto. }
      assert (Hup : is_Some (disk w2 !! upload_uploadDir cfg)).
      { destruct H1 as [d Hd]. exists d. apply Hkeep2, Hd. }
      split; [exact Hup|]. split; [exact H2|].
      split; [rewrite Hk2, Hk1; reflexivity|].
      intros refusal'.
      rewrite (mkdir_present refusal' (upload_uploadDir cfg)) by exact Hup.
      rewrite (mkdir_present refusal' (upload_compressedDir cfg)) by exact H2.
      cbn. auto.
    + destruct H2 as (Hr & -> & _).
      split; [intros; eauto|]. split.
      { intros directory Hd. apply Hnew1 in Hd as [Hd| ->]; auto. }
      split; [auto|]. rewrite Hk1. reflexivity.
  - destruct H1 as (Hr & -> & _). cbn [fst snd disk console].
    split; [auto|]. split; [auto|]. auto.
Qed.

(** ** Whole numbers of units *)

Lemma prints_whole_units_all :
  forallb (fun i => forallb (fun q => prints_whole_units (Z.of_nat q) (Z.of_nat i))
                            (seq 1 1023))
          (seq 0 4) = true.
Proof. vm_compute. reflexivity. Qed.

(** X24.  A whole number of units is printed as it is: for [1 <= q < 1024]
    and a unit of rank [i < 4], [formatBytes(q * 1024^i)] is the decimal
    numeral of [q], a space and the name of the unit; in particular every
    byte count below 1024 is printed exactly, followed by ['Bytes']. *)
Theorem formatBytes_whole_units (q i : Z) :
  1 <= q < 1024 -> 0 <= i < 4 ->
  fileManager.formatBytes (q * 1024 ^ i)
  = Number.digits (Z.to_pos q) +:+ " " +:+
    nth (Z.to_nat i) fileManager.sizes "undefined".
Proof.
  intros Hq Hi. pose proof prints_whole_units_all as H.
  rewrite forallb_forall in H.
  specialize (H (Z.to_nat i) ltac:(apply in_seq; lia)).
  rewrite forallb_forall in H.
  specialize (H (Z.to_nat q) ltac:(apply in_seq; lia)).
  rewrite !Z2Nat.id in H by lia.
  apply String.eqb_eq in H. rewrite H.
  unfold fileManager.unit_name.
  assert (Hlt : (Z.to_nat i < length fileManager.sizes)%nat)
    by (cbn; lia).
  destruct (nth_error fileManager.sizes (Z.to_nat i)) as [u|] eqn:E.
  - rewrite (nth_error_nth _ _ _ E). reflexivity.
  - apply nth_error_None in E. lia.
Qed.

Lemma formatBytes_whole_units_witness :
  fileManager.formatBytes (512 * 1024 ^ 2) = "512 MB".
Proof.
  rewrite (formatBytes_whole_units 512 2) by lia. reflexivity.
Defined.

(** ** Invariants of the walk *)

Section WalkInvariants.

Import pdfCompressor.

Variable cfg : Config.
Variable host : Host.
Variable args : list string.

Let cmds := gsCommands cfg host.

(** What holds at the start and is kept by the delivery of an event,
    whichever ['close'] arrives first, holds throughout. *)
Lemma run_invariant (Inv : Walk -> Prop) :
  (forall w ev rest,
      Inv w -> ticks w = ev :: rest ->
      Inv (deliver cfg host args ev (take_tick rest w))) ->
  (forall w ev l1 l2,
      Inv w -> polled w = l1 ++ ev :: l2 ->
      Inv (deliver cfg host args ev (take_polled (l1 ++ l2) w))) ->
  forall (fuel : nat) (awaiting : bool) (w : Walk),
    Inv w -> Inv (run cfg host args fuel awaiting w).
Proof.
  intros Ht Hp. induction fuel as [|fuel IH]; intros awaiting w Hw;
    cbn [run]; [exact Hw|].
  destruct (awaiting && bool_decide (is_Some (promise w))); [exact Hw|].
  destruct (ticks w) as [|ev rest] eqn:Et.
  - destruct (arrival _ (polled w)) as [[ev rest]|] eqn:Ea; [|exact Hw].
    apply arrival_split in Ea as (l1 & l2 & Ep & ->).
    apply IH, (Hp w ev l1 l2 Hw Ep).
  - apply IH, (Ht w ev rest Hw Et).
Qed.

(** *** A resolved promise has a child that exited with 0 behind it *)

Let exited_zero : Prop :=
  exists command stderr writes,
    In command cmds
    ∧ spawn host command args = Started (Some 0) stderr writes.

Let genuine (ev : ChildEvent) : Prop :=
  match ev with
  | close_event (Some 0) _ _ => exited_zero
  | _ => True
  end.

Let sound_walk (w : Walk) : Prop :=
  Forall genuine (ticks w) ∧ Forall genuine (polled w)
  ∧ (promise w = Some Resolved -> exited_zero).

Hypothesis errno_not_zero :
  forall command error errno,
    spawn host command args = SpawnFailed error errno -> errno <> 0.

Lemma settle_rejected_sound (reason : Error) (w : Walk) :
  sound_walk w -> sound_walk (settle (Rejected reason) w).
Proof.
  intros Hw. unfold settle.
  destruct (promise w) as [s|] eqn:E; [exact Hw|].
  destruct Hw as (Ht & Hp & Hr).
  repeat split; cbn; try assumption. discriminate.
Qed.

Lemma tryCommand_sound (w : Walk) :
  sound_walk w -> sound_walk (tryCommand cfg host args w).
Proof.
  intros Hw. unfold tryCommand.
  destruct (length _ <=? currentCommandIndex w)%nat eqn:E.
  - apply settle_rejected_sound, Hw.
  - apply Nat.leb_gt in E. destruct Hw as (Ht & Hp & Hr).
    pose proof (nth_In (gsCommands cfg host) "undefined" E) as Hin.
    destruct (spawn host _ args) as [error errno|exitCode stderr writes|] eqn:Es.
    + repeat split; cbn; try assumption.
      * apply Forall_app. split; [exact Ht|]. repeat constructor.
      * apply Forall_app. split; [exact Hp|]. repeat constructor.
        pose proof (errno_not_zero _ _ _ Es). destruct errno; easy.
    + repeat split; cbn; try assumption.
      apply Forall_app. split; [exact Hp|].
      repeat constructor. destruct exitCode as [[| |]|]; try exact I.
      eexists. exists stderr, writes. split; [exact Hin | exact Es].
    + repeat split; cbn; assumption.
Qed.

Lemma deliver_sound (ev : ChildEvent) (w : Walk) :
  genuine ev -> sound_walk w -> sound_walk (deliver cfg host args ev w).
Proof.
  intros Hev Hw. destruct ev as [e|exitCode stderr writes]; cbn [deliver].
  - unfold on_error. destruct (has_code e "ENOENT").
    + apply tryCommand_sound. exact Hw.
    + apply settle_rejected_sound, Hw.
  - assert (Hw' : sound_walk (wrote writes w)) by exact Hw.
    assert (Hnext : sound_walk
              (if (currentCommandIndex (wrote writes w)
                   <? length (gsCommands cfg host) - 1)%nat
               then tryCommand cfg host args (next_index (wrote writes w))
               else settle
                      (Rejected
                         (new_Error ("Ghostscript exited with code " +:+
                                     code_text exitCode +:+ ": " +:+ stderr)))
                      (wrote writes w))).
    { destruct (_ <? _)%nat.
      - apply tryCommand_sound. exact Hw'.
      - apply settle_rejected_sound, Hw'. }
    unfold on_close. destruct exitCode as [[|p|p]|]; try exact Hnext.
    unfold settle.
    destruct (promise (wrote writes w)) as [s|] eqn:E; [exact Hw'|].
    destruct Hw' as (Ht & Hp & Hr).
    repeat split; cbn; try assumption. intros _. exact Hev.
Qed.

Lemma run_sound (fuel : nat) (awaiting : bool) (d : gmap string Directory) :
  sound_walk (run cfg host args fuel awaiting (start cfg host args d)).
Proof.
  apply run_invariant.
  - intros w ev rest (Ht & Hp & Hr) E. rewrite E in Ht.
    apply Forall_cons in Ht as [Hev Ht].
    apply deliver_sound; [exact Hev|]. repeat split; assumption.
  - intros w ev l1 l2 (Ht & Hp & Hr) E. rewrite E in Hp.
    apply Forall_app in Hp as [Hp1 Hp2].
    apply Forall_cons in Hp2 as [Hev Hp2].
    apply deliver_sound; [exact Hev|].
    repeat split; cbn; try assumption.
    apply Forall_app. split; assumption.
  - apply tryCommand_sound. repeat split; cbn; try constructor. discriminate.
Qed.

Lemma resolved_exited_zero (world w' : World) :
  _executeGhostscript cfg host args world = (w', Returned tt) ->
  exists command stderr writes,
    In command (gsCommands cfg host)
    ∧ spawn host command args = Started (Some 0) stderr writes.
Proof.
  unfold _executeGhostscript.
  destruct (run_sound (2 * length (gsCommands cfg host)) true (disk world))
    as (_ & _ & Hr).
  destruct (promise _) as [[|reason]|]; try discriminate.
  intros _. apply Hr. reflexivity.
Qed.

End WalkInvariants.

Section WalkOrder.

Import pdfCompressor.

Variable cfg : Config.
Variable host : Host.
Variable args : list string.

Let cmds := gsCommands cfg host.

(** *** The candidates are spawned in the order of the list *)

Let ordered (w : Walk) : Prop :=
  spawned w `sublist_of` take (S (currentCommandIndex w)) cmds
  ∧ exists tail, spawned w = hd "undefined" cmds :: tail.

Lemma take_sublist_S (n : nat) : take n cmds `sublist_of` take (S n) cmds.
Proof.
  generalize cmds. induction n as [|n IH]; intros l.
  - apply sublist_nil_l.
  - destruct l as [|x l]; [constructor|]. cbn. apply sublist_skip, IH.
Qed.

Lemma tryCommand_ordered (w : Walk) :
  spawned w `sublist_of` take (currentCommandIndex w) cmds ->
  (spawned w = [] -> currentCommandIndex w = 0%nat) ->
  (spawned w <> [] -> exists tail, spawned w = hd "undefined" cmds :: tail) ->
  ordered (tryCommand cfg host args w).
Proof.
  intros Hs H0 Hhd. unfold tryCommand. fold cmds.
  destruct (length cmds <=? currentCommandIndex w)%nat eqn:E.
  - apply Nat.leb_le in E.
    assert (Hne : spawned w <> []).
    { intros Hnil. pose proof (H0 Hnil) as Hz. rewrite Hz in E.
      pose proof (gsCommands_not_nil cfg host) as Hc. fold cmds in Hc.
      destruct cmds; [congruence | cbn in E; lia]. }
    unfold ordered, settle. destruct (promise w); cbn.
    + split; [|exact (Hhd Hne)].
      transitivity (take (currentCommandIndex w) cmds);
        [exact Hs | apply take_sublist_S].
    + split; [|exact (Hhd Hne)].
      transitivity (take (currentCommandIndex w) cmds);
        [exact Hs | apply take_sublist_S].
  - apply Nat.leb_gt in E.
    assert (Hl : cmds !! currentCommandIndex w
                 = Some (nth (currentCommandIndex w) cmds "undefined")).
    { rewrite nth_lookup. destruct (lookup_lt_is_Some_2 cmds _ E) as [x ->].
      reflexivity. }
    assert (Hgoal : (spawned w ++ [nth (currentCommandIndex w) cmds "undefined"])
                    `sublist_of` take (S (currentCommandIndex w)) cmds
                    ∧ exists tail,
                        spawned w ++ [nth (currentCommandIndex w) cmds "undefined"]
                        = hd "undefined" cmds :: tail).
    { split.
      - rewrite (take_S_r _ _ _ Hl). apply sublist_app; [exact Hs|reflexivity].
      - destruct (spawned w) as [|c tail] eqn:Esp.
        + rewrite (H0 eq_refl). exists []. cbn.
          destruct cmds; [cbn in E; lia | reflexivity].
        + destruct (Hhd ltac:(discriminate)) as [tail' Ht].
          injection Ht as -> ->. eexists. reflexivity. }
    destruct (spawn host _ args); exact Hgoal.
Qed.

Lemma settle_ordered (s : Settlement) (w : Walk) :
  ordered w -> ordered (settle s w).
Proof. unfold ordered, settle. destruct (promise w); cbn; auto. Qed.

Lemma next_ordered (w : Walk) :
  ordered w -> ordered (tryCommand cfg host args (next_index w)).
Proof.
  intros [Hs [tail Ht]]. apply tryCommand_ordered; cbn.
  - exact Hs.
  - rewrite Ht. discriminate.
  - intros _. exists tail. exact Ht.
Qed.

Lemma deliver_ordered (ev : ChildEvent) (w : Walk) :
  ordered w -> ordered (deliver cfg host args ev w).
Proof.
  intros Hw. destruct ev as [e|exitCode stderr writes]; cbn [deliver].
  - unfold on_error. destruct (has_code e "ENOENT").
    + apply next_ordered, Hw.
    + apply settle_ordered, Hw.
  - assert (Hw' : ordered (wrote writes w)) by exact Hw.
    unfold on_close.
    destruct exitCode as [[|p|p]|];
      try (apply settle_ordered; exact Hw');
      (destruct (_ <? _)%nat;
       [apply next_ordered; exact Hw' | apply settle_ordered; exact Hw']).
Qed.

Lemma run_ordered (fuel : nat) (awaiting : bool) (d : gmap string Directory) :
  ordered (run cfg host args fuel awaiting (start cfg host args d)).
Proof.
  apply run_invariant.
  - intros w ev rest Hw _. apply deliver_ordered. exact Hw.
  - intros w ev l1 l2 Hw _. apply deliver_ordered. exact Hw.
  - apply tryCommand_ordered; cbn.
    + apply sublist_nil_l.
    + reflexivity.
    + congruence.
Qed.

Lemma walk_ordered (d : gmap string Directory) :
  spawned (walk cfg host args d) `sublist_of` gsCommands cfg host
  ∧ exists c rest tail,
      gsCommands cfg host = c :: rest
      ∧ spawned (walk cfg host args d) = c :: tail.
Proof.
  destruct (run_ordered (2 * length (gsCommands cfg host)) false d)
    as [Hs [tail Ht]].
  split.
  - etransitivity; [exact Hs|]. apply sublist_take.
  - assert (Hhd : exists c rest, gsCommands cfg host = c :: rest).
    { pose proof (gsCommands_not_nil cfg host) as Hc.
      destruct (gsCommands cfg host) as [|c rest]; [congruence | eauto]. }
    destruct Hhd as (c & rest & Ec). exists c, rest, tail.
    split; [exact Ec|]. unfold walk. rewrite Ht. subst cmds.
    rewrite Ec. reflexivity.
Qed.

End WalkOrder.

(** X9.  A promise that [_executeGhostscript] resolves has a child behind
    it that exited with status 0: on a host whose failed spawns carry an
    errno (never 0), the call returns only if some candidate of the list was
    started and exited with 0. *)
Theorem executeGhostscript_resolves_only_after_exit_0 (cfg : Config)
    (host : pdfCompressor.Host) (args : list string) (world : World) :
  (forall command error errno,
      pdfCompressor.spawn host command args
      = pdfCompressor.SpawnFailed error errno -> errno <> 0) ->
  snd (pdfCompressor._executeGhostscript cfg host args world) = Returned tt ->
  exists command stderr writes,
    In command (pdfCompressor.gsCommands cfg host)
    ∧ pdfCompressor.spawn host command args
      = pdfCompressor.Started (Some 0) stderr writes.
Proof.
  intros Herrno Hr.
  apply (resolved_exited_zero cfg host args Herrno world
           (fst (pdfCompressor._executeGhostscript cfg host args world))).
  rewrite <- Hr. apply surjective_pairing.
Qed.

Lemma executeGhostscript_resolves_only_after_exit_0_witness :
  exists command stderr writes,
    In command (pdfCompressor.gsCommands config host_with_configured_gs)
    ∧ pdfCompressor.spawn host_with_configured_gs command ["--version"]
      = pdfCompressor.Started (Some 0) stderr writes.
Proof.
  apply (executeGhostscript_resolves_only_after_exit_0 config
           host_with_configured_gs ["--version"] sample_world).
  - intros command error errno. cbn.
    destruct (String.eqb command _); intros [= _ <-]. lia.
  - vm_compute. reflexivity.
Defined.

(** X10.  The candidates are spawned in the order of the list, each at
    most once: the commands spawned by a walk are a subsequence of
    [gsCommands].  The list is never empty, and the first candidate is
    always spawned. *)
Theorem walk_spawns_in_order (cfg : Config) (host : pdfCompressor.Host)
    (args : list string) (d : gmap string Directory) :
  pdfCompressor.spawned (pdfCompressor.walk cfg host args d)
    `sublist_of` pdfCompressor.gsCommands cfg host
  ∧ exists c rest tail,
      pdfCompressor.gsCommands cfg host = c :: rest
      ∧ pdfCompressor.spawned (pdfCompressor.walk cfg host args d) = c :: tail.
Proof. apply walk_ordered. Qed.

(** *** What the delivery of an event keeps *)

Section WalkFacts.

Import pdfCompressor.

Variable cfg : Config.
Variable host : Host.
Variable args : list string.

Let n := length (gsCommands cfg host).

Lemma settle_settled (s s' : Settlement) (w : Walk) :
  promise w = Some s -> settle s' w = w.
Proof. intros H. unfold settle. rewrite H. reflexivity. Qed.

Lemma tryCommand_promise (w : Walk) (s : Settlement) :
  promise w = Some s -> promise (tryCommand cfg host args w) = Some s.
Proof.
  intros Hs. unfold tryCommand.
  destruct (length _ <=? currentCommandIndex w)%nat.
  - rewrite (settle_settled s) by exact Hs. exact Hs.
  - destruct (spawn host _ args); exact Hs.
Qed.

Lemma deliver_promise (q : ChildEvent) (w : Walk) (s : Settlement) :
  promise w = Some s -> promise (deliver cfg host args q w) = Some s.
Proof.
  intros Hs.
  assert (Hset : forall s' w', promise w' = Some s ->
                               promise (settle s' w') = Some s).
  { intros s' w' H. rewrite (settle_settled s) by exact H. exact H. }
  destruct q as [e|exitCode stderr writes]; cbn [deliver].
  - unfold on_error. destruct (has_code e "ENOENT").
    + apply tryCommand_promise. exact Hs.
    + apply Hset, Hs.
  - unfold on_close.
    destruct exitCode as [[|p|p]|];
      try (apply Hset; exact Hs);
      (destruct (_ <? _)%nat;
       [apply tryCommand_promise; exact Hs | apply Hset; exact Hs]).
Qed.

(** A settled promise stays as it is. *)
Lemma run_promise (fuel : nat) (awaiting : bool) (w : Walk) (s : Settlement) :
  promise w = Some s -> promise (run cfg host args fuel awaiting w) = Some s.
Proof.
  apply (run_invariant cfg host args (fun w' => promise w' = Some s)).
  - intros w' ev rest Hw _. apply deliver_promise. exact Hw.
  - intros w' ev l1 l2 Hw _. apply deliver_promise. exact Hw.
Qed.

Lemma tryCommand_spawned (w : Walk) :
  exists tail, spawned (tryCommand cfg host args w) = spawned w ++ tail.
Proof.
  unfold tryCommand, settle.
  destruct (length _ <=? currentCommandIndex w)%nat.
  - exists []. rewrite app_nil_r. destruct (promise w); reflexivity.
  - destruct (spawn host _ args); eexists; reflexivity.
Qed.

Lemma deliver_spawned (ev : ChildEvent) (w : Walk) :
  exists tail, spawned (deliver cfg host args ev w) = spawned w ++ tail.
Proof.
  assert (Hs : forall s w', exists tail, spawned (settle s w') = spawned w' ++ tail).
  { intros s w'. exists []. rewrite app_nil_r. unfold settle.
    destruct (promise w'); reflexivity. }
  destruct ev as [e|exitCode stderr writes]; cbn [deliver].
  - unfold on_error. destruct (has_code e "ENOENT");
      [apply (tryCommand_spawned (next_index w)) | apply Hs].
  - change (spawned w) with (spawned (wrote writes w)). unfold on_close.
    destruct exitCode as [[|p|p]|]; try apply Hs;
      (destruct (_ <? _)%nat;
       [apply (tryCommand_spawned (next_index (wrote writes w))) | apply Hs]).
Qed.

(** What has been spawned stays spawned. *)
Lemma run_spawned (fuel : nat) (awaiting : bool) (w : Walk) :
  exists tail, spawned (run cfg host args fuel awaiting w) = spawned w ++ tail.
Proof.
  apply (run_invariant cfg host args
           (fun w' => exists tail, spawned w' = spawned w ++ tail)).
  - intros w' ev rest [t Ht] _.
    destruct (deliver_spawned ev (take_tick rest w')) as [t' Ht'].
    exists (t ++ t'). rewrite Ht'. cbn [take_tick spawned].
    rewrite Ht, app_assoc. reflexivity.
  - intros w' ev l1 l2 [t Ht] _.
    destruct (deliver_spawned ev (take_polled (l1 ++ l2) w')) as [t' Ht'].
    exists (t ++ t'). rewrite Ht'. cbn [take_polled spawned].
    rewrite Ht, app_assoc. reflexivity.
  - exists []. rewrite app_nil_r. reflexivity.
Qed.

(** Once the list is exhausted and the promise settled, the events that
    are still to come spawn nothing. *)
Lemma run_exhausted (fuel : nat) (awaiting : bool) (w : Walk) (s : Settlement) :
  (n <= currentCommandIndex w)%nat -> promise w = Some s -> ticks w = [] ->
  promise (run cfg host args fuel awaiting w) = Some s
  ∧ spawned (run cfg host args fuel awaiting w) = spawned w.
Proof.
  intros Hi Hs Ht.
  assert (H : (n <= currentCommandIndex (run cfg host args fuel awaiting w))%nat
              ∧ promise (run cfg host args fuel awaiting w) = Some s
              ∧ spawned (run cfg host args fuel awaiting w) = spawned w
              ∧ ticks (run cfg host args fuel awaiting w) = []).
  { apply (run_invariant cfg host args
             (fun w' => (n <= currentCommandIndex w')%nat
                        ∧ promise w' = Some s
                        ∧ spawned w' = spawned w ∧ ticks w' = [])).
    - intros w' ev rest (_ & _ & _ & Ht') E. congruence.
    - intros w' ev l1 l2 (Hi' & Hs' & Hsp' & Ht') _.
      destruct ev as [e|exitCode stderr writes]; cbn [deliver].
      + unfold on_error. destruct (has_code e "ENOENT").
        * unfold tryCommand. cbn [next_index take_polled currentCommandIndex].
          fold n.
          replace (n <=? S (currentCommandIndex w'))%nat with true
            by (symmetry; apply Nat.leb_le; lia).
          rewrite (settle_settled s) by exact Hs'. cbn. auto.
        * rewrite (settle_settled s) by exact Hs'. cbn. auto.
      + unfold on_close. cbn [wrote take_polled currentCommandIndex]. fold n.
        replace (currentCommandIndex w' <? n - 1)%nat with false
          by (symmetry; apply Nat.ltb_ge; lia).
        destruct exitCode as [[|p|p]|];
          rewrite (settle_settled s) by exact Hs'; cbn; auto.
    - auto. }
  destruct H as (_ & Hp & Hsp & _). auto.
Qed.

(** Nor do they write, when they are the ['close'] events of children that
    could not be spawned. *)
Lemma run_exhausted_files (fuel : nat) (awaiting : bool) (w : Walk)
    (s : Settlement) :
  (n <= currentCommandIndex w)%nat -> promise w = Some s -> ticks w = [] ->
  Forall writes_nothing (polled w) ->
  files (run cfg host args fuel awaiting w) = files w.
Proof.
  intros Hi Hs Ht Hq.
  assert (H : (n <= currentCommandIndex (run cfg host args fuel awaiting w))%nat
              ∧ promise (run cfg host args fuel awaiting w) = Some s
              ∧ ticks (run cfg host args fuel awaiting w) = []
              ∧ Forall writes_nothing
                  (polled (run cfg host args fuel awaiting w))
              ∧ files (run cfg host args fuel awaiting w) = files w).
  { apply (run_invariant cfg host args
             (fun w' => (n <= currentCommandIndex w')%nat
                        ∧ promise w' = Some s
                        ∧ ticks w' = []
                        ∧ Forall writes_nothing (polled w')
                        ∧ files w' = files w)).
    - intros w' ev rest (_ & _ & Ht' & _) E. congruence.
    - intros w' ev l1 l2 (Hi' & Hs' & Ht' & Hq' & Hf') E.
      rewrite E in Hq'. apply Forall_app in Hq' as [Hq1 Hq2].
      apply Forall_cons in Hq2 as [Hev Hq2].
      assert (Hrest : Forall writes_nothing (l1 ++ l2))
        by (apply Forall_app; split; assumption).
      destruct ev as [e|exitCode stderr writes]; cbn [deliver].
      + unfold on_error. destruct (has_code e "ENOENT").
        * unfold tryCommand. cbn [next_index take_polled currentCommandIndex].
          fold n.
          replace (n <=? S (currentCommandIndex w'))%nat with true
            by (symmetry; apply Nat.leb_le; lia).
          rewrite (settle_settled s) by exact Hs'. cbn. auto.
        * rewrite (settle_settled s) by exact Hs'. cbn. auto.
      + cbn [writes_nothing] in Hev. subst writes.
        unfold on_close. cbn [wrote take_polled currentCommandIndex]. fold n.
        replace (currentCommandIndex w' <? n - 1)%nat with false
          by (symmetry; apply Nat.ltb_ge; lia).
        destruct exitCode as [[|p|p]|];
          rewrite (settle_settled s) by exact Hs'; cbn; auto.
    - auto. }
  destruct H as (_ & _ & _ & _ & Hf). exact Hf.
Qed.

End WalkFacts.

(** Awaiting the promise changes nothing when it is never settled, and a
    promise that is settled when the caller goes on stays as it is to the
    end of the walk. *)
Lemma run_awaiting (cfg : Config) (host : pdfCompressor.Host)
    (args : list string) (fuel : nat) :
  forall w : pdfCompressor.Walk,
    match pdfCompressor.promise (pdfCompressor.run cfg host args fuel true w) with
    | None =>
        pdfCompressor.run cfg host args fuel true w
        = pdfCompressor.run cfg host args fuel false w
    | Some s =>
        pdfCompressor.promise (pdfCompressor.run cfg host args fuel false w)
        = Some s
    end.
Proof.
  induction fuel as [|fuel IH]; intros w.
  - cbn [pdfCompressor.run]. destruct (pdfCompressor.promise w); reflexivity.
  - destruct (pdfCompressor.promise w) as [s|] eqn:Hp.
    + rewrite run_settled by (rewrite Hp; eauto). rewrite Hp.
      apply run_promise. exact Hp.
    + cbn [pdfCompressor.run]. rewrite Hp.
      rewrite bool_decide_eq_false_2 by (intros [? [=]]).
      cbn [andb].
      destruct (pdfCompressor.ticks w) as [|ev rest].
      * destruct (pdfCompressor.arrival _ (pdfCompressor.polled w))
          as [[ev rest]|]; [apply IH|].
        rewrite Hp. reflexivity.
      * apply IH.
Qed.

(** X1.  The code sets no timeout, and whether the promise of
    [_executeGhostscript] is settled is up to the children.  On a host
    where every child that starts also exits, the promise is settled and the
    [await] on it ends.  When the first candidate starts and never exits,
    nothing else is spawned, the promise is never settled, and the [await]
    hangs.  The [await] hangs exactly when the promise is still not settled
    after every event of every child has been delivered, which a walk
    does. *)
Theorem executeGhostscript_settles (cfg : Config) (host : pdfCompressor.Host)
    (args : list string) (world : World) :
  (all_exit cfg host args ->
   snd (pdfCompressor._executeGhostscript cfg host args world) <> Hung
   ∧ is_Some (pdfCompressor.promise
                (pdfCompressor.walk cfg host args (disk world))))
  ∧ (forall c rest,
        pdfCompressor.gsCommands cfg host = c :: rest ->
        pdfCompressor.spawn host c args = pdfCompressor.NeverExits ->
        pdfCompressor._executeGhostscript cfg host args world = (world, Hung)
        ∧ pdfCompressor.spawned
            (pdfCompressor.walk cfg host args (disk world)) = [c])
  ∧ (snd (pdfCompressor._executeGhostscript cfg host args world) = Hung
     <-> pdfCompressor.promise
           (pdfCompressor.walk cfg host args (disk world)) = None)
  ∧ pdfCompressor.ticks (pdfCompressor.walk cfg host args (disk world)) = []
  ∧ pdfCompressor.polled (pdfCompressor.walk cfg host args (disk world)) = [].
Proof.
  split; [|split; [|split]].
  - intros Hexit. split; [apply executeGhostscript_not_hung, Hexit|].
    pose proof (run_ends cfg host args Hexit false _ _
                  (tryCommand_live cfg host args Hexit _)
                  (start_measure cfg host args (disk world))) as Hw.
    unfold pdfCompressor.walk, pdfCompressor.start.
    destruct (pdfCompressor.promise _) as [s|];
      [eexists; reflexivity | contradiction].
  - intros c rest Hc Hs.
    unfold pdfCompressor._executeGhostscript, pdfCompressor.walk.
    rewrite (start_first cfg host args (disk world) c rest Hc), Hs.
    rewrite !run_idle by reflexivity. cbn.
    destruct world; auto.
  - pose proof (run_awaiting cfg host args
                  (2 * length (pdfCompressor.gsCommands cfg host))
                  (pdfCompressor.start cfg host args (disk world))) as Ha.
    unfold pdfCompressor._executeGhostscript, pdfCompressor.walk. cbn [snd].
    revert Ha.
    destruct (pdfCompressor.promise
                (pdfCompressor.run cfg host args _ true _))
      as [[|reason]|] eqn:E; intros Ha.
    + rewrite Ha. split; discriminate.
    + rewrite Ha. split; discriminate.
    + rewrite <- Ha, E. split; reflexivity.
  - apply run_drains, start_measure.
Qed.

Lemma executeGhostscript_settles_witness :
  snd (pdfCompressor._executeGhostscript config host_with_hanging_gs
         ["--version"] sample_world) = Hung.
Proof.
  rewrite (proj1 (proj1 (proj2 (executeGhostscript_settles config
                                  host_with_hanging_gs ["--version"]
                                  sample_world))
                    _ _ eq_refl eq_refl)).
  reflexivity.
Defined.

(** X11.  When the first candidate starts and exits with status 0 the
    promise is resolved, what the process wrote is on the disk, and no
    other candidate is spawned. *)
Theorem executeGhostscript_first_candidate_works (cfg : Config)
    (host : pdfCompressor.Host) (args : list string) (world : World)
    (c : string) (rest : list string) (stderr : string)
    (writes : gmap string Directory -> gmap string Directory) :
  pdfCompressor.gsCommands cfg host = c :: rest ->
  pdfCompressor.spawn host c args
  = pdfCompressor.Started (Some 0) stderr writes ->
  pdfCompressor._executeGhostscript cfg host args world
  = ({| disk := writes (disk world); console := console world |},
     Returned tt)
  ∧ pdfCompressor.spawned (pdfCompressor.walk cfg host args (disk world))
    = [c].
Proof.
  intros Hc Hs.
  unfold pdfCompressor._executeGhostscript, pdfCompressor.walk.
  rewrite (start_first cfg host args (disk world) c rest Hc), Hs, Hc.
  replace (2 * length (c :: rest))%nat with (S (S (2 * length rest)))
    by (cbn [length]; lia).
  rewrite (run_single cfg host args _ true _
             (pdfCompressor.close_event (Some 0) stderr writes))
    by reflexivity.
  rewrite (run_single cfg host args _ false _
             (pdfCompressor.close_event (Some 0) stderr writes))
    by reflexivity.
  rewrite !run_idle by reflexivity. cbn. auto.
Qed.

Lemma executeGhostscript_first_candidate_works_witness :
  snd (pdfCompressor._executeGhostscript config host_with_configured_gs
         ["--version"] sample_world) = Returned tt.
Proof.
  rewrite (proj1 (executeGhostscript_first_candidate_works config
                    host_with_configured_gs ["--version"] sample_world
                    _ _ _ _ eq_refl eq_refl)).
  reflexivity.
Defined.

(** X12.  When the first candidate cannot be spawned for another reason
    than a missing executable (a permission, say), the promise is rejected
    with the error of the spawn.  The walk is not over with that: the
    ['close'] of the same child arrives afterwards, its handler finds a
    non-zero code and spawns the second candidate, although nobody waits
    for the result any more; when that candidate runs and exits with 0,
    what it wrote is on the disk in the end and the promise stays
    rejected. *)
Theorem executeGhostscript_spawn_error_rejects (cfg : Config)
    (host : pdfCompressor.Host) (args : list string) (world : World)
    (c c' : string) (rest : list string) (error : Error) (errno : Z) :
  pdfCompressor.gsCommands cfg host = c :: c' :: rest ->
  pdfCompressor.spawn host c args = pdfCompressor.SpawnFailed error errno ->
  has_code error "ENOENT" = false ->
  errno <> 0 ->
  let w := pdfCompressor.walk cfg host args (disk world) in
  snd (pdfCompressor._executeGhostscript cfg host args world) = Thrown error
  ∧ pdfCompressor.promise w = Some (pdfCompressor.Rejected error)
  ∧ (exists tail, pdfCompressor.spawned w = c :: c' :: tail)
  ∧ (forall stderr writes,
        pdfCompressor.spawn host c' args
        = pdfCompressor.Started (Some 0) stderr writes ->
        pdfCompressor.spawned w = [c; c']
        ∧ pdfCompressor.files w = writes (disk world)).
Proof.
  intros Hc Hs He Hn. cbv zeta.
  set (fuel := (2 * length rest)%nat).
  assert (Hfuel : (2 * length (pdfCompressor.gsCommands cfg host)
                   = S (S (S (S fuel))))%nat)
    by (rewrite Hc; unfold fuel; cbn [length]; lia).
  (* the state once the error has been delivered *)
  set (rejected :=
         {| pdfCompressor.currentCommandIndex := 0;
            pdfCompressor.spawned := [c];
            pdfCompressor.promise := Some (pdfCompressor.Rejected error);
            pdfCompressor.ticks := [];
            pdfCompressor.polled :=
              [pdfCompressor.close_event (Some errno) "" id];
            pdfCompressor.files := disk world |}).
  assert (Hstep : forall awaiting,
             pdfCompressor.run cfg host args (S (S (S (S fuel)))) awaiting
               (pdfCompressor.start cfg host args (disk world))
             = pdfCompressor.run cfg host args (S (S (S fuel))) awaiting
                 rejected).
  { intros awaiting.
    rewrite (start_first cfg host args (disk world) c (c' :: rest) Hc), Hs.
    rewrite (run_tick cfg host args _ _ _ (pdfCompressor.error_event error) [])
      by reflexivity.
    cbn [pdfCompressor.deliver]. unfold pdfCompressor.on_error. rewrite He.
    reflexivity. }
  (* the state once the close of the same child has been delivered *)
  set (second :=
         pdfCompressor.tryCommand cfg host args
           (pdfCompressor.next_index
              (pdfCompressor.wrote id
                 (pdfCompressor.take_polled [] rejected)))).
  assert (Hclose : pdfCompressor.run cfg host args (S (S (S fuel))) false
                     rejected
                   = pdfCompressor.run cfg host args (S (S fuel)) false second).
  { rewrite (run_single cfg host args _ false rejected
               (pdfCompressor.close_event (Some errno) "" id))
      by reflexivity.
    cbn [pdfCompressor.deliver]. unfold pdfCompressor.on_close.
    cbn [pdfCompressor.wrote pdfCompressor.take_polled
         pdfCompressor.currentCommandIndex rejected].
    rewrite Hc. cbn [length Nat.sub Nat.ltb Nat.leb].
    destruct errno as [|p|p]; [congruence | reflexivity | reflexivity]. }
  assert (Hsecond : exists outstanding,
             second
             = {| pdfCompressor.currentCommandIndex := 1;
                  pdfCompressor.spawned := [c; c'];
                  pdfCompressor.promise :=
                    Some (pdfCompressor.Rejected error);
                  pdfCompressor.ticks :=
                    match pdfCompressor.spawn host c' args with
                    | pdfCompressor.SpawnFailed error' _ =>
                        [pdfCompressor.error_event error']
                    | _ => []
                    end;
                  pdfCompressor.polled := outstanding;
                  pdfCompressor.files := disk world |}
             ∧ forall stderr writes,
                 pdfCompressor.spawn host c' args
                 = pdfCompressor.Started (Some 0) stderr writes ->
                 outstanding
                 = [pdfCompressor.close_event (Some 0) stderr writes]).
  { unfold second, pdfCompressor.tryCommand.
    cbn [pdfCompressor.next_index pdfCompressor.wrote
         pdfCompressor.take_polled pdfCompressor.currentCommandIndex
         pdfCompressor.spawned pdfCompressor.promise pdfCompressor.ticks
         pdfCompressor.polled pdfCompressor.files rejected].
    rewrite Hc. cbn [length Nat.leb nth].
    destruct (pdfCompressor.spawn host c' args) as [e' n'|x s' w'|];
      eexists; (split; [reflexivity|]); intros stderr writes [=].
    subst. reflexivity. }
  destruct Hsecond as (outstanding & Hsecond & Hworks).
  split; [|split; [|split]].
  - unfold pdfCompressor._executeGhostscript. cbn [snd].
    rewrite Hfuel, Hstep, run_settled by (cbn; eauto). reflexivity.
  - unfold pdfCompressor.walk. rewrite Hfuel, Hstep.
    apply run_promise. reflexivity.
  - unfold pdfCompressor.walk. rewrite Hfuel, Hstep, Hclose.
    destruct (run_spawned cfg host args (S (S fuel)) false second)
      as [tail Ht].
    exists tail. rewrite Ht, Hsecond. reflexivity.
  - intros stderr writes Hs'.
    unfold pdfCompressor.walk. rewrite Hfuel, Hstep, Hclose, Hsecond.
    rewrite (Hworks stderr writes Hs'), Hs'.
    rewrite (run_single cfg host args _ false _
               (pdfCompressor.close_event (Some 0) stderr writes))
      by reflexivity.
    rewrite !run_idle by reflexivity. cbn. auto.
Qed.

Lemma executeGhostscript_spawn_error_rejects_witness :
  snd (pdfCompressor._executeGhostscript config host_permission_denied
         ["--version"] sample_world)
  = Thrown {| code := Some "EACCES";
              message :=
                "spawn D:\ghostscriptforpdftool\gs10.06.0\bin\gswin64c.exe EACCES" |}.
Proof.
  apply (proj1 (executeGhostscript_spawn_error_rejects config
                  host_permission_denied ["--version"] sample_world
                  "D:\ghostscriptforpdftool\gs10.06.0\bin\gswin64c.exe" "gs"
                  ["gswin64c"; "gswin32c"]
                  {| code := Some "EACCES";
                     message :=
                       "spawn D:\ghostscriptforpdftool\gs10.06.0\bin\gswin64c.exe EACCES" |}
                  (-13) eq_refl eq_refl eq_refl ltac:(discriminate))).
Defined.

(** ** The walk on a host without Ghostscript *)

Section NoExecutable.

Import pdfCompressor.

Variable cfg : Config.
Variable host : Host.
Variable args : list string.

Let cmds := gsCommands cfg host.
Let n := length cmds.

Hypothesis all_missing :
  forall c, In c cmds ->
    exists e errno,
      spawn host c args = SpawnFailed e errno
      ∧ has_code e "ENOENT" = true.

(** The ['error'] events chain: each one spawns the next candidate, whose
    ['error'] is due before any ['close'] is polled for, until the list
    is exhausted. *)
Lemma all_missing_chain (rest : list string) :
  forall (i : nat) (sp : list string) (outstanding : list ChildEvent)
         (F : gmap string Directory) (fuel : nat) (awaiting : bool)
         (e : Error),
    drop (S i) cmds = rest -> (i < n)%nat ->
    has_code e "ENOENT" = true ->
    (length rest < fuel)%nat ->
    Forall writes_nothing outstanding ->
    exists outstanding',
      Forall writes_nothing outstanding'
      ∧ run cfg host args fuel awaiting
          {| currentCommandIndex := i;
             spawned := sp;
             promise := None;
             ticks := [error_event e];
             polled := outstanding;
             files := F |}
        = run cfg host args (fuel - S (length rest)) awaiting
            {| currentCommandIndex := n;
               spawned := sp ++ rest;
               promise := Some (Rejected not_found);
               ticks := [];
               polled := outstanding';
               files := F |}.
Proof.
  induction rest as [|r rest IH];
    intros i sp outstanding F fuel awaiting e Hrest Hi He Hfuel Hq;
    (destruct fuel as [|fuel]; [cbn in Hfuel; lia|]);
    rewrite (run_tick cfg host args fuel awaiting _ (error_event e) [])
      by reflexivity;
    cbn [deliver]; unfold on_error; rewrite He;
    unfold tryCommand;
    cbn [next_index take_tick currentCommandIndex spawned promise ticks
         polled files];
    fold cmds; fold n.
  - (* the last candidate has been spawned *)
    assert (Hn : S i = n).
    { apply (f_equal (@length string)) in Hrest.
      rewrite length_drop in Hrest. cbn in Hrest. fold n in Hrest. lia. }
    rewrite Hn, Nat.leb_refl. unfold settle.
    cbn [next_index take_tick currentCommandIndex spawned promise ticks
         polled files].
    exists outstanding. split; [exact Hq|]. rewrite app_nil_r, ?Hn.
    cbn [length].
    replace (S fuel - 1)%nat with fuel by lia. reflexivity.
  - (* a candidate is left *)
    assert (Hn : (S i < n)%nat).
    { apply (f_equal (@length string)) in Hrest.
      rewrite length_drop in Hrest. cbn in Hrest. fold n in Hrest. lia. }
    assert (Hr : nth (S i) cmds "undefined" = r).
    { rewrite <- (firstn_skipn (S i) cmds) at 1.
      change (@skipn string) with (@drop string). rewrite Hrest.
      rewrite app_nth2 by (rewrite length_firstn; fold n; lia).
      rewrite length_firstn. fold n.
      replace (S i - Nat.min (S i) n)%nat with 0%nat by lia. reflexivity. }
    replace (n <=? S i)%nat with false by (symmetry; apply Nat.leb_gt; exact Hn).
    rewrite Hr.
    destruct (all_missing r) as (e' & errno' & Hs' & He').
    { rewrite <- Hr. apply nth_In. exact Hn. }
    rewrite Hs'. cbn [app].
    destruct (IH (S i) (sp ++ [r])
                (outstanding ++ [close_event (Some errno') "" id])
                F fuel awaiting e') as (outstanding' & Hq' & Hrun).
    + replace (S (S i)) with (S i + 1)%nat by lia.
      rewrite <- drop_drop, Hrest. reflexivity.
    + exact Hn.
    + exact He'.
    + cbn in Hfuel. lia.
    + apply Forall_app. split; [exact Hq|]. repeat constructor.
    + exists outstanding'. split; [exact Hq'|].
      rewrite Hrun, <- app_assoc. reflexivity.
Qed.

Lemma all_missing_start (d : gmap string Directory) (awaiting : bool) :
  exists outstanding,
    Forall writes_nothing outstanding
    ∧ run cfg host args (2 * n) awaiting (start cfg host args d)
      = run cfg host args n awaiting
          {| currentCommandIndex := n;
             spawned := cmds;
             promise := Some (Rejected not_found);
             ticks := [];
             polled := outstanding;
             files := d |}.
Proof.
  assert (Hcons : exists c rest, cmds = c :: rest).
  { pose proof (gsCommands_not_nil cfg host) as Hne. fold cmds in Hne.
    destruct cmds as [|c rest]; [congruence | eauto]. }
  destruct Hcons as (c & rest & Hc).
  assert (Hn : n = S (length rest)) by (unfold n; rewrite Hc; reflexivity).
  destruct (all_missing c) as (e & errno & Hs & He);
    [rewrite Hc; left; reflexivity|].
  rewrite (start_first cfg host args d c rest Hc), Hs.
  destruct (all_missing_chain rest 0 [c] [close_event (Some errno) "" id]
              d (2 * n) awaiting e) as (outstanding & Hq & Hrun).
  - rewrite Hc. reflexivity.
  - lia.
  - exact He.
  - lia.
  - repeat constructor.
  - exists outstanding. split; [exact Hq|]. rewrite Hrun, Hc.
    replace (2 * n - S (length rest))%nat with n by lia. reflexivity.
Qed.

End NoExecutable.

(** X23.  On a host where no candidate can be spawned (every spawn fails
    with ENOENT) the call is rejected with the error that says that
    Ghostscript was not found, whatever the number of candidates: the
    ['error'] events chain, each handler spawning the next candidate, until
    the list is exhausted.  Nothing is written or logged, every candidate is
    spawned exactly once, in the order of the list, and the ['close'] events
    that arrive afterwards change nothing. *)
Theorem walk_without_ghostscript (cfg : Config) (host : pdfCompressor.Host)
    (args : list string) (world : World) :
  (forall c, In c (pdfCompressor.gsCommands cfg host) ->
     exists e errno,
       pdfCompressor.spawn host c args = pdfCompressor.SpawnFailed e errno
       ∧ has_code e "ENOENT" = true) ->
  pdfCompressor._executeGhostscript cfg host args world
  = (world, Thrown pdfCompressor.not_found)
  ∧ JSString.includes (message pdfCompressor.not_found)
                      "Ghostscript not found" = true
  ∧ pdfCompressor.promise (pdfCompressor.walk cfg host args (disk world))
    = Some (pdfCompressor.Rejected pdfCompressor.not_found)
  ∧ pdfCompressor.spawned (pdfCompressor.walk cfg host args (disk world))
    = pdfCompressor.gsCommands cfg host
  ∧ pdfCompressor.files (pdfCompressor.walk cfg host args (disk world))
    = disk world.
Proof.
  intros Hall.
  destruct (all_missing_start cfg host args Hall (disk world) true)
    as (outstanding & _ & Ha).
  destruct (all_missing_start cfg host args Hall (disk world) false)
    as (outstanding' & Hq & Hw).
  split; [|split; [reflexivity|]].
  - unfold pdfCompressor._executeGhostscript.
    rewrite Ha, run_settled by (cbn; eauto). cbn.
    destruct world; reflexivity.
  - unfold pdfCompressor.walk. rewrite Hw.
    set (exhausted :=
           {| pdfCompressor.currentCommandIndex :=
                length (pdfCompressor.gsCommands cfg host);
              pdfCompressor.spawned := pdfCompressor.gsCommands cfg host;
              pdfCompressor.promise :=
                Some (pdfCompressor.Rejected pdfCompressor.not_found);
              pdfCompressor.ticks := [];
              pdfCompressor.polled := outstanding';
              pdfCompressor.files := disk world |}).
    destruct (run_exhausted cfg host args
                (length (pdfCompressor.gsCommands cfg host)) false exhausted
                (pdfCompressor.Rejected pdfCompressor.not_found))
      as [Hp Hsp]; [cbn; lia | reflexivity | reflexivity |].
    split; [exact Hp|]. split; [exact Hsp|].
    exact (run_exhausted_files cfg host args
             (length (pdfCompressor.gsCommands cfg host)) false exhausted
             (pdfCompressor.Rejected pdfCompressor.not_found)
             (Nat.le_refl _) eq_refl eq_refl Hq).
Qed.

Lemma walk_without_ghostscript_witness :
  snd (pdfCompressor._executeGhostscript config linux_without_gs
         ["--version"] sample_world)
  = Thrown pdfCompressor.not_found.
Proof.
  rewrite (proj1 (walk_without_ghostscript config linux_without_gs
                    ["--version"] sample_world
                    (fun c _ => ex_intro _ (spawn_ENOENT c)
                                  (ex_intro _ (-2) (conj eq_refl eq_refl))))).
  reflexivity.
Defined.

(** ** Compressing a file *)

Lemma getFileSize_outcome (p : Path) (w : World) :
  fileManager.getFileSize p w
  = (w,
     match inode p w with
     | Some f =>
         match stat_fault f with
         | None =>
             Returned {| fileManager.bytes := size f;
                         fileManager.formatted :=
                           fileManager.formatBytes (size f) |}
         | Some e =>
             Thrown (new_Error ("Error getting file size: " +:+ message e))
         end
     | None =>
         Thrown (new_Error
                   ("Error getting file size: " +:+
                    message (fs.ENOENT "stat" (Path_toString p))))
     end).
Proof.
  unfold fileManager.getFileSize. run_monad. unfold fs.stat, inode.
  destruct (fs.lookup p w) as [[d f]|]; cbn; [|reflexivity].
  destruct (stat_fault f); reflexivity.
Qed.

Lemma executeGhostscript_console (cfg : Config) (host : pdfCompressor.Host)
    (args : list string) (world : World) :
  console (fst (pdfCompressor._executeGhostscript cfg host args world))
  = console world.
Proof. reflexivity. Qed.

(** What [compress] does, step by step. *)
Lemma compress_outcome (cfg : Config) (host : pdfCompressor.Host)
    (inputPath outputPath : Path) (w : World) :
  let rethrow := fun error : Error =>
    if JSString.includes (message error) "Ghostscript not found"
    then error
    else new_Error ("Compression failed: " +:+ message error) in
  let args :=
    pdfCompressor._buildGhostscriptCommand cfg (Path_toString inputPath)
                                           (Path_toString outputPath) in
  pdfCompressor.compress cfg host inputPath outputPath w
  = match fileManager.getFileSize inputPath w with
    | (w1, Returned o) =>
        match pdfCompressor._executeGhostscript cfg host args w1 with
        | (w2, Returned _) =>
            match fileManager.getFileSize outputPath w2 with
            | (w3, Returned c) =>
                (w3,
                 Returned
                   {| pdfCompressor.result_success := true;
                      pdfCompressor.originalSize := fileManager.formatted o;
                      pdfCompressor.compressedSize := fileManager.formatted c;
                      pdfCompressor.originalBytes := fileManager.bytes o;
                      pdfCompressor.compressedBytes := fileManager.bytes c;
                      pdfCompressor.compressionRatio :=
                        pdfCompressor._calculateCompressionRatio
                          (fileManager.bytes o) (fileManager.bytes c);
                      pdfCompressor.savedBytes :=
                        fileManager.bytes o - fileManager.bytes c;
                      pdfCompressor.savedFormatted :=
                        fileManager.formatBytes
                          (fileManager.bytes o - fileManager.bytes c) |})
            | (w3, Thrown e) => (w3, Thrown (rethrow e))
            | (w3, Hung) => (w3, Hung)
            end
        | (w2, Thrown e) => (w2, Thrown (rethrow e))
        | (w2, Hung) => (w2, Hung)
        end
    | (w1, Thrown e) => (w1, Thrown (rethrow e))
    | (w1, Hung) => (w1, Hung)
    end.
Proof.
  cbv zeta. unfold pdfCompressor.compress. run_monad.
  destruct (fileManager.getFileSize inputPath w) as [w1 [o|e|]];
    [| destruct (JSString.includes _ _); reflexivity | reflexivity].
  destruct (pdfCompressor._executeGhostscript cfg host _ w1) as [w2 [[]|e|]];
    [| destruct (JSString.includes _ _); reflexivity | reflexivity].
  destruct (fileManager.getFileSize outputPath w2) as [w3 [c|e|]];
    [reflexivity | destruct (JSString.includes _ _); reflexivity | reflexivity].
Qed.

Lemma div_NaN (x : spec_float) : Number.div x Number.NaN = Number.NaN.
Proof. destruct x; reflexivity. Qed.

Lemma formatBytes_negative (bytes : Z) :
  bytes < 0 -> fileManager.formatBytes bytes = "NaN undefined".
Proof.
  intros H. unfold fileManager.formatBytes, fileManager.floor_log1024.
  replace (bytes =? 0) with false by (symmetry; apply Z.eqb_neq; lia).
  replace (bytes <? 0) with true by (symmetry; apply Z.ltb_lt; lia).
  cbn [fileManager.pow1024 fileManager.unit_name]. rewrite div_NaN.
  reflexivity.
Qed.

(** X13.  The sizes that [compress] reports are those of the files: the
    input as it was before the run, the output as it is after it, so a
    result is returned only when the output file exists; nothing is logged.
    The three formatted sizes are [formatBytes] of the three byte counts,
    and when the output is larger than the input [savedFormatted] is the
    text ["NaN undefined"]. *)
Theorem compress_reports_the_sizes_on_disk (cfg : Config)
    (host : pdfCompressor.Host) (inputPath outputPath : Path) (w w' : World)
    (r : pdfCompressor.CompressionResult) :
  pdfCompressor.compress cfg host inputPath outputPath w = (w', Returned r) ->
  (exists f g,
      inode inputPath w = Some f ∧ pdfCompressor.originalBytes r = size f
      ∧ inode outputPath w' = Some g ∧ pdfCompressor.compressedBytes r = size g)
  ∧ console w' = console w
  ∧ pdfCompressor.result_success r = true
  ∧ pdfCompressor.originalSize r
    = fileManager.formatBytes (pdfCompressor.originalBytes r)
  ∧ pdfCompressor.compressedSize r
    = fileManager.formatBytes (pdfCompressor.compressedBytes r)
  ∧ pdfCompressor.savedFormatted r
    = fileManager.formatBytes (pdfCompressor.savedBytes r)
  ∧ (pdfCompressor.originalBytes r < pdfCompressor.compressedBytes r ->
     pdfCompressor.savedFormatted r = "NaN undefined")
  ∧ (pdfCompressor.originalBytes r = pdfCompressor.compressedBytes r ->
     pdfCompressor.savedFormatted r = "0 Bytes").
Proof.
  rewrite compress_outcome. cbv zeta.
  rewrite (getFileSize_outcome inputPath w).
  destruct (inode inputPath w) as [f|] eqn:Ef; [|discriminate].
  destruct (stat_fault f); [discriminate|].
  pose proof (executeGhostscript_console cfg host
                (pdfCompressor._buildGhostscriptCommand cfg
                   (Path_toString inputPath) (Path_toString outputPath)) w)
    as Hk.
  destruct (pdfCompressor._executeGhostscript cfg host _ w) as [w2 [[]|e|]];
    [|discriminate|discriminate].
  rewrite (getFileSize_outcome outputPath w2).
  destruct (inode outputPath w2) as [g|] eqn:Eg; [|discriminate].
  destruct (stat_fault g); [discriminate|].
  intros [= <- <-]. cbn.
  split; [exists f, g; auto|]. split; [exact Hk|].
  do 4 (split; [reflexivity|]). split.
  - intros H. apply formatBytes_negative. lia.
  - intros ->. rewrite Z.sub_diag. reflexivity.
Qed.

Lemma compress_reports_the_sizes_on_disk_witness :
  exists r,
    snd (pdfCompressor.compress config host_with_configured_gs
           (path_join "uploads" "upload-1.pdf")
           (path_join "compressed" "compupload-1-1700000000000.pdf")
           sample_world) = Returned r
    ∧ pdfCompressor.originalSize r = "1000 Bytes"
    ∧ pdfCompressor.compressedSize r = "1.46 KB"
    ∧ pdfCompressor.savedFormatted r = "NaN undefined".
Proof.
  set (run := pdfCompressor.compress config host_with_configured_gs
                (path_join "uploads" "upload-1.pdf")
                (path_join "compressed" "compupload-1-1700000000000.pdf")
                sample_world).
  set (r := {| pdfCompressor.result_success := true;
               pdfCompressor.originalSize := "1000 Bytes";
               pdfCompressor.compressedSize := "1.46 KB";
               pdfCompressor.originalBytes := 1000;
               pdfCompressor.compressedBytes := 1500;
               pdfCompressor.compressionRatio := Number.zero;
               pdfCompressor.savedBytes := -500;
               pdfCompressor.savedFormatted := "NaN undefined" |}).
  assert (E : run = (fst run, Returned r)) by (vm_compute; reflexivity).
  exists r. split; [rewrite E; reflexivity|].
  split; [reflexivity|]. split; [reflexivity|].
  apply (compress_reports_the_sizes_on_disk _ _ _ _ _ _ _ E). reflexivity.
Defined.


(** X15.  [validateGhostscript] never throws and logs nothing: it answers
    [true] when the version query is resolved and [false] when it is
    rejected, and it hangs when the query does, which does not happen on a
    host where every child that starts also exits.  On a host whose failed
    spawns carry an errno it answers [true] only if some candidate was
    started and exited with 0. *)
Theorem validateGhostscript_answers (cfg : Config)
    (host : pdfCompressor.Host) (w : World) :
  let r := pdfCompressor.validateGhostscript cfg host w in
  let query := pdfCompressor._executeGhostscript cfg host ["--version"] w in
  fst r = fst query
  ∧ console (fst r) = console w
  ∧ snd r = match snd query with
            | Returned _ => Returned true
            | Thrown _ => Returned false
            | Hung => Hung
            end
  ∧ (forall e, snd r <> Thrown e)
  ∧ (all_exit cfg host ["--version"] -> exists b, snd r = Returned b)
  ∧ ((forall command error errno,
         pdfCompressor.spawn host command ["--version"]
         = pdfCompressor.SpawnFailed error errno -> errno <> 0) ->
     snd r = Returned true ->
     exists command stderr writes,
       In command (pdfCompressor.gsCommands cfg host)
       ∧ pdfCompressor.spawn host command ["--version"]
         = pdfCompressor.Started (Some 0) stderr writes).
Proof.
  cbv zeta. unfold pdfCompressor.validateGhostscript. run_monad.
  pose proof (executeGhostscript_not_hung cfg host ["--version"]) as Hh.
  pose proof (resolved_exited_zero cfg host ["--version"]) as Hz.
  pose proof (executeGhostscript_console cfg host ["--version"] w) as Hk.
  destruct (pdfCompressor._executeGhostscript cfg host ["--version"] w)
    as [w1 [[]|e|]] eqn:E; cbn [fst snd] in *.
  - split; [reflexivity|]. split; [exact Hk|].
    split; [reflexivity|]. split; [discriminate|].
    split; [eauto|]. intros Herrno _. exact (Hz Herrno w w1 E).
  - split; [reflexivity|]. split; [exact Hk|].
    split; [reflexivity|]. split; [discriminate|].
    split; [eauto|]. intros _ [=].
  - split; [reflexivity|]. split; [exact Hk|].
    split; [reflexivity|]. split; [discriminate|].
    split; [|intros _ [=]].
    intros Hexit. specialize (Hh Hexit w). rewrite E in Hh.
    exfalso. exact (Hh eq_refl).
Qed.

(** ** The two handlers *)

Lemma deleteFile_leftover (p : Path) (w : World) (g : Inode) :
  inode p (fst (fileManager.deleteFile p w)) = Some g ->
  is_Some (unlink_fault g).
Proof.
  pose proof (inode_lookup p w) as Hl. rewrite deleteFile_outcome.
  destruct (fs.lookup p w) as [[d f]|].
  - destruct Hl as [Hi Hd]. destruct (unlink_fault f) as [e|] eqn:Ef;
      cbn [fst].
    + rewrite (inode_disk p w) by reflexivity. rewrite Hi.
      intros [= <-]. rewrite Ef. eauto.
    + intros H.
      destruct (inode_unlinked p p w
                  {| disk := <[dirname p :=
                                 {| readdir_fault := readdir_fault d;
                                    entries := delete (basename p) (entries d) |}]>
                               (disk w);
                     console := console w ++
                                [console_log ("✓ Deleted file: " +:+ basename p)] |}
                  d Hd eq_refl) as [Hn _].
      congruence.
  - cbn [fst]. rewrite (inode_disk p w) by reflexivity. congruence.
Qed.


Lemma deleteFile_returns (p : Path) (w : World) :
  fileManager.deleteFile p w = (fst (fileManager.deleteFile p w), Returned tt).
Proof.
  rewrite deleteFile_outcome. destruct (fs.lookup p w) as [[d f]|];
    [destruct (unlink_fault f)|]; reflexivity.
Qed.

Lemma deleteFile_other (p q : Path) (w : World) :
  q <> p -> inode q (fst (fileManager.deleteFile p w)) = inode q w.
Proof.
  intros Hq. pose proof (inode_lookup p w) as Hl. rewrite deleteFile_outcome.
  destruct (fs.lookup p w) as [[d f]|].
  - destruct Hl as [Hi Hd]. destruct (unlink_fault f); cbn [fst].
    + apply inode_disk. reflexivity.
    + eapply (inode_unlinked p q); [exact Hd | reflexivity | exact Hq].
  - apply inode_disk. reflexivity.
Qed.

Lemma compress_not_hung (cfg : Config) (host : pdfCompressor.Host)
    (inputPath outputPath : Path) (w : World) :
  all_exit cfg host
    (pdfCompressor._buildGhostscriptCommand cfg (Path_toString inputPath)
                                            (Path_toString outputPath)) ->
  snd (pdfCompressor.compress cfg host inputPath outputPath w) <> Hung.
Proof.
  intros Hexit.
  rewrite compress_outcome. cbv zeta.
  rewrite (getFileSize_outcome inputPath w).
  destruct (inode inputPath w) as [f|]; [|discriminate].
  destruct (stat_fault f); [discriminate|].
  pose proof (executeGhostscript_not_hung cfg host
                (pdfCompressor._buildGhostscriptCommand cfg
                   (Path_toString inputPath) (Path_toString outputPath))
                Hexit w)
    as Hh.
  destruct (pdfCompressor._executeGhostscript cfg host _ w) as [w2 [[]|e|]];
    [|discriminate|contradiction].
  rewrite (getFileSize_outcome outputPath w2).
  destruct (inode outputPath w2) as [g|]; [|discriminate].
  destruct (stat_fault g); discriminate.
Qed.

Lemma compress_output (cfg : Config) (host : pdfCompressor.Host)
    (inputPath outputPath : Path) (w w' : World)
    (r : pdfCompressor.CompressionResult) :
  pdfCompressor.compress cfg host inputPath outputPath w = (w', Returned r) ->
  exists g, inode outputPath w' = Some g
            ∧ pdfCompressor.compressedBytes r = size g.
Proof.
  rewrite compress_outcome. cbv zeta.
  rewrite (getFileSize_outcome inputPath w).
  destruct (inode inputPath w) as [f|]; [|discriminate].
  destruct (stat_fault f); [discriminate|].
  destruct (pdfCompressor._executeGhostscript cfg host _ w) as [w2 [[]|e|]];
    [|discriminate|discriminate].
  rewrite (getFileSize_outcome outputPath w2).
  destruct (inode outputPath w2) as [g|] eqn:Eg; [|discriminate].
  destruct (stat_fault g); [discriminate|].
  intros [= <- <-]. exists g. auto.
Qed.

(** What [POST /api/compress] does, step by step. *)
Lemma post_compress_outcome (cfg : Config) (host : pdfCompressor.Host)
    (file : option fileManager.File) (timestamp : Z) (w : World) :
  server.post_compress cfg host file timestamp w
  = match file with
    | None =>
        (w, Returned (server.failed 400 "No file uploaded" None))
    | Some f =>
        let validation := fileManager.validateFile cfg (Some f) in
        if fileManager.success validation then
          let filename :=
            server.outputFilename (fileManager.originalname f) timestamp in
          match pdfCompressor.compress cfg host (fileManager.path f)
                  (path_join (upload_compressedDir cfg) filename) w with
          | (w1, Returned result) =>
              (fst (fileManager.deleteFile (fileManager.path f) w1),
               Returned (server.compressed filename
                           (fileManager.originalname f) result))
          | (w1, Thrown e) =>
              (fst (fileManager.deleteFile (fileManager.path f)
                      {| disk := disk w1;
                         console := console w1 ++
                                    [console_error "Compression error:" e] |}),
               Returned
                 (server.failed 500
                    (if JSString.includes (message e) "Ghostscript not found"
                     then server.install_guidance
                     else "Failed to compress PDF. Please ensure the file is a valid PDF.")
                    (Some (message e))))
          | (w1, Hung) => (w1, Hung)
          end
        else
          (fst (fileManager.deleteFile (fileManager.path f) w),
           Returned (server.failed 400
                       (fileManager.validation_message validation) None))
    end.
Proof.
  unfold server.post_compress, server.delete_upload.
  destruct file as [f|]; [|reflexivity].
  cbv zeta. run_monad.
  destruct (fileManager.success (fileManager.validateFile cfg (Some f))).
  - cbn [negb].
    destruct (pdfCompressor.compress cfg host _ _ w) as [w1 [result|e|]].
    + rewrite (deleteFile_returns (fileManager.path f) w1). reflexivity.
    + rewrite (deleteFile_returns (fileManager.path f)). reflexivity.
    + reflexivity.
  - cbn [negb]. rewrite (deleteFile_returns (fileManager.path f) w).
    reflexivity.
Qed.

(** X16.  The handler of [POST /api/compress], called with the [req.file]
    that the upload middleware has left (the middleware itself refuses an
    upload over its size limit, which never reaches the handler), never
    throws, and it answers unless the compression hangs, which does not
    happen on a host where every child that starts also exits.  The answer
    is 400 with the message of the validation exactly when [validateFile]
    rejects [req.file], 500 when the compression throws, with the message
    of the error as details and the installation guidance exactly when that
    message contains ['Ghostscript not found'], and otherwise the result of
    the compression under the output file name. *)
Theorem post_compress_answers (cfg : Config)
    (host : pdfCompressor.Host) (file : option fileManager.File)
    (timestamp : Z) (w : World) :
  let r := server.post_compress cfg host file timestamp w in
  let validation := fileManager.validateFile cfg file in
  (forall e, snd r <> Thrown e)
  ∧ (snd r = Hung ->
     exists f,
       file = Some f
       ∧ fileManager.success validation = true
       ∧ snd (pdfCompressor.compress cfg host (fileManager.path f)
                (path_join (upload_compressedDir cfg)
                   (server.outputFilename (fileManager.originalname f)
                                          timestamp)) w)
         = Hung)
  ∧ ((forall args, all_exit cfg host args) -> exists reply, snd r = Returned reply)
  ∧ forall reply,
      snd r = Returned reply ->
      match reply with
      | server.failed status error details =>
          (status = 400 ∧ details = None
           ∧ fileManager.success validation = false
           ∧ error = fileManager.validation_message validation)
          \/ (status = 500
              ∧ fileManager.success validation = true
              ∧ exists f w1 e,
                  file = Some f
                  ∧ pdfCompressor.compress cfg host (fileManager.path f)
                      (path_join (upload_compressedDir cfg)
                         (server.outputFilename (fileManager.originalname f)
                                                timestamp)) w
                    = (w1, Thrown e)
                  ∧ details = Some (message e)
                  ∧ error
                    = if JSString.includes (message e) "Ghostscript not found"
                      then server.install_guidance
                      else "Failed to compress PDF. Please ensure the file is a valid PDF.")
      | server.compressed filename originalName result =>
          fileManager.success validation = true
          ∧ exists f w1,
              file = Some f
              ∧ filename
                = server.outputFilename (fileManager.originalname f) timestamp
              ∧ originalName = fileManager.originalname f
              ∧ pdfCompressor.compress cfg host (fileManager.path f)
                  (path_join (upload_compressedDir cfg) filename) w
                = (w1, Returned result)
      end.
Proof.
  cbv zeta. rewrite post_compress_outcome.
  destruct file as [f|].
  - cbv zeta.
    destruct (fileManager.success (fileManager.validateFile cfg (Some f)))
      eqn:Ev.
    + pose proof (compress_not_hung cfg host (fileManager.path f)
                    (path_join (upload_compressedDir cfg)
                       (server.outputFilename (fileManager.originalname f)
                                              timestamp)) w) as Hh.
      destruct (pdfCompressor.compress cfg host _ _ w) as [w1 [result|e|]]
        eqn:Ec; cbn [snd].
      * split; [discriminate|]. split; [discriminate|].
        split; [eauto|]. intros reply [= <-].
        split; [reflexivity|]. exists f, w1. auto.
      * split; [discriminate|]. split; [discriminate|].
        split; [eauto|]. intros reply [= <-]. right.
        split; [reflexivity|]. split; [reflexivity|].
        exists f, w1, e. auto.
      * split; [discriminate|].
        split; [intros _; exists f; repeat split; rewrite Ec; reflexivity|].
        split; [|intros reply [=]].
        intros Hexit. exfalso. apply Hh; [apply Hexit | reflexivity].
    + cbn [snd]. split; [discriminate|]. split; [discriminate|].
      split; [eauto|]. intros reply [= <-]. left. auto.
  - cbn [snd]. split; [discriminate|]. split; [discriminate|].
    split; [eauto|]. intros reply [= <-]. left. auto.
Qed.

(** X17.  Whatever [POST /api/compress] answers, the uploaded file is
    deleted: after an answer of the handler the path of the upload leads to
    an entry only if that entry could not be unlinked.  When the validation
    fails nothing else on the disk changes. *)
Theorem post_compress_removes_the_upload (cfg : Config)
    (host : pdfCompressor.Host) (f : fileManager.File) (timestamp : Z)
    (w : World) (reply : server.CompressReply) :
  let r := server.post_compress cfg host (Some f) timestamp w in
  snd r = Returned reply ->
  (inode (fileManager.path f) (fst r) = None
   \/ exists g, inode (fileManager.path f) (fst r) = Some g
                ∧ is_Some (unlink_fault g))
  ∧ (fileManager.success (fileManager.validateFile cfg (Some f)) = false ->
     forall q, q <> fileManager.path f -> inode q (fst r) = inode q w).
Proof.
  cbv zeta. rewrite post_compress_outcome. cbv zeta.
  assert (Hgone : forall w0,
             inode (fileManager.path f)
                   (fst (fileManager.deleteFile (fileManager.path f) w0)) = None
             \/ exists g,
                 inode (fileManager.path f)
                       (fst (fileManager.deleteFile (fileManager.path f) w0))
                 = Some g
                 ∧ is_Some (unlink_fault g)).
  { intros w0.
    destruct (inode (fileManager.path f)
                (fst (fileManager.deleteFile (fileManager.path f) w0)))
      as [g|] eqn:E; [right | left; reflexivity].
    exists g. split; [reflexivity|]. exact (deleteFile_leftover _ _ _ E). }
  destruct (fileManager.success (fileManager.validateFile cfg (Some f))).
  - destruct (pdfCompressor.compress cfg host _ _ w) as [w1 [result|e|]];
      cbn [fst snd]; intros Hr; [| |discriminate];
      (split; [apply Hgone | discriminate]).
  - cbn [fst]. intros _. split; [apply Hgone|].
    intros _ q Hq. apply deleteFile_other, Hq.
Qed.

Lemma post_compress_removes_the_upload_witness :
  inode (path_join "uploads" "upload-1.pdf")
        (fst (server.post_compress config host_with_configured_gs
                (Some small_pdf) 1700000000000 sample_world))
  = None.
Proof.
  set (run := server.post_compress config host_with_configured_gs
                (Some small_pdf) 1700000000000 sample_world).
  set (r := {| pdfCompressor.result_success := true;
               pdfCompressor.originalSize := "1000 Bytes";
               pdfCompressor.compressedSize := "1.46 KB";
               pdfCompressor.originalBytes := 1000;
               pdfCompressor.compressedBytes := 1500;
               pdfCompressor.compressionRatio := Number.zero;
               pdfCompressor.savedBytes := -500;
               pdfCompressor.savedFormatted := "NaN undefined" |}).
  assert (E : snd run
              = Returned (server.compressed "compupload-1-1700000000000.pdf"
                            "upload-1.pdf" r))
    by (vm_compute; reflexivity).
  destruct (proj1 (post_compress_removes_the_upload config
                     host_with_configured_gs small_pdf 1700000000000
                     sample_world _ E)) as [Hnone|(g & Hg & Hfault)].
  - exact Hnone.
  - exfalso. revert Hg Hfault. vm_compute. intros [=].
Defined.

Lemma get_download_outcome (cfg : Config) (filename : string)
    (transfer : option Error) (w : World) :
  let p := path_join (upload_compressedDir cfg) filename in
  server.get_download cfg filename transfer w
  = match inode p w with
    | None => (w, Returned (server.json 404 "File not found"))
    | Some _ =>
        (match transfer with
         | Some err =>
             {| disk := disk w;
                console := console w ++ [console_error "Download error:" err] |}
         | None => fst (fileManager.deleteFile p w)
         end,
         Returned (server.download p filename))
    end.
Proof.
  cbv zeta. unfold server.get_download. run_monad.
  rewrite fileExists_outcome.
  destruct (inode (path_join (upload_compressedDir cfg) filename) w) as [g|].
  - rewrite bool_decide_eq_true_2 by eauto. cbn [negb].
    destruct transfer as [err|]; [reflexivity|].
    rewrite (deleteFile_returns _ w). reflexivity.
  - rewrite bool_decide_eq_false_2 by (intros [? [=]]). reflexivity.
Qed.



(** X19.  A file that [POST /api/compress] answers with can be downloaded:
    after the answer the output directory has an entry under the file name
    of the answer, of the size the answer reports, and
    [GET /api/download] of that name sends it (unless the path of the
    upload was that very path). *)
Theorem post_compress_then_download (cfg : Config)
    (host : pdfCompressor.Host) (f : fileManager.File) (timestamp : Z)
    (w w' : World) (filename originalName : string)
    (result : pdfCompressor.CompressionResult) (transfer : option Error) :
  server.post_compress cfg host (Some f) timestamp w
  = (w', Returned (server.compressed filename originalName result)) ->
  let p := path_join (upload_compressedDir cfg) filename in
  fileManager.path f <> p ->
  (exists g, inode p w' = Some g
             ∧ size g = pdfCompressor.compressedBytes result)
  ∧ snd (server.get_download cfg filename transfer w')
    = Returned (server.download p filename).
Proof.
  rewrite post_compress_outcome. cbv zeta.
  destruct (fileManager.success (fileManager.validateFile cfg (Some f)));
    [|discriminate].
  destruct (pdfCompressor.compress cfg host _ _ w) as [w1 [r|e|]] eqn:Ec;
    [|discriminate|discriminate].
  intros [= <- <- _ <-] Hne.
  apply compress_output in Ec as (g & Hg & Hsize).
  assert (Hin : inode (path_join (upload_compressedDir cfg)
                         (server.outputFilename (fileManager.originalname f)
                                                timestamp))
                      (fst (fileManager.deleteFile (fileManager.path f) w1))
                = Some g).
  { rewrite deleteFile_other by (apply not_eq_sym, Hne). exact Hg. }
  split; [exists g; auto|].
  rewrite get_download_outcome. cbv zeta. rewrite Hin. reflexivity.
Qed.

Lemma post_compress_then_download_witness :
  snd (server.get_download config "compupload-1-1700000000000.pdf" None
         (fst (server.post_compress config host_with_configured_gs
                 (Some small_pdf) 1700000000000 sample_world)))
  = Returned (server.download
                (path_join "compressed" "compupload-1-1700000000000.pdf")
                "compupload-1-1700000000000.pdf").
Proof.
  set (run := server.post_compress config host_with_configured_gs
                (Some small_pdf) 1700000000000 sample_world).
  set (r := {| pdfCompressor.result_success := true;
               pdfCompressor.originalSize := "1000 Bytes";
               pdfCompressor.compressedSize := "1.46 KB";
               pdfCompressor.originalBytes := 1000;
               pdfCompressor.compressedBytes := 1500;
               pdfCompressor.compressionRatio := Number.zero;
               pdfCompressor.savedBytes := -500;
               pdfCompressor.savedFormatted := "NaN undefined" |}).
  assert (E : run = (fst run,
                     Returned (server.compressed
                                 "compupload-1-1700000000000.pdf"
                                 "upload-1.pdf" r)))
    by (vm_compute; reflexivity).
  apply (proj2 (post_compress_then_download config host_with_configured_gs
                  small_pdf 1700000000000 sample_world (fst run) _ _ _ None E
                  ltac:(discriminate))).
Defined.

(** ** A request, end to end *)

(** X26.  A request that goes well, end to end: for an upload that passes
    the validation and is on the disk, on a host whose first candidate runs
    the command, exits with 0 and leaves the output file, [POST
    /api/compress] answers with the output file name, the original name and
    the statistics of the two files: their byte counts, their difference,
    the ratio and the formatted sizes. *)
Theorem post_compress_end_to_end (cfg : Config) (host : pdfCompressor.Host)
    (f : fileManager.File) (timestamp : Z) (w : World) (original output : Inode)
    (c : string) (rest : list string) (stderr : string)
    (writes : gmap string Directory -> gmap string Directory) :
  let filename :=
    server.outputFilename (fileManager.originalname f) timestamp in
  let outputPath := path_join (upload_compressedDir cfg) filename in
  let args :=
    pdfCompressor._buildGhostscriptCommand cfg
      (Path_toString (fileManager.path f)) (Path_toString outputPath) in
  fileManager.success (fileManager.validateFile cfg (Some f)) = true ->
  inode (fileManager.path f) w = Some original ->
  stat_fault original = None ->
  pdfCompressor.gsCommands cfg host = c :: rest ->
  pdfCompressor.spawn host c args
  = pdfCompressor.Started (Some 0) stderr writes ->
  inode outputPath {| disk := writes (disk w); console := console w |}
  = Some output ->
  stat_fault output = None ->
  snd (server.post_compress cfg host (Some f) timestamp w)
  = Returned
      (server.compressed filename (fileManager.originalname f)
         {| pdfCompressor.result_success := true;
            pdfCompressor.originalSize :=
              fileManager.formatBytes (size original);
            pdfCompressor.compressedSize :=
              fileManager.formatBytes (size output);
            pdfCompressor.originalBytes := size original;
            pdfCompressor.compressedBytes := size output;
            pdfCompressor.compressionRatio :=
              pdfCompressor._calculateCompressionRatio (size original)
                                                       (size output);
            pdfCompressor.savedBytes := size original - size output;
            pdfCompressor.savedFormatted :=
              fileManager.formatBytes (size original - size output) |}).
Proof.
  cbv zeta. intros Hvalid Hin Hstat Hc Hs Hout Hso.
  rewrite post_compress_outcome. cbv zeta. rewrite Hvalid.
  rewrite compress_outcome. cbv zeta.
  rewrite (getFileSize_outcome (fileManager.path f) w), Hin, Hstat.
  assert (Hrun : pdfCompressor._executeGhostscript cfg host
                   (pdfCompressor._buildGhostscriptCommand cfg
                      (Path_toString (fileManager.path f))
                      (Path_toString
                         (path_join (upload_compressedDir cfg)
                            (server.outputFilename (fileManager.originalname f)
                                                   timestamp)))) w
                 = ({| disk := writes (disk w); console := console w |},
                    Returned tt)).
  { unfold pdfCompressor._executeGhostscript.
    rewrite (start_first cfg host _ (disk w) c rest Hc), Hs, Hc.
    replace (2 * length (c :: rest))%nat with (S (S (2 * length rest)))
      by (cbn [length]; lia).
    rewrite (run_single cfg host _ _ true _
               (pdfCompressor.close_event (Some 0) stderr writes))
      by reflexivity.
    rewrite !run_idle by reflexivity. reflexivity. }
  rewrite Hrun, getFileSize_outcome, Hout, Hso. reflexivity.
Qed.

Lemma post_compress_end_to_end_witness :
  exists result,
    snd (server.post_compress config host_compressing_report
           (Some report_upload) 1700000000000 world_with_report)
    = Returned (server.compressed "compreport-1700000000000.pdf"
                                  "report.pdf" result)
    ∧ pdfCompressor.originalBytes result = 5000000
    ∧ pdfCompressor.compressedBytes result = 1800000
    ∧ pdfCompressor.savedBytes result = 3200000
    ∧ Number.toString (pdfCompressor.compressionRatio result) = "64"
    ∧ pdfCompressor.originalSize result = "4.77 MB"
    ∧ pdfCompressor.compressedSize result = "1.72 MB"
    ∧ pdfCompressor.savedFormatted result = "3.05 MB".
Proof.
  eexists. split.
  - apply (post_compress_end_to_end config host_compressing_report
             report_upload 1700000000000 world_with_report
             (plain_file 5000000 1699999999000)
             (plain_file 1800000 sample_now)
             "D:\ghostscriptforpdftool\gs10.06.0\bin\gswin64c.exe"
             ["gs"; "gswin64c"; "gswin32c"] ""
             (write_output "compreport-1700000000000.pdf" 1800000));
      vm_compute; reflexivity.
  - vm_compute. repeat split; reflexivity.
Defined.

(** X27.  When no candidate is found the caller is told to install
    Ghostscript: for an upload that passes the validation and is on the
    disk, if the walk rejects with the error that says that Ghostscript was
    not found, [POST /api/compress] answers 500 with the installation
    guidance, and the message of that error as details. *)
Theorem post_compress_tool_missing (cfg : Config) (host : pdfCompressor.Host)
    (f : fileManager.File) (timestamp : Z) (w w2 : World) (original : Inode) :
  let outputPath :=
    path_join (upload_compressedDir cfg)
      (server.outputFilename (fileManager.originalname f) timestamp) in
  let args :=
    pdfCompressor._buildGhostscriptCommand cfg
      (Path_toString (fileManager.path f)) (Path_toString outputPath) in
  fileManager.success (fileManager.validateFile cfg (Some f)) = true ->
  inode (fileManager.path f) w = Some original ->
  stat_fault original = None ->
  pdfCompressor._executeGhostscript cfg host args w
  = (w2, Thrown pdfCompressor.not_found) ->
  snd (server.post_compress cfg host (Some f) timestamp w)
  = Returned (server.failed 500 server.install_guidance
                (Some (message pdfCompressor.not_found))).
Proof.
  cbv zeta. intros Hvalid Hin Hstat Hrun.
  rewrite post_compress_outcome. cbv zeta. rewrite Hvalid.
  rewrite compress_outcome. cbv zeta.
  rewrite (getFileSize_outcome (fileManager.path f) w), Hin, Hstat, Hrun.
  reflexivity.
Qed.

Lemma post_compress_tool_missing_witness :
  snd (server.post_compress config_auto_detect linux_without_gs
         (Some small_pdf) 1700000000000 sample_world)
  = Returned (server.failed 500 server.install_guidance
                (Some (message pdfCompressor.not_found))).
Proof.
  apply (post_compress_tool_missing config_auto_detect linux_without_gs
           small_pdf 1700000000000 sample_world
           (fst (pdfCompressor._executeGhostscript config_auto_detect
                   linux_without_gs
                   (pdfCompressor._buildGhostscriptCommand config_auto_detect
                      "uploads/upload-1.pdf"
                      "compressed/compupload-1-1700000000000.pdf")
                   sample_world))
           (plain_file 1000 1699996399000));
    vm_compute; reflexivity.
Defined.

(** ** The selection of files in the page *)

(** The validation loop stops at the first file that is not acceptable. *)
Lemma validate_outcome (files : list app.BrowserFile) :
  forall validFiles : list app.BrowserFile,
    match app.validate files validFiles with
    | inr valid =>
        valid = validFiles ++ files ∧ forallb acceptable files = true
    | inl message =>
        exists before f after,
          files = before ++ f :: after
          ∧ forallb acceptable before = true
          ∧ acceptable f = false
          ∧ message
            = if String.eqb (app.type f) "application/pdf"
              then "File " +:+ app.quote +:+ app.name f +:+ app.quote +:+
                   " exceeds 250 MB limit"
              else "Only PDF files are allowed"
    end.
Proof.
  induction files as [|file rest IH]; intros validFiles; cbn [app.validate].
  - rewrite app_nil_r. auto.
  - destruct (String.eqb (app.type file) "application/pdf") eqn:Et;
      cbn [negb].
    + destruct (app.maxSize <? app.size file) eqn:Es.
      * exists [], file, rest. unfold acceptable. rewrite Et.
        apply Z.ltb_lt in Es.
        replace (app.size file <=? app.maxSize) with false
          by (symmetry; apply Z.leb_gt; exact Es).
        auto.
      * apply Z.ltb_ge in Es.
        assert (Hok : acceptable file = true).
        { unfold acceptable. rewrite Et. apply Z.leb_le in Es. rewrite Es.
          reflexivity. }
        specialize (IH (validFiles ++ [file])).
        destruct (app.validate rest (validFiles ++ [file])) as [message|valid].
        -- destruct IH as (before & f & after & -> & Hb & Hf & Hm).
           exists (file :: before), f, after. cbn [forallb]. rewrite Hok, Hb.
           auto.
        -- destruct IH as [-> Hall]. cbn [forallb]. rewrite Hok, Hall.
           rewrite <- app_assoc. auto.
    + exists [], file, rest. unfold acceptable. rewrite Et. auto.
Qed.

(** X20.  [processFiles] selects all the files or none.  When every file
    is a PDF within the limit they become the selection and the file-info
    section is the one shown; otherwise the selection stays as it was and
    the error section is the one shown, with the message of the first file
    that is refused: the type message for a file that is not a PDF, the
    size message with its name for a PDF above the limit. *)
Theorem processFiles_all_or_nothing (files : list app.BrowserFile)
    (p : app.Page) :
  let page := app.processFiles files p in
  if forallb acceptable files then
    match files with
    | [] => page = p
    | _ =>
        app.selectedFiles page = files
        ∧ shown page = ["file-info"]
        ∧ app.errorMessage_textContent page = app.errorMessage_textContent p
    end
  else
    app.selectedFiles page = app.selectedFiles p
    ∧ shown page = ["error"]
    ∧ exists before f after,
        files = before ++ f :: after
        ∧ forallb acceptable before = true
        ∧ acceptable f = false
        ∧ app.errorMessage_textContent page
          = if String.eqb (app.type f) "application/pdf"
            then "File " +:+ app.quote +:+ app.name f +:+ app.quote +:+
                 " exceeds 250 MB limit"
            else "Only PDF files are allowed".
Proof.
  cbv zeta. unfold app.processFiles.
  pose proof (validate_outcome files []) as Hv.
  destruct (app.validate files []) as [message|valid].
  - destruct Hv as (before & f & after & -> & Hb & Hf & ->).
    rewrite forallb_app. cbn [forallb]. rewrite Hb, Hf. cbn [andb].
    split; [reflexivity|]. split; [reflexivity|].
    exists before, f, after. auto.
  - destruct Hv as [-> ->]. cbn [app].
    destruct files as [|f1 rest]; [reflexivity|].
    cbn [length Nat.eqb].
    destruct rest as [|f2 rest]; repeat split; reflexivity.
Qed.

(** X21.  The page and the server agree on what an acceptable file is: for
    a single file, [processFiles] selects it exactly when [validateFile]
    under the repository's configuration accepts the upload with that type
    and size; a file that is not a PDF gets the same message from both,
    and a PDF above the limit gets a size message from both. *)
Theorem page_accepts_what_the_server_accepts (f : app.BrowserFile)
    (upload : Path) (p : app.Page) :
  let page := app.processFiles [f] p in
  let verdict := fileManager.validateFile config (Some (uploaded f upload)) in
  fileManager.success verdict = acceptable f
  ∧ (fileManager.success verdict = true ->
     app.selectedFiles page = [f] ∧ shown page = ["file-info"])
  ∧ (fileManager.success verdict = false ->
     app.selectedFiles page = app.selectedFiles p
     ∧ shown page = ["error"]
     ∧ if String.eqb (app.type f) "application/pdf"
       then fileManager.validation_message verdict
            = "File size exceeds 250 MB limit"
            ∧ app.errorMessage_textContent page
              = "File " +:+ app.quote +:+ app.name f +:+ app.quote +:+
                " exceeds 250 MB limit"
       else fileManager.validation_message verdict
            = "Only PDF files are allowed"
            ∧ app.errorMessage_textContent page
              = "Only PDF files are allowed").
Proof.
  cbv zeta.
  assert (Hlimit : Number.toString
                     (Number.div (Number.ofZ (upload_maxFileSize config))
                                 (Number.ofZ (1024 * 1024))) = "250")
    by (vm_compute; reflexivity).
  unfold fileManager.validateFile, uploaded, app.processFiles, acceptable.
  cbn [fileManager.mimetype fileManager.file_size upload_allowedMimeTypes
       config existsb app.validate].
  rewrite Hlimit.
  change (upload_maxFileSize config) with app.maxSize.
  destruct (String.eqb (app.type f) "application/pdf") eqn:Et;
    cbn [orb negb andb].
  - rewrite Z.leb_antisym.
    destruct (app.maxSize <? app.size f) eqn:Es; cbn [negb fileManager.success].
    + split; [reflexivity|]. split; [discriminate|]. intros _.
      repeat split; reflexivity.
    + split; [reflexivity|]. split; [|discriminate]. intros _.
      split; reflexivity.
  - cbn [fileManager.success]. split; [reflexivity|].
    split; [discriminate|]. intros _. repeat split; reflexivity.
Qed.

Lemma forallb_firstn {A} (f : A -> bool) (n : nat) (l : list A) :
  forallb f l = true -> forallb f (firstn n l) = true.
Proof.
  revert n. induction l as [|x l IH]; intros [|n]; cbn; auto.
  intros H. apply andb_prop in H as [-> H]. cbn. apply IH, H.
Qed.

Lemma processFiles_selection (files : list app.BrowserFile) (p : app.Page) :
  app.selectedFiles (app.processFiles files p) = app.selectedFiles p
  \/ (app.selectedFiles (app.processFiles files p) = files
      ∧ forallb acceptable files = true).
Proof.
  pose proof (validate_outcome files []) as Hv.
  unfold app.processFiles.
  destruct (app.validate files []) as [message|valid].
  - left. reflexivity.
  - destruct Hv as [-> Hall]. cbn [app].
    destruct files as [|f1 rest]; [left; reflexivity|]. right.
    split; [|exact Hall]. destruct rest; reflexivity.
Qed.

(** X22.  At most [MAX_FILES] files are ever selected, all of them PDFs
    within the limit: the four handlers of the upload zone and of the file
    input keep it so.  A drop never brings up the type message: files that
    are not PDFs are left out before the validation, and a drop without a
    PDF changes nothing but the highlight of the zone. *)
Theorem selection_is_bounded (files : list app.BrowserFile) (p : app.Page) :
  let bounded := fun page : app.Page =>
    (length (app.selectedFiles page) <= app.MAX_FILES)%nat
    ∧ forallb acceptable (app.selectedFiles page) = true in
  bounded p ->
  bounded (app.handleFileSelect files p)
  ∧ bounded (app.handleDrop files p)
  ∧ bounded (app.handleDragOver p)
  ∧ bounded (app.handleDragLeave p)
  ∧ (app.errorMessage_textContent (app.handleDrop files p)
     = "Only PDF files are allowed" ->
     app.errorMessage_textContent p = "Only PDF files are allowed")
  ∧ (forallb (fun f => negb (String.eqb (app.type f) "application/pdf")) files
     = true ->
     app.handleDrop files p = app.set_drag_over false p).
Proof.
  cbv zeta. intros Hp.
  assert (Hproc : forall l q,
             (length (app.selectedFiles q) <= app.MAX_FILES)%nat
             ∧ forallb acceptable (app.selectedFiles q) = true ->
             (length l <= app.MAX_FILES)%nat ->
             (length (app.selectedFiles (app.processFiles l q))
              <= app.MAX_FILES)%nat
             ∧ forallb acceptable (app.selectedFiles (app.processFiles l q))
               = true).
  { intros l q Hq Hl.
    destruct (processFiles_selection l q) as [->|[-> Hall]]; auto. }
  assert (Hfirst : forall l : list app.BrowserFile,
             (length (firstn app.MAX_FILES l) <= app.MAX_FILES)%nat).
  { intros l. rewrite length_firstn. lia. }
  split; [|split; [|split; [exact Hp|split; [exact Hp|split]]]].
  - unfold app.handleFileSelect. destruct (0 <? _)%nat; [|exact Hp].
    apply Hproc; [exact Hp | apply Hfirst].
  - unfold app.handleDrop. destruct (0 <? _)%nat; [|exact Hp].
    apply Hproc; [exact Hp | apply Hfirst].
  - unfold app.handleDrop.
    set (pdfs := firstn app.MAX_FILES
                   (List.filter
                      (fun f => String.eqb (app.type f) "application/pdf")
                      files)).
    destruct (0 <? length pdfs)%nat; [|auto].
    assert (Hpdf : forallb (fun f => String.eqb (app.type f) "application/pdf")
                     pdfs = true).
    { apply forallb_firstn, forallb_forall. intros f Hf.
      apply filter_In in Hf as [_ Hf]. exact Hf. }
    pose proof (validate_outcome pdfs []) as Hv. unfold app.processFiles.
    destruct (app.validate pdfs []) as [message|valid].
    + destruct Hv as (before & f & after & Hsplit & _ & _ & ->).
      assert (Hf : String.eqb (app.type f) "application/pdf" = true).
      { rewrite forallb_forall in Hpdf. apply Hpdf. rewrite Hsplit.
        apply in_or_app. right. left. reflexivity. }
      rewrite Hf. intros H. exfalso. revert H. unfold app.quote.
      cbv [String.append]. discriminate.
    + destruct (length valid =? 0)%nat; [auto|].
      destruct valid as [|f1 [|f2 rest]]; auto.
  - intros Hnone. unfold app.handleDrop.
    assert (Hnil : List.filter
                     (fun f => String.eqb (app.type f) "application/pdf")
                     files = []).
    { induction files as [|f rest IH]; [reflexivity|]. cbn in Hnone |- *.
      apply andb_prop in Hnone as [Hf Hrest].
      destruct (String.eqb (app.type f) "application/pdf");
        [discriminate | apply IH, Hrest]. }
    rewrite Hnil. reflexivity.
Qed.

Lemma selection_is_bounded_witness :
  (length (app.selectedFiles
             (app.handleDrop [photo_png; report_pdf; report_pdf; report_pdf;
                              report_pdf] initial_page))
   <= app.MAX_FILES)%nat.
Proof.
  apply (proj1 (proj2 (selection_is_bounded
                         [photo_png; report_pdf; report_pdf; report_pdf;
                          report_pdf] initial_page
                         (conj (Nat.le_0_l _) eq_refl)))).
Defined.

(** ** The page, the upload and the download together *)

(** X28.  The server never refuses a file that the page has selected: a
    file of a selection in which every file is a PDF within the limit, as
    the handlers of the page keep it, passes [validateFile] under the
    repository's configuration, so [POST /api/compress] never answers 400
    to its upload. *)
Theorem selected_files_are_never_refused (page : app.Page)
    (f : app.BrowserFile) (upload : Path) (host : pdfCompressor.Host)
    (timestamp : Z) (w : World) :
  forallb acceptable (app.selectedFiles page) = true ->
  In f (app.selectedFiles page) ->
  fileManager.validateFile config (Some (uploaded f upload))
  = {| fileManager.success := true;
       fileManager.validation_message := "File is valid" |}
  ∧ forall error details,
      snd (server.post_compress config host (Some (uploaded f upload))
             timestamp w)
      <> Returned (server.failed 400 error details).
Proof.
  intros Hall Hin. rewrite forallb_forall in Hall.
  specialize (Hall f Hin). unfold acceptable in Hall.
  apply andb_prop in Hall as [Ht Hs]. apply Z.leb_le in Hs.
  assert (Hv : fileManager.validateFile config (Some (uploaded f upload))
               = {| fileManager.success := true;
                    fileManager.validation_message := "File is valid" |}).
  { unfold fileManager.validateFile, uploaded.
    cbn [fileManager.mimetype fileManager.file_size upload_allowedMimeTypes
         config existsb].
    rewrite Ht. cbn [orb negb].
    change (upload_maxFileSize config) with app.maxSize.
    replace (app.maxSize <? app.size f) with false
      by (symmetry; apply Z.ltb_ge; exact Hs).
    reflexivity. }
  split; [exact Hv|]. intros error details.
  rewrite post_compress_outcome. cbv zeta. rewrite Hv.
  cbn [fileManager.success].
  destruct (pdfCompressor.compress config host _ _ w) as [w1 [r|e|]];
    cbn [snd]; discriminate.
Qed.

Lemma selected_files_are_never_refused_witness :
  fileManager.validateFile config
    (Some (uploaded report_pdf (path_join "uploads" "upload-7.pdf")))
  = {| fileManager.success := true;
       fileManager.validation_message := "File is valid" |}.
Proof.
  apply (selected_files_are_never_refused
           (app.handleDrop [photo_png; report_pdf] initial_page)
           report_pdf (path_join "uploads" "upload-7.pdf")
           linux_without_gs 1700000000000 sample_world eq_refl
           (or_introl eq_refl)).
Defined.


